(** * Forge Overlay: the hash-chained event log of forge-overlay-core.js

    A shallow embedding of the engine in [src/_misc/forge-overlay-core.js]
    (digest fallback, the two storage back ends, [appendEvent],
    [rebuildFromZero], [log], [getState], [exportLog], [importLog],
    [verify]) and the properties of its chain, replay and merge.

    Conventions of the embedding.
    - A JavaScript string is a [string]; each [ascii] stands for one code
      unit (the code units below 256).
    - A JavaScript number that holds a fraction (the experience points) is a
      binary64 [float], computed with the kernel's primitive floats; the
      counters [streak] and [events], which only ever hold lengths and
      increments by one, are [nat].
    - [undefined] is [None]; every other value that JSON can carry is a
      [jsval].
    - The engine is single threaded and every call is awaited before the
      next one starts: an operation is a function from the engine before it
      to its result and the engine after it.  [Date] and [Math.random] are
      inputs of the operations that read them.
    - The user interface ([renderUI], [updateUI]) reads the state and never
      writes it; it is left out. *)

From Stdlib Require Import ZArith NArith Ascii String List Bool Lia.
From Stdlib Require Import Floats.PrimFloat Floats.SpecFloat Floats.FloatOps.
From Stdlib Require Numbers.Cyclic.Int63.Uint63.
From stdpp Require Import base option list strings gmap.

Local Open Scope string_scope.

(** ** Strings *)

Module JsString.

(** The double quote character, code unit 34. *)
Definition dquote : string := String (ascii_of_nat 34) EmptyString.
Definition backslash : ascii := ascii_of_nat 92.

(** [s.slice(0, n)] *)
Definition slice_first (n : nat) (s : string) : string := substring 0 n s.

(** [s.slice(-n)]: the last [n] code units, the whole string when shorter. *)
Definition slice_last (n : nat) (s : string) : string :=
  substring (String.length s - n) n s.

Fixpoint zeros (n : nat) : string :=
  match n with
  | O => EmptyString
  | S k => String "0"%char (zeros k)
  end.

(** [s.padEnd(n, '0')] *)
Definition padEnd0 (n : nat) (s : string) : string :=
  s +:+ zeros (n - String.length s).

Definition hexDigit (d : N) : ascii :=
  match d with
  | 0 => "0" | 1 => "1" | 2 => "2" | 3 => "3" | 4 => "4" | 5 => "5"
  | 6 => "6" | 7 => "7" | 8 => "8" | 9 => "9" | 10 => "a" | 11 => "b"
  | 12 => "c" | 13 => "d" | 14 => "e" | _ => "f"
  end%N%char.

Fixpoint hexLoop (fuel : nat) (n : N) (acc : string) : string :=
  match fuel with
  | O => acc
  | S f =>
      let acc' := String (hexDigit (n mod 16)) acc in
      if (n / 16 =? 0)%N then acc' else hexLoop f (n / 16) acc'
  end.

(** [n.toString(16)] for a non-negative integer. *)
Definition toString16 (n : N) : string :=
  hexLoop (S (N.to_nat (N.log2 n))) n EmptyString.

Fixpoint join (sep : string) (l : list string) : string :=
  match l with
  | [] => EmptyString
  | [x] => x
  | x :: rest => x +:+ sep +:+ join sep rest
  end.

End JsString.

(** ** The digest

    [sha256Hex] takes the platform's SHA-256 when [crypto.subtle] exists
    and a rolling XOR otherwise.  SHA-256 is the platform's code: the engine
    is stated over an arbitrary digest function.  The fallback is code of
    this file and is embedded as written. *)

Module Digest.
Import JsString.

(** [h = (h ^ str.charCodeAt(i)) >>> 0], over the string from the left. *)
Definition xorStep (h : N) (c : ascii) : N :=
  (N.lxor h (N_of_ascii c) mod 2 ^ 32)%N.

Fixpoint xorFold (h : N) (s : string) : N :=
  match s with
  | EmptyString => h
  | String c rest => xorFold (xorStep h c) rest
  end.

(** The [else] branch of [sha256Hex]:
    [('00000000' + h.toString(16)).slice(-8).padEnd(64, '0')]. *)
Definition fallbackHex (str : string) : string :=
  let h := xorFold 0 str in
  padEnd0 64 (slice_last 8 ("00000000" +:+ toString16 h)).

End Digest.

(** ** Numbers *)

Module JsNumber.
Local Open Scope float_scope.

(** The literal [0.1]: the binary64 value nearest to one tenth. *)
Definition tenth : float := 0x1.999999999999ap-4.
Definition half : float := 0x1p-1.
Definition two52 : float := 0x1p52.

(** [Math.round]: the integer nearest to [x], a tie going up; [NaN], the
    infinities, the zeros and everything from [2^52] on (integers already)
    come back as they are; a result of zero keeps the sign of [x].

    Below [2^52], adding and subtracting [2^52] rounds to an integer, one
    subtraction corrects it to the floor, and [x - floor x] is exact. *)
Definition Math_round (x : float) : float :=
  if abs x <? two52 then
    if x =? 0 then x
    else
      let r := if 0 <? x then (x + two52) - two52 else (x - two52) + two52 in
      let fl := if x <? r then r - 1 else r in
      let res := if x - fl <? half then fl else fl + 1 in
      if (res =? 0) && (x <? 0) then neg_zero else res
  else x.

(** A length or a count as a number. *)
Definition of_nat (n : nat) : float := of_uint63 (Uint63.of_Z (Z.of_nat n)).

(** A number is truthy unless it is a zero or [NaN]. *)
Definition truthy (x : float) : bool := negb (is_zero x || is_nan x).

End JsNumber.

(** ** JSON values *)

Module Json.
Import JsString.

(** A value that JSON can carry.  An object is the list of its properties
    in enumeration order, each key once. *)
#[local] Unset Elimination Schemes.
Inductive jsval : Type :=
  | JNull
  | JBool (b : bool)
  | JNum (x : float)
  | JStr (s : string)
  | JArr (items : list jsval)
  | JObj (props : list (string * jsval)).
#[local] Set Elimination Schemes.

(** [obj[key]] for an own property. *)
Fixpoint getProp (key : string) (props : list (string * jsval)) : option jsval :=
  match props with
  | [] => None
  | (k, v) :: rest => if String.eqb k key then Some v else getProp key rest
  end.

(** [v.amount]: a property read on any value; only an object has own
    properties of that name. *)
Definition member (key : string) (v : jsval) : option jsval :=
  match v with
  | JObj props => getProp key props
  | _ => None
  end.

(** [ToBoolean]. *)
Definition truthy (v : jsval) : bool :=
  match v with
  | JNull => false
  | JBool b => b
  | JNum x => JsNumber.truthy x
  | JStr s => negb (String.eqb s EmptyString)
  | JArr _ | JObj _ => true
  end.

(** [QuoteJSONString] on one code unit. *)
Definition escapeChar (c : ascii) : string :=
  let n := nat_of_ascii c in
  let bs := String backslash in
  if Nat.eqb n 34 then bs dquote
  else if Nat.eqb n 92 then bs (String backslash EmptyString)
  else if Nat.eqb n 8 then bs "b"
  else if Nat.eqb n 9 then bs "t"
  else if Nat.eqb n 10 then bs "n"
  else if Nat.eqb n 12 then bs "f"
  else if Nat.eqb n 13 then bs "r"
  else if Nat.ltb n 32 then
    bs ("u00" +:+ String (hexDigit (N.of_nat (n / 16)))
                  (String (hexDigit (N.of_nat (n mod 16))) EmptyString))
  else String c EmptyString.

Fixpoint escape (s : string) : string :=
  match s with
  | EmptyString => EmptyString
  | String c rest => escapeChar c +:+ escape rest
  end.

Definition quote (s : string) : string := dquote +:+ escape s +:+ dquote.

Section NumberFormat.

(** [Number::toString] on a finite number other than zero: the shortest
    decimal that reads back as the number.  It is the platform's. *)
Variable finiteToString : float -> string.

(** [Number::toString]. *)
Definition numberToString (x : float) : string :=
  if is_nan x then "NaN"
  else if is_zero x then "0"
  else if (x =? infinity)%float then "Infinity"
  else if (x =? neg_infinity)%float then "-Infinity"
  else finiteToString x.

(** [JSON.stringify(v)] without indentation. *)
Fixpoint stringify (v : jsval) : string :=
  match v with
  | JNull => "null"
  | JBool b => if b then "true" else "false"
  | JNum x => if is_finite x then numberToString x else "null"
  | JStr s => quote s
  | JArr items => "[" +:+ join "," (List.map stringify items) +:+ "]"
  | JObj props =>
      "{" +:+ join "," (List.map (fun kv => quote (fst kv) +:+ ":" +:+ stringify (snd kv)) props)
          +:+ "}"
  end.

(** [ToString] as the operator [+] applies it: an array joins its items
    (a [null] item gives the empty string), an object is
    [[object Object]]. *)
Fixpoint toStr (v : jsval) : string :=
  match v with
  | JNull => "null"
  | JBool b => if b then "true" else "false"
  | JNum x => numberToString x
  | JStr s => s
  | JArr items =>
      join "," (List.map (fun it => match it with JNull => EmptyString | _ => toStr it end) items)
  | JObj _ => "[object Object]"
  end.

End NumberFormat.

(** [JSON.parse(JSON.stringify(v))]: what a value is after it went through
    [localStorage].  A number that is not finite is written as [null]; a
    negative zero is written as [0]; every other number, every string and
    the shape of arrays and objects read back as they were. *)
Fixpoint reparse (v : jsval) : jsval :=
  match v with
  | JNum x =>
      if is_finite x then (if is_zero x then JNum zero else JNum x) else JNull
  | JArr items => JArr (List.map reparse items)
  | JObj props => JObj (List.map (fun kv => (fst kv, reparse (snd kv))) props)
  | _ => v
  end.

End Json.

(** ** Records of the log *)

(** What [log] and the heartbeat hand to [appendEvent]:
    [{ type, data, t, appId, profileId }], in this order. *)
Module Entry.
Record entry : Type := mk {
  type : string;
  data : Json.jsval;
  t : string;
  appId : string;
  profileId : string
}.
End Entry.

(** A stored record: the entry's fields, [prev], [nonce] and [hash], and
    the key [id] that the indexed store adds.  A record that came in through
    [importLog] may lack [data] and [t]; the code reads both with a
    default. *)
Module Rec.
Record rec : Type := mk {
  id : option N;
  type : string;
  data : option Json.jsval;
  t : option string;
  appId : string;
  profileId : string;
  prev : string;
  nonce : string;
  hash : string
}.

Definition with_id (k : option N) (r : rec) : rec :=
  mk k (type r) (data r) (t r) (appId r) (profileId r) (prev r) (nonce r) (hash r).

(** The record as [JSON.parse] reads it back from [localStorage]. *)
Definition reparse (r : rec) : rec :=
  mk (id r) (type r) (option_map Json.reparse (data r)) (t r) (appId r)
     (profileId r) (prev r) (nonce r) (hash r).
End Rec.

(** ** The canonical payload *)

Module Payload.
Import JsString Json.

Section NumberFormat.
Variable finiteToString : float -> string.

Definition prop (key value : string) : string := quote key +:+ ":" +:+ value.

Definition optProp (key : string) (value : option string) : list string :=
  match value with
  | Some v => [prop key v]
  | None => []
  end.

(** [JSON.stringify({type, data, t, appId, profileId})]: a property whose
    value is [undefined] is left out. *)
Definition json (type : string) (data : option jsval) (t : option string)
    (appId profileId : string) : string :=
  "{" +:+ join ","
            ([prop "type" (quote type)]
               ++ optProp "data" (option_map (stringify finiteToString) data)
               ++ optProp "t" (option_map quote t)
               ++ [prop "appId" (quote appId); prop "profileId" (quote profileId)])
      +:+ "}".

(** [JSON.stringify(entry)] in [appendEvent]. *)
Definition ofEntry (e : Entry.entry) : string :=
  json (Entry.type e) (Some (Entry.data e)) (Some (Entry.t e))
       (Entry.appId e) (Entry.profileId e).

(** [JSON.stringify({type:e.type, data:e.data, t:e.t, appId:e.appId,
    profileId:e.profileId})] in [rebuildFromZero] and [verify]. *)
Definition ofRec (e : Rec.rec) : string :=
  json (Rec.type e) (Rec.data e) (Rec.t e) (Rec.appId e) (Rec.profileId e).

End NumberFormat.
End Payload.

(** ** The record store

    [openDB] gives the engine one of two back ends for its lifetime.

    - IndexedDB: the object store [events] has key path [id] and a key
      generator.  [put] of a record without [id] takes the generator's key,
      writes it into the stored record and advances the generator; [put] of
      a record with an [id] stores it under that key, replacing what was
      there, and moves the generator past it.  [getAll] lists the records by
      ascending key.
    - [localStorage]: one JSON text of the whole array; a [push] reads the
      array, appends and writes it back.

    A write is taken to succeed. *)

Module Store.

Inductive store : Type :=
  | IDB (rows : list (N * Rec.rec)) (nextKey : N)
  | LS (arr : list Rec.rec).

(** The rows with [r] under key [k], keys ascending. *)
Fixpoint putRow (k : N) (r : Rec.rec) (rows : list (N * Rec.rec)) : list (N * Rec.rec) :=
  match rows with
  | [] => [(k, r)]
  | (k', r') :: rest =>
      if (k <? k')%N then (k, r) :: rows
      else if (k =? k')%N then (k, r) :: rest
      else (k', r') :: putRow k r rest
  end.

(** [if (db) await idbPut(db, STORE, rec); else { const arr =
    lsRead(LS_KEY_EVENTS, []); arr.push(rec); lsWrite(LS_KEY_EVENTS, arr); }] *)
Definition put (r : Rec.rec) (s : store) : store :=
  match s with
  | IDB rows nextKey =>
      match Rec.id r with
      | None => IDB (putRow nextKey (Rec.with_id (Some nextKey) r) rows) (nextKey + 1)
      | Some k => IDB (putRow k r rows) (N.max nextKey (k + 1))
      end
  | LS arr => LS (List.map Rec.reparse (arr ++ [r]))
  end.

(** [db ? await idbGetAll(db, STORE) : lsRead(LS_KEY_EVENTS, [])] *)
Definition getAll (s : store) : list Rec.rec :=
  match s with
  | IDB rows _ => List.map snd rows
  | LS arr => arr
  end.

(** Which back end the store is. *)
Definition indexed (s : store) : bool :=
  match s with
  | IDB _ _ => true
  | LS _ => false
  end.

(** The store of a profile that never logged: the generator starts at 1. *)
Definition empty (indexed : bool) : store :=
  if indexed then IDB [] 1 else LS [].

End Store.

(** ** The engine *)

Module Forge.
Import JsString Json.

(** [state]: the derived state, [{ xp, streak, lastAt, events, rootHash }]. *)
Record State : Type := mkState {
  xp : float;
  streak : nat;
  lastAt : float;
  events : nat;
  rootHash : string
}.

(** The value of the metadata slot, [{ lastHash, state }]. *)
Record Meta : Type := mkMeta {
  meta_lastHash : string;
  meta_state : State
}.

Record Options : Type := mkOptions {
  appId : string;
  profileId : string;
  ui : bool
}.

(** The closure of [Forge]: its variables [options], [lastHash] and [state],
    and the storage it writes: the event store picked by [db] and the
    metadata slot. *)
Record Engine : Type := mkEngine {
  options : Options;
  store : Store.store;
  meta : option Meta;
  lastHash : string;
  state : State
}.

(** A returned object: [{ ok }], [{ ok, errorIndex }] or [{ ok, merged }];
    a key the object does not have is [None]. *)
Record Result : Type := mkResult {
  ok : bool;
  errorIndex : option nat;
  merged : option nat
}.

(** [{ entries, rootHash, summary }] as [exportLog] builds it and [importLog]
    reads it; [importLog] accepts an object without [entries]. *)
Record Summary : Type := mkSummary {
  sum_appId : string;
  sum_profileId : string;
  sum_entries : nat;
  sum_xp : float;
  sum_streak : nat
}.

Record LogJson : Type := mkLogJson {
  entries : option (list Rec.rec);
  log_rootHash : option string;
  summary : option Summary
}.

Definition GENESIS : string := "GENESIS".

Definition defaultOptions : Options := mkOptions "app" "anon" true.

Definition initialState : State := mkState zero 0 zero 0 GENESIS.

(** The engine as the module creates it, over a store that holds nothing;
    [indexed] tells which back end [openDB] gave. *)
Definition fresh (opts : Options) (indexed : bool) : Engine :=
  mkEngine opts (Store.empty indexed) None GENESIS initialState.

(** The local [xp] of [rebuildFromZero]: a number, or a string once [+=]
    met an amount that is not a number. *)
Inductive XpAcc : Type :=
  | XNum (x : float)
  | XStr (s : string).

Section Platform.

(** [sha256Hex], either branch. *)
Variable sha256Hex : string -> string.
(** [Number::toString] on finite numbers other than zero. *)
Variable finiteToString : float -> string.
(** [StringToNumber], applied by [Math.round] to a string. *)
Variable stringToNumber : string -> float.

(** [xp += v]: numbers add ([true] counts 1, [false] and [null] 0); with a
    string, an array or an object on either side the two are concatenated
    as strings. *)
Definition plus (acc : XpAcc) (v : jsval) : XpAcc :=
  match acc, v with
  | XNum a, JNum b => XNum (a + b)
  | XNum a, JBool b => XNum (a + (if b then one else zero))
  | XNum a, JNull => XNum (a + zero)
  | XNum a, _ => XStr (numberToString finiteToString a +:+ toStr finiteToString v)
  | XStr s, _ => XStr (s +:+ toStr finiteToString v)
  end.

(** [Math.round(xp)] *)
Definition roundAcc (acc : XpAcc) : float :=
  match acc with
  | XNum a => JsNumber.Math_round a
  | XStr s => JsNumber.Math_round (stringToNumber s)
  end.

(** [(e.data && e.data.amount) || 1] *)
Definition amountOr1 (e : Rec.rec) : jsval :=
  match Rec.data e with
  | None => JNum one
  | Some d =>
      if truthy d then
        match member "amount" d with
        | Some a => if truthy a then a else JNum one
        | None => JNum one
        end
      else JNum one
  end.

(** The two accrual lines of the loop:
    [if (e.type === 'xp') xp += (e.data && e.data.amount) || 1;
     if (e.type === 'heartbeat') xp += 0.1;] *)
Definition accrue (acc : XpAcc) (e : Rec.rec) : XpAcc :=
  let acc1 := if String.eqb (Rec.type e) "xp" then plus acc (amountOr1 e) else acc in
  if String.eqb (Rec.type e) "heartbeat" then plus acc1 (JNum JsNumber.tenth) else acc1.

(** [(e.t || '').slice(0,10)] *)
Definition dayOf (e : Rec.rec) : string :=
  slice_first 10 (match Rec.t e with Some s => s | None => EmptyString end).

(** [sha256Hex(e.prev + '|' + payload + '|' + e.nonce)] *)
Definition recomputed (e : Rec.rec) : string :=
  sha256Hex (Rec.prev e +:+ "|" +:+ Payload.ofRec finiteToString e +:+ "|" +:+ Rec.nonce e).

(** The negation of [e.prev !== prev || recomputed !== e.hash]. *)
Definition linkOk (prev : string) (e : Rec.rec) : bool :=
  String.eqb (Rec.prev e) prev && String.eqb (recomputed e) (Rec.hash e).

(** The variables of the loop in [rebuildFromZero]. *)
Record Loop : Type := mkLoop {
  l_ok : bool;
  l_prev : string;
  l_xp : XpAcc;
  l_streak : nat;
  l_lastDay : option string
}.

Definition loopStart : Loop := mkLoop true GENESIS (XNum zero) 0 None.

(** One turn of the loop on a record that passed the check:
    [if (day && day !== lastDay) { streak += 1; lastDay = day; }] *)
Definition loopStep (v : Loop) (e : Rec.rec) : Loop :=
  let day := dayOf e in
  let newDay :=
    negb (String.eqb day EmptyString)
    && negb (match l_lastDay v with Some d => String.eqb day d | None => false end) in
  mkLoop (l_ok v) (Rec.hash e) (accrue (l_xp v) e)
         (if newDay then S (l_streak v) else l_streak v)
         (if newDay then Some day else l_lastDay v).

(** [for (let i=0;i<entries.length;i++) { ... if (...) { ok = false; break; } ... }] *)
Fixpoint replayLoop (es : list Rec.rec) (v : Loop) : Loop :=
  match es with
  | [] => v
  | e :: rest =>
      if linkOk (l_prev v) e then replayLoop rest (loopStep v e)
      else mkLoop false (l_prev v) (l_xp v) (l_streak v) (l_lastDay v)
  end.

(** [saveMeta]: the slot takes [{ lastHash, state }]. *)
Definition saveMeta (g : Engine) : Engine :=
  mkEngine (options g) (store g) (Some (mkMeta (lastHash g) (state g)))
           (lastHash g) (state g).

(** [rebuildFromZero] *)
Definition rebuildFromZero (g : Engine) : Result * Engine :=
  let es := Store.getAll (store g) in
  let v := replayLoop es loopStart in
  let st := mkState (roundAcc (l_xp v)) (l_streak v) (lastAt (state g))
                    (List.length es) (l_prev v) in
  (mkResult (l_ok v) None None,
   saveMeta (mkEngine (options g) (store g) (meta g) (l_prev v) st)).

(** [appendEvent(entry)], with the nonce that [Math.random] gave. *)
Definition appendEvent (nonce : string) (entry : Entry.entry) (g : Engine)
    : Rec.rec * Engine :=
  let payload := Payload.ofEntry finiteToString entry in
  let hash := sha256Hex (lastHash g +:+ "|" +:+ payload +:+ "|" +:+ nonce) in
  let rec :=
    Rec.mk None (Entry.type entry) (Some (Entry.data entry)) (Some (Entry.t entry))
           (Entry.appId entry) (Entry.profileId entry) (lastHash g) nonce hash in
  let st := state g in
  let st' := mkState (xp st) (streak st) (lastAt st) (S (events st)) hash in
  (rec, saveMeta (mkEngine (options g) (Store.put rec (store g)) (meta g) hash st')).

(** [log(type, data={})], with the time that [now()] gave; a [data] left
    out is the empty object. *)
Definition log (now nonce : string) (type : string) (data : option jsval)
    (g : Engine) : Rec.rec * Engine :=
  let d := match data with Some d => d | None => JObj [] end in
  let entry := Entry.mk type d now (appId (options g)) (profileId (options g)) in
  let '(rec, g1) := appendEvent nonce entry g in
  let st := state g1 in
  let st' :=
    if String.eqb type "click" || String.eqb type "quest:complete"
    then mkState (xp st + one) (streak st) (lastAt st) (events st) (rootHash st)
    else st in
  (rec, mkEngine (options g1) (store g1) (meta g1) (lastHash g1) st').

(** One firing of the timer of [startHeartbeat]; [visible] tells whether
    [document.visibilityState] is ['visible'], [path] is
    [location.pathname]. *)
Definition heartbeatTick (visible : bool) (path now nonce : string) (g : Engine)
    : Engine :=
  if visible then
    let entry := Entry.mk "heartbeat" (JObj [("path", JStr path)]) now
                          (appId (options g)) (profileId (options g)) in
    let g1 := snd (appendEvent nonce entry g) in
    let st := state g1 in
    mkEngine (options g1) (store g1) (meta g1) (lastHash g1)
             (mkState (xp st + JsNumber.tenth) (streak st) (lastAt st) (events st)
                      (rootHash st))
  else g.

(** The object [{ ...state }]. *)
Definition stateObject (st : State) : list (string * jsval) :=
  [ ("xp", JNum (xp st));
    ("streak", JNum (JsNumber.of_nat (streak st)));
    ("lastAt", JNum (lastAt st));
    ("events", JNum (JsNumber.of_nat (events st)));
    ("rootHash", JStr (rootHash st)) ].

(** [getState()]: [JSON.parse(JSON.stringify({ ...state }))] *)
Definition getState (g : Engine) : jsval :=
  reparse (JObj (stateObject (state g))).

(** [exportLog()] *)
Definition exportLog (g : Engine) : LogJson :=
  let es := Store.getAll (store g) in
  mkLogJson (Some es) (Some (rootHash (state g)))
            (Some (mkSummary (appId (options g)) (profileId (options g))
                             (List.length es) (xp (state g)) (streak (state g)))).

(** The loop of [importLog]: a record whose [prev] is the running [prev] is
    put in the store, any other is passed over. *)
Fixpoint mergeLoop (es : list Rec.rec) (prev : string) (s : Store.store) (n : nat)
    : Store.store * nat :=
  match es with
  | [] => (s, n)
  | e :: rest =>
      if String.eqb (Rec.prev e) prev
      then mergeLoop rest (Rec.hash e) (Store.put e s) (S n)
      else mergeLoop rest prev s n
  end.

(** [importLog(json)] *)
Definition importLog (json : option LogJson) (g : Engine) : Result * Engine :=
  match json with
  | None => (mkResult false None (Some 0), g)
  | Some j =>
      match entries j with
      | None => (mkResult false None (Some 0), g)
      | Some es =>
          let '(s, n) := mergeLoop es (rootHash (state g)) (store g) 0 in
          let g1 := mkEngine (options g) s (meta g) (lastHash g) (state g) in
          (mkResult true None (Some n), snd (rebuildFromZero g1))
      end
  end.

(** The loop of [verify], from index [i]. *)
Fixpoint verifyLoop (i : nat) (prev : string) (es : list Rec.rec) : Result :=
  match es with
  | [] => mkResult true None None
  | e :: rest =>
      if linkOk prev e then verifyLoop (S i) (Rec.hash e) rest
      else mkResult false (Some i) None
  end.

(** [verify()] *)
Definition verify (g : Engine) : Result :=
  verifyLoop 0 GENESIS (Store.getAll (store g)).

(** The three ways a record is made: [log], a firing of the heartbeat
    timer, and [appendEvent] itself, which the other two call. *)
Inductive Call : Type :=
  | CallLog (now nonce type : string) (data : option jsval)
  | CallTick (visible : bool) (path now nonce : string)
  | CallAppend (nonce : string) (entry : Entry.entry).

Definition perform (c : Call) (g : Engine) : Engine :=
  match c with
  | CallLog now nonce type data => snd (log now nonce type data g)
  | CallTick visible path now nonce => heartbeatTick visible path now nonce g
  | CallAppend nonce entry => snd (appendEvent nonce entry g)
  end.

(** Whether the call reaches [appendEvent]: a timer that fires while the
    page is hidden does not. *)
Definition appends (c : Call) : bool :=
  match c with
  | CallTick visible _ _ _ => visible
  | _ => true
  end.

(** A sequence of calls, each awaited before the next. *)
Fixpoint session (calls : list Call) (g : Engine) : Engine :=
  match calls with
  | [] => g
  | c :: rest => session rest (perform c g)
  end.

End Platform.
End Forge.

(** ** The platform's number conversions

    [Number::toString] and [StringToNumber] of ECMAScript, for running the
    engine on given inputs.  The engine itself is stated over any pair of
    such functions. *)

Module Platform.
Local Open Scope Z_scope.

Definition digitChar (d : Z) : ascii := ascii_of_nat (48 + Z.to_nat d).

Fixpoint digitsLoop (fuel : nat) (n : Z) (acc : string) : string :=
  match fuel with
  | O => acc
  | S f =>
      let acc' := String (digitChar (n mod 10)) acc in
      if n / 10 =? 0 then acc' else digitsLoop f (n / 10) acc'
  end.

(** The decimal digits of a natural number. *)
Definition digits (n : Z) : string := digitsLoop (S (Z.to_nat (Z.log2 n))) n EmptyString.

(** [a * 10^p * 2^q] against [b], for integers [a], [b] and exponents of
    either sign, without leaving the integers. *)
Definition scaledCompare (a p q b : Z) : comparison :=
  let l := a * 10 ^ Z.max p 0 * 2 ^ Z.max q 0 in
  let r := b * 10 ^ Z.max (- p) 0 * 2 ^ Z.max (- q) 0 in
  l ?= r.

(** [floor (v * 2^e / 10^p)] *)
Definition scaledFloor (v e p : Z) : Z :=
  (v * 2 ^ Z.max e 0 * 10 ^ Z.max (- p) 0) / (2 ^ Z.max (- e) 0 * 10 ^ Z.max p 0).

(** The least [n] from [lo] on with [m * 2^e < 10^n]. *)
Fixpoint magnitude (fuel : nat) (m e n : Z) : Z :=
  match fuel with
  | O => n
  | S f =>
      match scaledCompare 1 n (- e) m with
      | Gt => n
      | _ => magnitude f m e (n + 1)
      end
  end.

Fixpoint stripZeros (fuel : nat) (s : Z) : Z :=
  match fuel with
  | O => s
  | S f => if (s mod 10 =? 0) && negb (s =? 0) then stripZeros f (s / 10) else s
  end.

(** Whether the decimal [s * 10^p] reads back as the double [m * 2^e]:
    it lies between the midpoints to the neighbours, the midpoints
    themselves counting when [m] is even. *)
Definition readsBack (m e s p : Z) : bool :=
  let lowGap := if (m =? 2 ^ 52) && negb (e =? -1074) then 1 else 2 in
  let lo := scaledCompare s p (- (e - 2)) (4 * m - lowGap) in
  let hi := scaledCompare s p (- (e - 2)) (4 * m + 2) in
  let closed := Z.even m in
  match lo, hi with
  | Gt, Lt => true
  | Eq, _ => closed
  | _, Eq => closed
  | _, _ => false
  end.

(** [|s * 10^p - m * 2^e|], scaled by a positive factor common to both
    candidates of one [p]. *)
Definition distance (m e s p : Z) : Z :=
  Z.abs (s * 10 ^ Z.max p 0 * 2 ^ Z.max (- e) 0 - m * 2 ^ Z.max e 0 * 10 ^ Z.max (- p) 0).

(** The shortest digits: the first [k] for which a [k]-digit decimal reads
    back, and of the two candidates the nearer one. *)
Fixpoint shortest (fuel : nat) (m e n k : Z) : Z * Z :=
  let p := n - k in
  let s0 := scaledFloor m e p in
  let ok0 := readsBack m e s0 p in
  let ok1 := readsBack m e (s0 + 1) p in
  let pick :=
    if ok0 && ok1 then
      (if distance m e s0 p <=? distance m e (s0 + 1) p then s0 else s0 + 1)
    else if ok0 then s0 else s0 + 1 in
  match fuel with
  | O => (pick, p)
  | S f => if ok0 || ok1 then (pick, p) else shortest f m e n (k + 1)
  end.

Definition takeStr (n : Z) (s : string) : string := substring 0 (Z.to_nat n) s.
Definition dropStr (n : Z) (s : string) : string :=
  substring (Z.to_nat n) (String.length s - Z.to_nat n) s.

Fixpoint zeroStr (n : nat) : string :=
  match n with O => EmptyString | S k => String "0" (zeroStr k) end.

(** [Number::toString] (radix 10) on the positive double [m * 2^e]. *)
Definition positiveToString (m e : Z) : string :=
  let n0 := magnitude 700 m e (-330) in
  let '(s1, p1) := shortest 17 m e n0 1 in
  let s := stripZeros 20 s1 in
  let ds := digits s in
  let k := Z.of_nat (String.length ds) in
  let n := p1 + Z.of_nat (String.length (digits s1)) in
  if (k <=? n) && (n <=? 21) then ds +:+ zeroStr (Z.to_nat (n - k))
  else if (0 <? n) && (n <=? 21) then takeStr n ds +:+ "." +:+ dropStr n ds
  else if (-6 <? n) && (n <=? 0) then "0." +:+ zeroStr (Z.to_nat (- n)) +:+ ds
  else
    let ex := (if n - 1 <? 0 then "-" else "+") +:+ digits (Z.abs (n - 1)) in
    if k =? 1 then ds +:+ "e" +:+ ex
    else takeStr 1 ds +:+ "." +:+ dropStr 1 ds +:+ "e" +:+ ex.

(** [Number::toString] on a finite number other than zero. *)
Definition finiteToString (x : float) : string :=
  match Prim2SF x with
  | S754_finite sign m e =>
      (if sign then "-" else EmptyString) +:+ positiveToString (Zpos m) e
  | _ => EmptyString
  end.

Definition isWhiteSpace (c : ascii) : bool :=
  let n := nat_of_ascii c in
  existsb (Nat.eqb n) [9; 10; 11; 12; 13; 32; 160]%nat.

Fixpoint dropWhite (s : string) : string :=
  match s with
  | String c rest => if isWhiteSpace c then dropWhite rest else s
  | EmptyString => s
  end.

(** The string without the white space at its end. *)
Fixpoint dropWhiteEnd (s : string) : string :=
  match s with
  | EmptyString => EmptyString
  | String c rest =>
      match dropWhiteEnd rest with
      | EmptyString => if isWhiteSpace c then EmptyString else String c EmptyString
      | rest' => String c rest'
      end
  end.

Definition digitValue (radix : Z) (c : ascii) : option Z :=
  let n := Z.of_nat (nat_of_ascii c) in
  let v :=
    if (48 <=? n) && (n <=? 57) then n - 48
    else if (97 <=? n) && (n <=? 102) then n - 87
    else if (65 <=? n) && (n <=? 70) then n - 55
    else 99 in
  if v <? radix then Some v else None.

(** The digits at the head of [s] in base [radix]: their value, how many
    they are, and the rest of the string. *)
Fixpoint readDigits (radix : Z) (s : string) (acc : Z) (count : Z) : Z * Z * string :=
  match s with
  | String c rest =>
      match digitValue radix c with
      | Some d => readDigits radix rest (acc * radix + d) (count + 1)
      | None => (acc, count, s)
      end
  | EmptyString => (acc, count, s)
  end.

(** The double nearest to [a / b] for positive [a] and [b], a tie going to
    the even mantissa. *)
Definition nearestDouble (negative : bool) (a b : Z) : float :=
  let e0 := Z.log2 a - Z.log2 b - 53 in
  let quot e := (a * 2 ^ Z.max (- e) 0) / (b * 2 ^ Z.max e 0) in
  let e1 := if 2 ^ 53 <=? quot e0 then e0 + 1 else e0 in
  let e := Z.max e1 (-1074) in
  let num := a * 2 ^ Z.max (- e) 0 in
  let den := b * 2 ^ Z.max e 0 in
  let q := num / den in
  let r := num mod den in
  let m :=
    match 2 * r ?= den with
    | Gt => q + 1
    | Eq => if Z.even q then q else q + 1
    | Lt => q
    end in
  SF2Prim (binary_normalize prec emax (if negative then - m else m) e negative).

(** [negative], digits [n] and decimal exponent [p] as a number; an
    exponent far outside the doubles is cut short before any power is
    taken. *)
Definition decimalToNumber (negative : bool) (n p : Z) : float :=
  if n =? 0 then (if negative then neg_zero else zero)
  else if 400 <? p then (if negative then neg_infinity else infinity)
  else if p + Z.log2 n <? -1200 then (if negative then neg_zero else zero)
  else nearestDouble negative (n * 10 ^ Z.max p 0) (10 ^ Z.max (- p) 0).

(** [ExponentPart] when there is one: the exponent and what follows. *)
Definition readExponent (s : string) : option (Z * string) :=
  match s with
  | String c rest =>
      if (Ascii.eqb c "e" || Ascii.eqb c "E")%char then
        let '(neg, rest1) :=
          match rest with
          | String "-" r => (true, r)
          | String "+" r => (false, r)
          | _ => (false, rest)
          end in
        let '(v, count, rest2) := readDigits 10 rest1 0 0 in
        if count =? 0 then None else Some (if neg then - v else v, rest2)
      else Some (0, s)
  | EmptyString => Some (0, s)
  end.

(** [StrUnsignedDecimalLiteral] other than [Infinity]. *)
Definition readDecimal (negative : bool) (s : string) : float :=
  let '(i, ni, rest) := readDigits 10 s 0 0 in
  let '(all, nf, rest1, dotOk) :=
    match rest with
    | String "." r =>
        let '(v, nf, r1) := readDigits 10 r i 0 in
        (v, nf, r1, negb ((ni =? 0) && (nf =? 0)))
    | _ => (i, 0, rest, negb (ni =? 0))
    end in
  if dotOk then
    match readExponent rest1 with
    | Some (ex, EmptyString) => decimalToNumber negative all (ex - nf)
    | _ => nan
    end
  else nan.

Definition readRadix (radix : Z) (s : string) : float :=
  let '(v, count, rest) := readDigits radix s 0 0 in
  match rest with
  | EmptyString =>
      if count =? 0 then nan
      else if v =? 0 then zero else nearestDouble false v 1
  | _ => nan
  end.

(** [StringToNumber] *)
Definition stringToNumber (str : string) : float :=
  let s := dropWhiteEnd (dropWhite str) in
  match s with
  | EmptyString => zero
  | String "0" (String c rest) =>
      if (Ascii.eqb c "x" || Ascii.eqb c "X")%char then readRadix 16 rest
      else if (Ascii.eqb c "o" || Ascii.eqb c "O")%char then readRadix 8 rest
      else if (Ascii.eqb c "b" || Ascii.eqb c "B")%char then readRadix 2 rest
      else readDecimal false s
  | String c rest =>
      let '(negative, body) :=
        if Ascii.eqb c "-" then (true, rest)
        else if Ascii.eqb c "+" then (false, rest)
        else (false, s) in
      if String.eqb body "Infinity" then (if negative then neg_infinity else infinity)
      else readDecimal negative body
  end.

End Platform.

(** ** The chain as the specification speaks of it *)

Module Chain.
Import JsString Json Forge.

(** The records agree on every field but the key [id]. *)
Definition sameFields (r r' : Rec.rec) : Prop :=
  Rec.with_id None r = Rec.with_id None r'.

(** [chainHead]: the hash of the last record, [prev] for no record. *)
Fixpoint chainHead (prev : string) (es : list Rec.rec) : string :=
  match es with
  | [] => prev
  | e :: rest => chainHead (Rec.hash e) rest
  end.

(** The hash of the predecessor of the record at index [i], for a walk
    that starts from [start]. *)
Definition predFrom (start : string) (es : list Rec.rec) (i : nat) : string :=
  match i with
  | O => start
  | S j => match es !! j with Some e => Rec.hash e | None => GENESIS end
  end.

(** The hash of the predecessor of the record at index [i]: the sentinel
    for the first record. *)
Definition predHash (es : list Rec.rec) (i : nat) : string :=
  predFrom GENESIS es i.

(** The four values of the derived state:
    [experiencePoints], [streakCount], [chainHead], [eventCount]. *)
Definition derived (st : State) : float * nat * string * nat :=
  (xp st, streak st, rootHash st, events st).

(** The calendar dates among the timestamps: the first ten code units of
    each timestamp that is not empty. *)
Definition days (es : list Rec.rec) : list string :=
  List.filter (fun d => negb (String.eqb d EmptyString)) (List.map dayOf es).

(** How many distinct dates there are. *)
Definition distinctDays (es : list Rec.rec) : nat :=
  List.length (remove_dups (days es)).

(** Equal dates stand next to each other: between two records of one date
    every record has that date.  Timestamps that never decrease are so. *)
Definition contiguous (ds : list string) : Prop :=
  forall l1 l2 l3 d d',
    ds = (l1 ++ d :: l2 ++ d :: l3)%list -> In d' l2 -> d' = d.

(** What is left of [ds] after the dates equal to [d] at its head. *)
Fixpoint afterRun (d : string) (ds : list string) : list string :=
  match ds with
  | [] => []
  | x :: rest => if String.eqb x d then afterRun d rest else ds
  end.

(** [contiguous], decided: no date comes back after its run. *)
Fixpoint contiguousb (ds : list string) : bool :=
  match ds with
  | [] => true
  | d :: rest => negb (existsb (String.eqb d) (afterRun d rest)) && contiguousb rest
  end.

(** A record of type [click] or [quest:complete], the two types that [log]
    answers with an increment of its own. *)
Definition clickish (e : Rec.rec) : Prop :=
  Rec.type e = "click" \/ Rec.type e = "quest:complete".

(** How often the date changes along [ds], counting from the last counted
    date [last]: a date counts when it differs from the one counted
    before it. *)
Fixpoint dayChanges (last : option string) (ds : list string) : nat :=
  match ds with
  | [] => 0
  | d :: rest =>
      if match last with Some d0 => String.eqb d d0 | None => false end
      then dayChanges last rest
      else S (dayChanges (Some d) rest)
  end.

(** The records [es] put one after the other, as the loop of [importLog]
    does with those it accepts. *)
Definition putAll (es : list Rec.rec) (s : Store.store) : Store.store :=
  fold_left (fun s e => Store.put e s) es s.

(** What the accrual line adds for the record is a number or a boolean, so
    that [+=] adds numbers: the record is not of type [xp], or its
    [(e.data && e.data.amount) || 1] is no string, array or object. *)
Definition numericAmount (e : Rec.rec) : bool :=
  negb (String.eqb (Rec.type e) "xp")
  || match amountOr1 e with
     | JNum _ | JBool _ | JNull => true
     | JStr _ | JArr _ | JObj _ => false
     end.

Section Platform.
Variable sha256Hex : string -> string.
Variable finiteToString : float -> string.
Variable stringToNumber : string -> float.

(** Every record passes the check of the replay, walking from [prev]. *)
Fixpoint linked (prev : string) (es : list Rec.rec) : bool :=
  match es with
  | [] => true
  | e :: rest =>
      linkOk sha256Hex finiteToString prev e && linked (Rec.hash e) rest
  end.

(** The record at index [i] is broken: its [prev] differs from the hash of
    its predecessor, or its recomputed digest differs from its [hash]. *)
Definition brokenAt (es : list Rec.rec) (i : nat) : Prop :=
  exists e, es !! i = Some e
            /\ linkOk sha256Hex finiteToString (predHash es i) e = false.

(** [i] is the first broken index. *)
Definition firstBroken (es : list Rec.rec) (i : nat) : Prop :=
  brokenAt es i /\ forall j, j < i -> ~ brokenAt es j.

(** The records that a replay from [prev] accepts: those before the
    first one that fails the check. *)
Fixpoint accepted (prev : string) (es : list Rec.rec) : list Rec.rec :=
  match es with
  | [] => []
  | e :: rest =>
      if linkOk sha256Hex finiteToString prev e
      then e :: accepted (Rec.hash e) rest
      else []
  end.

(** The experience that the accrual lines add up over [es], before
    rounding. *)
Definition accrued (es : list Rec.rec) : XpAcc :=
  fold_left (accrue finiteToString) es (XNum zero).

(** The engine after a replay that accepted the records [valid] of its
    store: the state and the metadata slot are written from them, and
    [events] counts every stored record. *)
Definition replayed (g : Engine) (valid : list Rec.rec) : Engine :=
  let head := chainHead GENESIS valid in
  let st := mkState (roundAcc stringToNumber (accrued valid))
                    (dayChanges None (days valid))
                    (lastAt (state g)) (List.length (Store.getAll (store g))) head in
  mkEngine (options g) (store g) (Some (mkMeta head st)) head st.

End Platform.

End Chain.

(** ** Conditions on a store *)

Module StoreInv.
Import Store.

(** The rows of an indexed store as [put] leaves them: keys ascending from
    [lo] on, each below the generator [bound], each written in its
    record. *)
Fixpoint rowsOk (lo bound : N) (rows : list (N * Rec.rec)) : Prop :=
  match rows with
  | [] => True
  | (k, r) :: rest =>
      (lo <= k)%N /\ (k < bound)%N /\ Rec.id r = Some k /\ rowsOk (k + 1) bound rest
  end.

(** A store as [put] leaves it; in [localStorage] every record is its own
    JSON reading. *)
Definition wf (s : store) : Prop :=
  match s with
  | IDB rows nextKey => rowsOk 0 nextKey rows
  | LS arr => Forall (fun e => Rec.reparse e = e) arr
  end.

(** The keys that [put] gives the records [es] one after the other keep
    ascending: a record that brings its [id] brings one from [lo] on, where
    [lo] is past every key given so far and [gen] is the generator. *)
Fixpoint keysAscend (lo gen : N) (es : list Rec.rec) : bool :=
  match es with
  | [] => true
  | e :: rest =>
      match Rec.id e with
      | None => keysAscend (gen + 1) (gen + 1) rest
      | Some k => (lo <=? k)%N && keysAscend (k + 1) (N.max gen (k + 1)) rest
      end
  end.

(** An empty store of the given kind hands the records [es] back as they
    were put, in their order: the indexed store when their keys ascend,
    [localStorage] when each record is its own JSON reading. *)
Definition keeps (indexed : bool) (es : list Rec.rec) : Prop :=
  if indexed then keysAscend 0 1 es = true
  else Forall (fun e => Rec.reparse e = e) es.

(** The store takes the records [es] at its end, in their order: the
    indexed store when their keys ascend from its generator on,
    [localStorage] when each record is its own JSON reading. *)
Definition takes (s : store) (es : list Rec.rec) : Prop :=
  match s with
  | IDB _ nextKey => keysAscend nextKey nextKey es = true
  | LS _ => Forall (fun e => Rec.reparse e = e) es
  end.

(** The record brings a key that the indexed store holds already: [put]
    then writes over the row under that key. *)
Definition taken (r : Rec.rec) (s : store) : bool :=
  match s, Rec.id r with
  | IDB rows _, Some k => existsb (N.eqb k) (List.map fst rows)
  | _, _ => false
  end.

(** What holds of an engine between two calls: the store is as [put]
    leaves it, its chain is linked from the sentinel, and [lastHash] is the
    head of the chain. *)
Definition inSync (sha256Hex : string -> string) (finiteToString : float -> string)
    (g : Forge.Engine) : Prop :=
  wf (Forge.store g)
  /\ Chain.linked sha256Hex finiteToString Forge.GENESIS (getAll (Forge.store g)) = true
  /\ Forge.lastHash g = Chain.chainHead Forge.GENESIS (getAll (Forge.store g)).

(** The counters of the state agree with the store and with [lastHash]:
    [events] is the number of stored events, [rootHash] is [lastHash]. *)
Definition counted (g : Forge.Engine) : Prop :=
  Forge.events (Forge.state g) = List.length (getAll (Forge.store g))
  /\ Forge.rootHash (Forge.state g) = Forge.lastHash g.

End StoreInv.

(** ** [init] and [loadMeta] *)

Module Init.
Import Forge.

(** The argument of [init]: each of [appId], [profileId] and [ui] is there
    or not. *)
Record InitOpts : Type := mkInitOpts {
  opt_appId : option string;
  opt_profileId : option string;
  opt_ui : option bool
}.

(** [{ ...options, ...opts }] *)
Definition mergeOptions (o : Options) (opts : InitOpts) : Options :=
  mkOptions (match opt_appId opts with Some a => a | None => appId o end)
            (match opt_profileId opts with Some p => p | None => profileId o end)
            (match opt_ui opts with Some u => u | None => ui o end).

(** A number as JSON reads it back: [None] is [null], which
    [JSON.stringify] writes for a number that is not finite; a negative
    zero is written as [0]. *)
Definition readNumber (x : float) : option float :=
  if is_finite x then Some (if is_zero x then zero else x) else None.

(** The object [state] once [Object.assign] has copied the state of a
    slot into it: [xp] and [lastAt] hold a number, or [null] ([None])
    where the text of the slot said [null]. *)
Record Read : Type := mkRead {
  r_xp : option float;
  r_streak : nat;
  r_lastAt : option float;
  r_events : nat;
  r_rootHash : string
}.

(** A state whose numbers are numbers. *)
Definition ofState (st : State) : Read :=
  mkRead (Some (xp st)) (streak st) (Some (lastAt st)) (events st) (rootHash st).

(** The state of a slot as [lsRead] reads it back from the text that
    [lsWrite] wrote. *)
Definition readState (st : State) : Read :=
  mkRead (readNumber (xp st)) (streak st) (readNumber (lastAt st)) (events st)
         (rootHash st).

(** What [idbGet(db, META, 'state')] or [lsRead(LS_KEY_META, {})] finds in
    the slot, its [lastHash] and its [state]: the indexed store hands back
    the value it was given, [localStorage] its JSON reading.  [None] is a
    slot that was never written. *)
Definition readSlot (s : Store.store) (slot : option Meta) : option (string * Read) :=
  match slot with
  | None => None
  | Some m =>
      Some (meta_lastHash m,
            if Store.indexed s then ofState (meta_state m)
            else readState (meta_state m))
  end.

(** The closure once [loadMeta] has run: its [state] may hold [null]. *)
Record Loaded : Type := mkLoaded {
  ld_options : Options;
  ld_store : Store.store;
  ld_meta : option Meta;
  ld_lastHash : string;
  ld_state : Read
}.

(** An engine as such a closure. *)
Definition ofEngine (g : Engine) : Loaded :=
  mkLoaded (options g) (store g) (meta g) (lastHash g) (ofState (state g)).

(** [loadMeta]: [Object.assign(state, meta.state || {}); lastHash =
    meta.lastHash || 'GENESIS';] *)
Definition loadMeta (g : Engine) : Loaded :=
  match readSlot (store g) (meta g) with
  | None => mkLoaded (options g) (store g) (meta g) GENESIS (ofState (state g))
  | Some (lh, st) =>
      mkLoaded (options g) (store g) (meta g)
               (if String.eqb lh EmptyString then GENESIS else lh) st
  end.

(** [lastAt] comes out of the slot as a number: the slot was never
    written, or it is the slot of the indexed store, or its [lastAt] is
    finite.  No line of the engine assigns [lastAt], so a slot that the
    engine wrote holds the [lastAt] it once read or the initial 0. *)
Definition numbered (s : Store.store) (slot : option Meta) : bool :=
  match slot with
  | None => true
  | Some m => Store.indexed s || is_finite (lastAt (meta_state m))
  end.

(** The closure as the module creates it, before [init]: [db] is [null],
    so the events and the slot are those of [localStorage]. *)
Definition closure (arr : list Rec.rec) (slot : option Meta) : Engine :=
  mkEngine defaultOptions (Store.LS arr) slot GENESIS initialState.

Section Platform.
Variable sha256Hex : string -> string.
Variable finiteToString : float -> string.
Variable stringToNumber : string -> float.

(** [rebuildFromZero] on the closure that [loadMeta] left.  It writes
    [lastHash], [rootHash], [xp], [streak] and [events] and reads none of
    them, so an [xp] that was [null] is a number afterwards; [lastAt]
    stays what [loadMeta] made it.  The closure is then an engine again,
    unless its [lastAt] is [null]: that is [None] here, as the [state] of
    an engine holds numbers. *)
Definition rebuildFromZero (c : Loaded) : option (Result * Engine) :=
  match r_lastAt (ld_state c) with
  | None => None
  | Some l =>
      let es := Store.getAll (ld_store c) in
      let v := replayLoop sha256Hex finiteToString es loopStart in
      let st := mkState (roundAcc stringToNumber (l_xp v)) (l_streak v) l
                        (List.length es) (l_prev v) in
      Some (mkResult (l_ok v) None None,
            saveMeta (mkEngine (ld_options c) (ld_store c) (ld_meta c) (l_prev v) st))
  end.

(** [init(opts)]: the options are merged, [openDB] gives the storage (its
    events [s] and its slot), then [loadMeta] and [rebuildFromZero] run.
    What follows them (the interface, the timer, the listeners) writes
    nothing before its first event. *)
Definition init (opts : InitOpts) (s : Store.store) (slot : option Meta)
    (g : Engine) : option Engine :=
  let g0 := mkEngine (mergeOptions (options g) opts) s slot (lastHash g) (state g) in
  option_map snd (rebuildFromZero (loadMeta g0)).

End Platform.
End Init.

(** ** Records with one field changed *)

Module Alter.

Definition with_prev (p : string) (r : Rec.rec) : Rec.rec :=
  Rec.mk (Rec.id r) (Rec.type r) (Rec.data r) (Rec.t r) (Rec.appId r)
         (Rec.profileId r) p (Rec.nonce r) (Rec.hash r).

Definition with_nonce (n : string) (r : Rec.rec) : Rec.rec :=
  Rec.mk (Rec.id r) (Rec.type r) (Rec.data r) (Rec.t r) (Rec.appId r)
         (Rec.profileId r) (Rec.prev r) n (Rec.hash r).

Definition with_hash (h : string) (r : Rec.rec) : Rec.rec :=
  Rec.mk (Rec.id r) (Rec.type r) (Rec.data r) (Rec.t r) (Rec.appId r)
         (Rec.profileId r) (Rec.prev r) (Rec.nonce r) h.

Definition with_data (d : option Json.jsval) (r : Rec.rec) : Rec.rec :=
  Rec.mk (Rec.id r) (Rec.type r) d (Rec.t r) (Rec.appId r)
         (Rec.profileId r) (Rec.prev r) (Rec.nonce r) (Rec.hash r).

(** The engine over a [localStorage] that holds the events [es]. *)
Definition with_events (es : list Rec.rec) (g : Forge.Engine) : Forge.Engine :=
  Forge.mkEngine (Forge.options g) (Store.LS es) (Forge.meta g)
                 (Forge.lastHash g) (Forge.state g).

End Alter.

(** ** The state object on the heap

    [state] is one object of the closure, written in place by every
    operation.  [getState] is looked at once more with the objects at
    their addresses, for what a caller can reach through the object it is
    given. *)

Module Heap.
Import Json.

Definition loc : Type := positive.

(** An object: its properties in enumeration order. *)
Definition object : Type := list (string * jsval).

(** The object [state] of an engine. *)
Definition ofState (st : Forge.State) : object := Forge.stateObject st.

(** The value of the object at [l]. *)
Definition valueAt (l : loc) (h : gmap loc object) : option jsval :=
  let found : option object := h !! l in
  match found with
  | Some o => Some (JObj o)
  | None => None
  end.

(** [{ ...o }] then [JSON.stringify] then [JSON.parse], on the properties. *)
Definition reparseProps (o : object) : object :=
  List.map (fun kv => (fst kv, reparse (snd kv))) o.

(** [getState()] with [state] at the address [stateRef]: the spread
    allocates a copy, [JSON.parse] allocates the object it returns. *)
Definition getState (stateRef : loc) (h : gmap loc object) : option (loc * gmap loc object) :=
  match h !! stateRef with
  | None => None
  | Some o =>
      let copy := fresh (dom h) in
      let h1 := <[copy := o]> h in
      let parsed := fresh (dom h1) in
      Some (parsed, <[parsed := reparseProps o]> h1)
  end.

(** What a caller can do to an object it holds: [o[key] = v] and
    [delete o[key]].  A write below the first level is a write of the
    changed value at the first level. *)
Inductive mutation : Type :=
  | SetProp (key : string) (v : jsval)
  | DeleteProp (key : string).

Fixpoint removeProp (key : string) (o : object) : object :=
  match o with
  | [] => []
  | (k, v) :: rest =>
      if String.eqb k key then rest else (k, v) :: removeProp key rest
  end.

Fixpoint setProp (key : string) (v : jsval) (o : object) : object :=
  match o with
  | [] => [(key, v)]
  | (k, v0) :: rest =>
      if String.eqb k key then (k, v) :: rest else (k, v0) :: setProp key v rest
  end.

Definition mutate (m : mutation) (o : object) : object :=
  match m with
  | SetProp key v => setProp key v o
  | DeleteProp key => removeProp key o
  end.

(** The mutations [ms], in order, on the object at [l]. *)
Definition mutateAt (l : loc) (ms : list mutation) (h : gmap loc object) : gmap loc object :=
  fold_left (fun h m => alter (mutate m) l h) ms h.

(** A heap that holds the state of a new engine at address 1, and what a
    caller then does to the object it was given. *)
Definition heap0 : gmap loc object :=
  {[ 1%positive := ofState Forge.initialState ]}.

Definition meddling : list mutation :=
  [ SetProp "xp" (JNum 999); DeleteProp "rootHash"; SetProp "extra" (JArr [JNull]) ].

End Heap.

(** ** Runs of the engine

    The engine on the platform without [crypto.subtle]: the digest is the
    fallback of this file, the number conversions are ECMAScript's. *)

Module Run.
Import Json Forge.

Definition sha256Hex : string -> string := Digest.fallbackHex.
Definition finiteToString : float -> string := Platform.finiteToString.
Definition stringToNumber : string -> float := Platform.stringToNumber.

Definition log := Forge.log sha256Hex finiteToString.
Definition rebuildFromZero := Forge.rebuildFromZero sha256Hex finiteToString stringToNumber.
Definition verify := Forge.verify sha256Hex finiteToString.
Definition importLog := Forge.importLog sha256Hex finiteToString stringToNumber.

Definition amount (x : float) : option jsval := Some (JObj [("amount", JNum x)]).

(** A profile that never logged, on the indexed store. *)
Definition start : Engine := fresh defaultOptions true.

(** [log("xp", {amount: 5})], [log("xp", {amount: 3})],
    [log("heartbeat", {})] on one day. *)
Definition threeLogs : Engine :=
  let g1 := snd (log "2025-03-01T09:00:00.000Z" "k3v9x" "xp" (amount 5) start) in
  let g2 := snd (log "2025-03-01T09:00:05.000Z" "p0q2m" "xp" (amount 3) g1) in
  snd (log "2025-03-01T09:00:09.000Z" "z7c1d" "heartbeat" (Some (JObj [])) g2).

(** One [log("click", {path: "/"})]. *)
Definition oneClick : Engine :=
  snd (log "2025-03-01T09:00:00.000Z" "k3v9x" "click" (Some (JObj [("path", JStr "/")])) start).


(** Three records whose clock went back a day for the third. *)
Definition clockWentBack : Engine :=
  let g1 := snd (log "2025-03-01T23:59:50.000Z" "k3v9x" "focus" None start) in
  let g2 := snd (log "2025-03-02T00:00:10.000Z" "p0q2m" "focus" None g1) in
  snd (log "2025-03-01T23:59:59.000Z" "z7c1d" "focus" None g2).

(** Three records on two days, in the order of time. *)
Definition twoDays : Engine :=
  let g1 := snd (log "2025-03-01T23:59:50.000Z" "k3v9x" "focus" None start) in
  let g2 := snd (log "2025-03-01T23:59:59.000Z" "p0q2m" "focus" None g1) in
  snd (log "2025-03-02T00:00:10.000Z" "z7c1d" "focus" None g2).

(** [threeLogs] after its first call. *)
Definition afterFirst : Engine :=
  snd (log "2025-03-01T09:00:00.000Z" "k3v9x" "xp" (amount 5) start).

(** The record that the first call of [threeLogs] returned. *)
Definition firstRecord : Rec.rec :=
  fst (log "2025-03-01T09:00:00.000Z" "k3v9x" "xp" (amount 5) start).

(** An [xp] record with another amount in its [data]. *)
Definition forgeAmount (x : float) (r : Rec.rec) : Rec.rec :=
  Rec.mk (Rec.id r) (Rec.type r) (amount x) (Rec.t r) (Rec.appId r)
         (Rec.profileId r) (Rec.prev r) (Rec.nonce r) (Rec.hash r).

(** The store of [threeLogs] after someone wrote 9 for the 3 in the
    second record. *)
Definition tampered : Engine :=
  let s :=
    match store threeLogs with
    | Store.IDB rows nextKey =>
        Store.IDB (alter (fun kr => (fst kr, forgeAmount 9 (snd kr))) 1%nat rows) nextKey
    | Store.LS arr => Store.LS (alter (forgeAmount 9) 1%nat arr)
    end in
  mkEngine (options threeLogs) s (meta threeLogs) (lastHash threeLogs) (state threeLogs).

(** A profile that never logged, on [localStorage]. *)
Definition startLocal : Engine := fresh defaultOptions false.

(** One [log("xp", {amount: 35})] on [localStorage], and its record. *)
Definition thirtyFive : Engine :=
  snd (log "2025-03-01T09:00:00.000Z" "k3v9x" "xp" (amount 35) startLocal).

Definition recordThirtyFive : Rec.rec :=
  Rec.reparse (fst (log "2025-03-01T09:00:00.000Z" "k3v9x" "xp" (amount 35) startLocal)).

(** [threeLogs] on [localStorage]. *)
Definition threeLocal : Engine :=
  let g1 := snd (log "2025-03-01T09:00:00.000Z" "k3v9x" "xp" (amount 5) startLocal) in
  let g2 := snd (log "2025-03-01T09:00:05.000Z" "p0q2m" "xp" (amount 3) g1) in
  snd (log "2025-03-01T09:00:09.000Z" "z7c1d" "heartbeat" (Some (JObj [])) g2).

(** A click logged after [thirtyFive], as [localStorage] reads its record
    back. *)
Definition clickRecord : Rec.rec :=
  Rec.reparse (fst (log "2025-03-02T10:00:00.000Z" "a1b2c" "click" None thirtyFive)).

(** The first record of [threeLogs] as the indexed store holds it. *)
Definition storedFirst : Rec.rec := Rec.with_id (Some 1%N) firstRecord.


(** [log("xp", {amount: "5"})], then [log("xp", {amount: 3})]. *)
Definition textAmount : Engine :=
  let g1 := snd (log "2025-03-01T09:00:00.000Z" "k3v9x" "xp"
                     (Some (JObj [("amount", JStr "5")])) start) in
  snd (log "2025-03-01T09:00:05.000Z" "p0q2m" "xp" (amount 3) g1).

(** The slot that [saveMeta] leaves in [localStorage] once [xp] is [NaN]:
    its text says [null] for it. *)
Definition nanSlot : option Meta :=
  Some (mkMeta "beef" (mkState nan 7 0 1 "beef")).

End Run.

(** * Facts *)

(** ** JSON values *)

Module JsonFacts.
Import JsString Json.

(** Induction over a value with the hypothesis for every item of an array
    and every property of an object. *)
Lemma jsval_nested_ind (P : jsval -> Prop) :
  P JNull ->
  (forall b, P (JBool b)) ->
  (forall x, P (JNum x)) ->
  (forall s, P (JStr s)) ->
  (forall items, Forall P items -> P (JArr items)) ->
  (forall props, Forall (fun kv => P (snd kv)) props -> P (JObj props)) ->
  forall v, P v.
Proof.
  intros Hnull Hbool Hnum Hstr Harr Hobj.
  fix IH 1.
  intros [ | b | x | s | items | props ].
  - exact Hnull.
  - apply Hbool.
  - apply Hnum.
  - apply Hstr.
  - apply Harr. induction items as [ | v items IHitems ].
    + constructor.
    + constructor; [ apply IH | exact IHitems ].
  - apply Hobj. induction props as [ | [k v] props IHprops ].
    + constructor.
    + constructor; [ apply IH | exact IHprops ].
Qed.

Section NumberFormat.
Variable finiteToString : float -> string.

(** Writing a number and writing its JSON reading give one text. *)
Lemma stringify_reparse_num (x : float) :
  stringify finiteToString (reparse (JNum x)) = stringify finiteToString (JNum x).
Proof.
  cbn [reparse]. destruct (is_finite x) eqn:Hfin.
  - destruct (is_zero x) eqn:Hz; cbn [stringify]; rewrite Hfin; [ | reflexivity ].
    unfold is_finite in Hfin.
    destruct (is_nan x) eqn:Hnan; [ discriminate Hfin | ].
    unfold numberToString. rewrite Hnan, Hz. reflexivity.
  - cbn [stringify]. rewrite Hfin. reflexivity.
Qed.

(** [JSON.stringify] does not tell a value from its JSON reading: the text
    that went into [localStorage] comes out of it again. *)
Lemma stringify_reparse (v : jsval) :
  stringify finiteToString (reparse v) = stringify finiteToString v.
Proof.
  induction v as [ | b | x | s | items IH | props IH ] using jsval_nested_ind;
    try reflexivity.
  - apply stringify_reparse_num.
  - cbn [reparse stringify]. do 2 f_equal. apply (f_equal (join ",")).
    rewrite List.map_map. apply List.map_ext_Forall. exact IH.
  - cbn [reparse stringify]. do 2 f_equal. apply (f_equal (join ",")).
    rewrite List.map_map. apply List.map_ext_Forall.
    eapply List.Forall_impl; [ | exact IH ].
    intros [k v] Hv; simpl in *. rewrite Hv. reflexivity.
Qed.

(** The payload of a record and of its JSON reading are one text. *)
Lemma payload_reparse (e : Rec.rec) :
  Payload.ofRec finiteToString (Rec.reparse e) = Payload.ofRec finiteToString e.
Proof.
  unfold Payload.ofRec, Payload.json; simpl.
  destruct (Rec.data e) as [ d | ]; simpl; [ | reflexivity ].
  rewrite stringify_reparse. reflexivity.
Qed.

End NumberFormat.

(** Reading a JSON reading once more changes nothing. *)
Lemma reparse_idempotent (v : jsval) : reparse (reparse v) = reparse v.
Proof.
  induction v as [ | b | x | s | items IH | props IH ] using jsval_nested_ind;
    try reflexivity.
  - cbn [reparse]. destruct (is_finite x) eqn:Hfin; [ | reflexivity ].
    destruct (is_zero x) eqn:Hz; cbn [reparse]; [ reflexivity | ].
    rewrite Hfin, Hz. reflexivity.
  - cbn [reparse]. f_equal. rewrite List.map_map.
    apply List.map_ext_Forall. exact IH.
  - cbn [reparse]. f_equal. rewrite List.map_map.
    apply List.map_ext_Forall. eapply List.Forall_impl; [ | exact IH ].
    intros [k v] Hv; simpl in *. rewrite Hv. reflexivity.
Qed.

Lemma rec_reparse_idempotent (e : Rec.rec) :
  Rec.reparse (Rec.reparse e) = Rec.reparse e.
Proof.
  unfold Rec.reparse; simpl. destruct (Rec.data e) as [ d | ]; simpl;
    [ rewrite reparse_idempotent | ]; reflexivity.
Qed.

End JsonFacts.

(** ** The replay *)

Module ReplayFacts.
Import JsString Json Forge Chain.

(** Two records with the same fields but the key: what reads no key gives
    the same on both. *)
Ltac by_same_fields r r' :=
  let H := fresh "H" in
  destruct r, r'; unfold sameFields, Rec.with_id; simpl;
  intros H; injection H as -> -> -> -> -> -> -> ->; reflexivity.

Section Platform.
Variable sha256Hex : string -> string.
Variable finiteToString : float -> string.
Variable stringToNumber : string -> float.

Local Abbreviation linkOk := (Forge.linkOk sha256Hex finiteToString).
Local Abbreviation loopStep := (Forge.loopStep finiteToString).
Local Abbreviation replayLoop := (Forge.replayLoop sha256Hex finiteToString).
Local Abbreviation verifyLoop := (Forge.verifyLoop sha256Hex finiteToString).
Local Abbreviation linked := (Chain.linked sha256Hex finiteToString).
Local Abbreviation rebuildFromZero :=
  (Forge.rebuildFromZero sha256Hex finiteToString stringToNumber).
Local Abbreviation verify := (Forge.verify sha256Hex finiteToString).

(** The check of a link reads nothing that [localStorage] changes. *)
Lemma linkOk_reparse (prev : string) (e : Rec.rec) :
  linkOk prev (Rec.reparse e) = linkOk prev e.
Proof.
  unfold Forge.linkOk, recomputed.
  rewrite JsonFacts.payload_reparse. reflexivity.
Qed.

(** The check and the accrual read no key. *)
Lemma linkOk_sameFields (prev : string) (r r' : Rec.rec) :
  sameFields r r' -> linkOk prev r = linkOk prev r'.
Proof.
  by_same_fields r r'.
Qed.

Lemma loopStep_sameFields (v : Loop) (r r' : Rec.rec) :
  sameFields r r' -> loopStep v r = loopStep v r'.
Proof.
  by_same_fields r r'.
Qed.

Lemma sameFields_hash (r r' : Rec.rec) :
  sameFields r r' -> Rec.hash r = Rec.hash r'.
Proof.
  by_same_fields r r'.
Qed.

(** The replay over records that agree up to their keys is one replay. *)
Lemma replayLoop_sameFields (es es' : list Rec.rec) :
  Forall2 sameFields es es' ->
  forall v, replayLoop es v = replayLoop es' v.
Proof.
  induction 1 as [ | r r' es es' Hr Hes IH ]; intros v; simpl.
  - reflexivity.
  - rewrite (linkOk_sameFields _ _ _ Hr), (loopStep_sameFields _ _ _ Hr).
    destruct (linkOk (l_prev v) r'); [ apply IH | reflexivity ].
Qed.

Lemma linked_reparse (es : list Rec.rec) :
  forall prev, linked prev (List.map Rec.reparse es) = linked prev es.
Proof.
  induction es as [ | e es IH ]; intros prev; simpl.
  - reflexivity.
  - rewrite linkOk_reparse, IH. reflexivity.
Qed.

Lemma chainHead_reparse (es : list Rec.rec) :
  forall prev, chainHead prev (List.map Rec.reparse es) = chainHead prev es.
Proof.
  induction es as [ | e es IH ]; intros prev; simpl; [ reflexivity | apply IH ].
Qed.

Lemma linked_app (es1 es2 : list Rec.rec) :
  forall prev,
    linked prev (es1 ++ es2)
    = linked prev es1 && linked (chainHead prev es1) es2.
Proof.
  induction es1 as [ | e es1 IH ]; intros prev; simpl.
  - reflexivity.
  - rewrite IH, andb_assoc. reflexivity.
Qed.

Lemma chainHead_app (es1 es2 : list Rec.rec) :
  forall prev, chainHead prev (es1 ++ es2) = chainHead (chainHead prev es1) es2.
Proof.
  induction es1 as [ | e es1 IH ]; intros prev; simpl; [ reflexivity | apply IH ].
Qed.

(** On a linked chain the loop never breaks: it is a fold of its step. *)
Lemma replayLoop_linked (es : list Rec.rec) :
  forall v,
    linked (l_prev v) es = true ->
    replayLoop es v = fold_left loopStep es v.
Proof.
  induction es as [ | e es IH ]; intros v H; simpl in *.
  - reflexivity.
  - apply andb_true_iff in H as [He Hes]. rewrite He. apply IH. exact Hes.
Qed.

Lemma fold_loopStep_prev (es : list Rec.rec) :
  forall v, l_prev (fold_left loopStep es v) = chainHead (l_prev v) es.
Proof.
  induction es as [ | e es IH ]; intros v; simpl; [ reflexivity | ].
  rewrite IH. reflexivity.
Qed.

Lemma fold_loopStep_ok (es : list Rec.rec) :
  forall v, l_ok (fold_left loopStep es v) = l_ok v.
Proof.
  induction es as [ | e es IH ]; intros v; simpl; [ reflexivity | ].
  rewrite IH. reflexivity.
Qed.

Lemma fold_loopStep_xp (es : list Rec.rec) :
  forall v,
    l_xp (fold_left loopStep es v)
    = fold_left (accrue finiteToString) es (l_xp v).
Proof.
  induction es as [ | e es IH ]; intros v; simpl; [ reflexivity | ].
  rewrite IH. reflexivity.
Qed.

(** The loop stops at a record that fails the check: what came before it
    is folded, what comes after it is not read. *)
Lemma replayLoop_break (good : list Rec.rec) (bad : Rec.rec) (rest : list Rec.rec) :
  forall v,
    linked (l_prev v) good = true ->
    linkOk (chainHead (l_prev v) good) bad = false ->
    replayLoop (good ++ bad :: rest) v
    = let w := fold_left loopStep good v in
      mkLoop false (l_prev w) (l_xp w) (l_streak w) (l_lastDay w).
Proof.
  induction good as [ | e good IH ]; intros v Hgood Hbad; simpl in *.
  - rewrite Hbad. reflexivity.
  - apply andb_true_iff in Hgood as [He Hgood]. rewrite He.
    apply IH; assumption.
Qed.

Lemma verifyLoop_linked (es : list Rec.rec) :
  forall i prev,
    linked prev es = true ->
    verifyLoop i prev es = mkResult true None None.
Proof.
  induction es as [ | e es IH ]; intros i prev H; simpl in *.
  - reflexivity.
  - apply andb_true_iff in H as [He Hes]. rewrite He. apply IH. exact Hes.
Qed.

Lemma verifyLoop_break (good : list Rec.rec) (bad : Rec.rec) (rest : list Rec.rec) :
  forall i prev,
    linked prev good = true ->
    linkOk (chainHead prev good) bad = false ->
    verifyLoop i prev (good ++ bad :: rest)
    = mkResult false (Some (i + List.length good)) None.
Proof.
  induction good as [ | e good IH ]; intros i prev Hgood Hbad; simpl in *.
  - rewrite Hbad. do 2 f_equal. lia.
  - apply andb_true_iff in Hgood as [He Hgood]. rewrite He.
    rewrite IH by assumption. do 2 f_equal. lia.
Qed.

(** [verify] says [ok] exactly on the linked chains. *)
Lemma verifyLoop_ok_linked (es : list Rec.rec) :
  forall i prev, ok (verifyLoop i prev es) = linked prev es.
Proof.
  induction es as [ | e es IH ]; intros i prev; simpl.
  - reflexivity.
  - destruct (linkOk prev e); simpl; [ apply IH | reflexivity ].
Qed.

End Platform.
End ReplayFacts.

(** ** Accrual and streak *)

Module AccrualFacts.
Import JsString Json Forge Chain.

Section Platform.
Variable sha256Hex : string -> string.
Variable finiteToString : float -> string.
Variable stringToNumber : string -> float.

Local Abbreviation linkOk := (Forge.linkOk sha256Hex finiteToString).
Local Abbreviation loopStep := (Forge.loopStep finiteToString).
Local Abbreviation accrue := (Forge.accrue finiteToString).
Local Abbreviation replayLoop := (Forge.replayLoop sha256Hex finiteToString).
Local Abbreviation linked := (Chain.linked sha256Hex finiteToString).
Local Abbreviation rebuildFromZero :=
  (Forge.rebuildFromZero sha256Hex finiteToString stringToNumber).
Local Abbreviation log := (Forge.log sha256Hex finiteToString).

Lemma accrue_clickish (acc : XpAcc) (e : Rec.rec) :
  clickish e -> accrue acc e = acc.
Proof.
  unfold Forge.accrue. intros [-> | ->]; reflexivity.
Qed.



Lemma replayLoop_clickish (es : list Rec.rec) :
  Forall clickish es ->
  forall v, l_xp (replayLoop es v) = l_xp v.
Proof.
  induction 1 as [ | e es He Hes IH ]; intros v; simpl.
  - reflexivity.
  - destruct (linkOk (l_prev v) e); [ | reflexivity ].
    rewrite IH. simpl. apply accrue_clickish. exact He.
Qed.

(** The streak of a fold of the step: the day changes along the dates. *)
Lemma fold_loopStep_streak (es : list Rec.rec) :
  forall v,
    l_streak (fold_left loopStep es v)
    = l_streak v + dayChanges (l_lastDay v) (days es).
Proof.
  induction es as [ | e es IH ]; intros v.
  - simpl. lia.
  - cbn [fold_left]. rewrite IH. unfold days. cbn [List.map List.filter].
    unfold Forge.loopStep. cbn [l_streak l_lastDay].
    destruct (String.eqb (dayOf e) EmptyString) eqn:Hempty; cbn [negb andb].
    + reflexivity.
    + cbn [dayChanges].
      destruct (match l_lastDay v with
                | Some d => String.eqb (dayOf e) d
                | None => false
                end); cbn [negb]; lia.
Qed.

Lemma contiguous_tail (d : string) (ds : list string) :
  contiguous (d :: ds) -> contiguous ds.
Proof.
  intros H l1 l2 l3 x x' Heq Hin.
  apply (H (d :: l1) l2 l3 x x'); [ rewrite Heq; reflexivity | exact Hin ].
Qed.

Lemma contiguous_head_fresh (d x : string) (ds : list string) :
  contiguous (d :: x :: ds) -> x <> d -> ~ In d (x :: ds).
Proof.
  intros H Hne [Hx | Hin]; [ congruence | ].
  apply in_split in Hin as (l2 & l3 & ->).
  apply Hne. apply (H [] (x :: l2) l3 d x); [ reflexivity | left; reflexivity ].
Qed.

(** Where equal dates stand together, every change of date brings a date
    not seen before. *)
Lemma dayChanges_contiguous (ds : list string) :
  forall d,
    contiguous (d :: ds) ->
    S (dayChanges (Some d) ds) = List.length (remove_dups (d :: ds)).
Proof.
  induction ds as [ | x ds IH ]; intros d H.
  - reflexivity.
  - cbn [dayChanges]. destruct (String.eqb x d) eqn:Hxd.
    + apply String.eqb_eq in Hxd as ->.
      rewrite (IH d (contiguous_tail _ _ H)).
      cbn [remove_dups]. destruct (decide_rel elem_of d (d :: ds)) as [ _ | Hnot ].
      * reflexivity.
      * exfalso. apply Hnot. left.
    + apply String.eqb_neq in Hxd.
      rewrite (IH x (contiguous_tail _ _ H)).
      change (remove_dups (d :: x :: ds))
        with (if decide_rel elem_of d (x :: ds)
              then remove_dups (x :: ds) else d :: remove_dups (x :: ds)).
      destruct (decide_rel elem_of d (x :: ds)) as [ Hin | _ ].
      * exfalso. apply (contiguous_head_fresh d x ds H Hxd).
        apply list_elem_of_In. exact Hin.
      * reflexivity.
Qed.

Lemma dayChanges_distinct (ds : list string) :
  contiguous ds -> dayChanges None ds = List.length (remove_dups ds).
Proof.
  destruct ds as [ | d ds ]; intros H; [ reflexivity | ].
  cbn [dayChanges]. apply dayChanges_contiguous. exact H.
Qed.

End Platform.
End AccrualFacts.

(** ** [rebuildFromZero] *)

Module RebuildFacts.
Local Open Scope list_scope.
Import JsString Json Forge Chain.

Lemma afterRun_all (d : string) (l2 l3 : list string) :
  existsb (String.eqb d) (afterRun d (l2 ++ d :: l3)) = false ->
  forall x, In x l2 -> x = d.
Proof.
  induction l2 as [ | y l2 IH ]; intros Hno x Hin; [ destruct Hin | ].
  simpl in Hno. destruct (String.eqb y d) eqn:Hyd.
  - apply String.eqb_eq in Hyd as ->.
    destruct Hin as [ <- | Hin ]; [ reflexivity | apply IH; assumption ].
  - exfalso. simpl in Hno. apply orb_false_iff in Hno as [_ Hno].
    rewrite existsb_app in Hno. apply orb_false_iff in Hno as [_ Hno].
    simpl in Hno. rewrite String.eqb_refl in Hno. discriminate Hno.
Qed.

(** The decision of [contiguous] is sound. *)
Lemma contiguousb_sound (ds : list string) :
  contiguousb ds = true -> contiguous ds.
Proof.
  induction ds as [ | d0 ds IH ]; intros Hb l1 l2 l3 d d' Heq Hin.
  - destruct l1; discriminate Heq.
  - simpl in Hb. apply andb_true_iff in Hb as [Hrun Hrest].
    destruct l1 as [ | a l1 ]; simpl in Heq; injection Heq as -> ->.
    + apply negb_true_iff in Hrun.
      exact (afterRun_all _ _ _ Hrun _ Hin).
    + exact (IH Hrest l1 l2 l3 d d' eq_refl Hin).
Qed.

Section Platform.
Variable sha256Hex : string -> string.
Variable finiteToString : float -> string.
Variable stringToNumber : string -> float.

Local Abbreviation linkOk := (Forge.linkOk sha256Hex finiteToString).
Local Abbreviation loopStep := (Forge.loopStep finiteToString).
Local Abbreviation accrue := (Forge.accrue finiteToString).
Local Abbreviation accrued := (Chain.accrued finiteToString).
Local Abbreviation roundAcc := (Forge.roundAcc stringToNumber).
Local Abbreviation replayLoop := (Forge.replayLoop sha256Hex finiteToString).
Local Abbreviation linked := (Chain.linked sha256Hex finiteToString).
Local Abbreviation brokenAt := (Chain.brokenAt sha256Hex finiteToString).
Local Abbreviation firstBroken := (Chain.firstBroken sha256Hex finiteToString).
Local Abbreviation rebuildFromZero :=
  (Forge.rebuildFromZero sha256Hex finiteToString stringToNumber).
Local Abbreviation verify := (Forge.verify sha256Hex finiteToString).
Local Abbreviation log := (Forge.log sha256Hex finiteToString).
Local Abbreviation replayed := (Chain.replayed finiteToString stringToNumber).
Local Abbreviation accepted := (Chain.accepted sha256Hex finiteToString).

Lemma fold_from_start (es : list Rec.rec) :
  fold_left loopStep es loopStart
  = mkLoop true (chainHead GENESIS es) (accrued es) (dayChanges None (days es))
           (l_lastDay (fold_left loopStep es loopStart)).
Proof.
  pose proof (ReplayFacts.fold_loopStep_prev finiteToString es loopStart) as Hp.
  pose proof (ReplayFacts.fold_loopStep_ok finiteToString es loopStart) as Ho.
  pose proof (ReplayFacts.fold_loopStep_xp finiteToString es loopStart) as Hx.
  pose proof (AccrualFacts.fold_loopStep_streak finiteToString es loopStart) as Hs.
  destruct (fold_left loopStep es loopStart) as [o p x s d]; simpl in *.
  subst. reflexivity.
Qed.

(** On a chain that verifies, the replay reads every record. *)
Lemma rebuild_linked (g : Engine) :
  linked GENESIS (Store.getAll (store g)) = true ->
  rebuildFromZero g = (mkResult true None None, replayed g (Store.getAll (store g))).
Proof.
  intros H. unfold Forge.rebuildFromZero.
  rewrite ReplayFacts.replayLoop_linked by exact H.
  rewrite fold_from_start. reflexivity.
Qed.

(** On a chain with a first record that fails, the replay reads the
    records before it. *)
Lemma rebuild_break (g : Engine) (good : list Rec.rec) (bad : Rec.rec)
    (rest : list Rec.rec) :
  Store.getAll (store g) = good ++ bad :: rest ->
  linked GENESIS good = true ->
  linkOk (chainHead GENESIS good) bad = false ->
  rebuildFromZero g = (mkResult false None None, replayed g good).
Proof.
  intros Hes Hgood Hbad. unfold Forge.rebuildFromZero, replayed.
  rewrite Hes.
  rewrite (ReplayFacts.replayLoop_break sha256Hex finiteToString good bad rest loopStart)
    by assumption.
  cbv zeta. rewrite fold_from_start. reflexivity.
Qed.

(** The loop reads the accepted records and no other. *)
Lemma replayLoop_accepted (es : list Rec.rec) :
  forall v,
    let w := replayLoop es v in
    let f := fold_left loopStep (accepted (l_prev v) es) v in
    l_prev w = l_prev f /\ l_xp w = l_xp f /\ l_streak w = l_streak f
    /\ l_lastDay w = l_lastDay f.
Proof.
  induction es as [ | e es IH ]; intros v; simpl.
  - repeat split.
  - destruct (linkOk (l_prev v) e); simpl; [ | repeat split ].
    apply (IH (loopStep v e)).
Qed.

Lemma accepted_linked (es : list Rec.rec) :
  forall prev, linked prev es = true -> accepted prev es = es.
Proof.
  induction es as [ | e es IH ]; intros prev H; simpl in *.
  - reflexivity.
  - apply andb_true_iff in H as [He Hes]. rewrite He, (IH _ Hes). reflexivity.
Qed.

(** The predecessor's hash at index [i] is the head of the first [i]
    records. *)
Lemma predFrom_chainHead (es : list Rec.rec) :
  forall start i,
    i <= List.length es ->
    predFrom start es i = chainHead start (take i es).
Proof.
  induction es as [ | e es IH ]; intros start i Hi.
  - simpl in Hi. assert (i = 0) as -> by lia. reflexivity.
  - destruct i as [ | i ]; [ reflexivity | ].
    simpl in Hi. cbn [take firstn chainHead]. rewrite <- IH by lia.
    destruct i as [ | i ]; [ reflexivity | ].
    unfold predFrom. reflexivity.
Qed.

(** The records before the first broken index are linked. *)
Lemma linked_before (es : list Rec.rec) (i : nat) :
  i <= List.length es ->
  (forall j, j < i -> ~ brokenAt es j) ->
  linked GENESIS (take i es) = true.
Proof.
  induction i as [ | i IH ]; intros Hi Hgood.
  - reflexivity.
  - destruct (es !! i) as [ e | ] eqn:He.
    2: { apply lookup_ge_None in He. lia. }
    rewrite (take_S_r _ _ _ He), ReplayFacts.linked_app.
    rewrite IH by (intros; try apply Hgood; lia).
    simpl. rewrite andb_true_r.
    rewrite <- predFrom_chainHead by lia.
    destruct (linkOk (predFrom GENESIS es i) e) eqn:Hl; [ reflexivity | ].
    exfalso. apply (Hgood i); [ lia | ]. exists e. split; assumption.
Qed.

(** A chain with a first broken index splits there. *)
Lemma firstBroken_split (es : list Rec.rec) (i : nat) :
  firstBroken es i ->
  exists bad,
    es = take i es ++ bad :: drop (S i) es
    /\ linked GENESIS (take i es) = true
    /\ linkOk (chainHead GENESIS (take i es)) bad = false.
Proof.
  intros [(e & He & Hbad) Hbefore]. exists e.
  assert (i < List.length es) as Hlt by (eapply lookup_lt_Some; exact He).
  split; [ | split ].
  - rewrite <- (take_drop_middle _ _ _ He) at 1. reflexivity.
  - apply linked_before; [ lia | exact Hbefore ].
  - rewrite <- predFrom_chainHead by lia. exact Hbad.
Qed.

End Platform.
End RebuildFacts.

(** ** The store under [put] *)

Module StoreFacts.
Local Open Scope list_scope.
Import Store.

Lemma putRow_Forall (P : Rec.rec -> Prop) (k : N) (r : Rec.rec)
    (rows : list (N * Rec.rec)) :
  P r -> Forall P (List.map snd rows) -> Forall P (List.map snd (putRow k r rows)).
Proof.
  intros Hr. induction rows as [ | [k' r'] rows IH ]; intros Hrows; simpl.
  - constructor; [ exact Hr | constructor ].
  - inversion Hrows as [ | ? ? Hr' Hrest ]; subst.
    destruct (k <? k')%N; [ constructor; assumption | ].
    destruct (k =? k')%N; constructor; auto.
Qed.

(** [put] adds a record of the type of [r] and keeps the types there. *)
Lemma put_types (Q : string -> Prop) (r : Rec.rec) (s : store) :
  Q (Rec.type r) ->
  Forall (fun x => Q (Rec.type x)) (getAll s) ->
  Forall (fun x => Q (Rec.type x)) (getAll (put r s)).
Proof.
  intros Hr Hs. destruct s as [ rows nextKey | arr ]; simpl in *.
  - destruct (Rec.id r); simpl; apply putRow_Forall; assumption.
  - rewrite Forall_map. apply Forall_app. split.
    + eapply Forall_impl; [ exact Hs | intros x Hx; exact Hx ].
    + constructor; [ exact Hr | constructor ].
Qed.

(** A key past every key of the rows goes to their end. *)
Lemma putRow_end (k : N) (r : Rec.rec) (rows : list (N * Rec.rec)) :
  forall lo bound,
    StoreInv.rowsOk lo bound rows ->
    (bound <= k)%N ->
    putRow k r rows = rows ++ [(k, r)].
Proof.
  induction rows as [ | [k' r'] rows IH ]; intros lo bound Hok Hk; simpl.
  - reflexivity.
  - destruct Hok as (_ & Hlt & _ & Hrest).
    destruct (N.ltb_spec k k'); [ lia | ].
    destruct (N.eqb_spec k k'); [ lia | ].
    rewrite (IH _ _ Hrest Hk). reflexivity.
Qed.

Lemma rowsOk_end (k : N) (r : Rec.rec) (rows : list (N * Rec.rec)) :
  forall lo bound bound',
    StoreInv.rowsOk lo bound rows ->
    (lo <= k)%N -> (bound <= k)%N -> (k < bound')%N ->
    Rec.id r = Some k ->
    StoreInv.rowsOk lo bound' (rows ++ [(k, r)]).
Proof.
  induction rows as [ | [k' r'] rows IH ]; intros lo bound bound' Hok Hlo Hk Hb Hid; simpl.
  - repeat split; assumption.
  - destruct Hok as (Hlo' & Hlt & Hid' & Hrest).
    repeat split; try assumption; try lia.
    apply (IH _ bound); try assumption; lia.
Qed.

(** On a well-formed store a record without [id] goes to the end of
    [getAll], with the fields it had. *)
Lemma put_fresh_getAll (r : Rec.rec) (s : store) :
  StoreInv.wf s ->
  Rec.id r = None ->
  exists r',
    getAll (put r s) = List.map (if s is LS _ then Rec.reparse else id) (getAll s) ++ [r']
    /\ (r' = Rec.reparse r \/ Chain.sameFields r r').
Proof.
  intros Hwf Hid. destruct s as [ rows nextKey | arr ]; simpl in *.
  - rewrite Hid. exists (Rec.with_id (Some nextKey) r). split.
    + simpl. rewrite (putRow_end _ _ _ _ _ Hwf) by lia.
      rewrite List.map_app, List.map_id. reflexivity.
    + right. reflexivity.
  - exists (Rec.reparse r). split; [ | left; reflexivity ].
    rewrite List.map_app. reflexivity.
Qed.

Lemma put_fresh_wf (r : Rec.rec) (s : store) :
  StoreInv.wf s -> Rec.id r = None -> StoreInv.wf (put r s).
Proof.
  intros Hwf Hid. destruct s as [ rows nextKey | arr ]; simpl in *.
  - rewrite Hid. simpl. rewrite (putRow_end _ _ _ _ _ Hwf) by lia.
    apply (rowsOk_end _ _ _ _ nextKey); try assumption; try lia. reflexivity.
  - apply Forall_forall. intros x Hx.
    apply list_elem_of_In, in_map_iff in Hx as (y & <- & _).
    apply JsonFacts.rec_reparse_idempotent.
Qed.

End StoreFacts.

(** ** The chain under [appendEvent] *)

Module AppendFacts.
Local Open Scope list_scope.
Import JsString Json Forge Chain.

Section Platform.
Variable sha256Hex : string -> string.
Variable finiteToString : float -> string.

Local Abbreviation linkOk := (Forge.linkOk sha256Hex finiteToString).
Local Abbreviation linked := (Chain.linked sha256Hex finiteToString).
Local Abbreviation appendEvent := (Forge.appendEvent sha256Hex finiteToString).
Local Abbreviation heartbeatTick := (Forge.heartbeatTick sha256Hex finiteToString).
Local Abbreviation perform := (Forge.perform sha256Hex finiteToString).
Local Abbreviation session := (Forge.session sha256Hex finiteToString).
Local Abbreviation log := (Forge.log sha256Hex finiteToString).

Local Abbreviation inSync := (StoreInv.inSync sha256Hex finiteToString).

Lemma fresh_inSync (opts : Options) (indexed : bool) : inSync (fresh opts indexed).
Proof. destruct indexed; repeat split. constructor. Qed.

(** The record that [appendEvent] builds passes the check against the
    [lastHash] it was built on. *)
Lemma built_record_links (prev nonce : string) (entry : Entry.entry) :
  let payload := Payload.ofEntry finiteToString entry in
  let hash := sha256Hex (prev +:+ "|" +:+ payload +:+ "|" +:+ nonce) in
  linkOk prev
    (Rec.mk None (Entry.type entry) (Some (Entry.data entry)) (Some (Entry.t entry))
            (Entry.appId entry) (Entry.profileId entry) prev nonce hash) = true.
Proof.
  unfold Forge.linkOk, recomputed, Payload.ofRec, Payload.ofEntry; simpl.
  rewrite !String.eqb_refl. reflexivity.
Qed.

Lemma appendEvent_inSync (nonce : string) (entry : Entry.entry) (g : Engine) :
  inSync g ->
  let g' := snd (appendEvent nonce entry g) in
  inSync g'
  /\ List.length (Store.getAll (store g')) = S (List.length (Store.getAll (store g))).
Proof.
  intros (Hwf & Hlinked & Hhead) g'. subst g'.
  unfold StoreInv.inSync, Forge.appendEvent. cbn [snd saveMeta store lastHash].
  set (rec := Rec.mk None _ _ _ _ _ _ _ _).
  destruct (StoreFacts.put_fresh_getAll rec (store g) Hwf eq_refl) as (r' & Hall & Hr').
  assert (Hlink : linkOk (lastHash g) r' = true).
  { destruct Hr' as [ -> | Hsame ].
    - rewrite ReplayFacts.linkOk_reparse. apply built_record_links.
    - rewrite <- (ReplayFacts.linkOk_sameFields _ _ _ _ _ Hsame).
      apply built_record_links. }
  assert (Hhash : Rec.hash r' = Rec.hash rec).
  { destruct Hr' as [ -> | Hsame ];
      [ reflexivity | symmetry; apply ReplayFacts.sameFields_hash; exact Hsame ]. }
  assert (Hmap : forall p,
             linked p (List.map (if store g is Store.LS _ then Rec.reparse else id)
                                (Store.getAll (store g)))
             = linked p (Store.getAll (store g))
             /\ chainHead p (List.map (if store g is Store.LS _ then Rec.reparse else id)
                                      (Store.getAll (store g)))
                = chainHead p (Store.getAll (store g))).
  { intros p. destruct (store g); simpl.
    - rewrite List.map_id. split; reflexivity.
    - split; [ apply ReplayFacts.linked_reparse | apply ReplayFacts.chainHead_reparse ]. }
  repeat split.
  - apply StoreFacts.put_fresh_wf; [ exact Hwf | reflexivity ].
  - rewrite Hall, ReplayFacts.linked_app.
    rewrite (proj1 (Hmap GENESIS)), (proj2 (Hmap GENESIS)), Hlinked, <- Hhead.
    simpl. rewrite Hlink. reflexivity.
  - rewrite Hall, ReplayFacts.chainHead_app. simpl. rewrite Hhash. reflexivity.
  - rewrite Hall, List.length_app, List.length_map. simpl. lia.
Qed.

(** [log] leaves the store and [lastHash] that its [appendEvent] left. *)
Lemma log_store (now nonce ty : string) (data : option jsval) (g : Engine) :
  let entry := Entry.mk ty (match data with Some d => d | None => JObj [] end) now
                        (appId (options g)) (profileId (options g)) in
  store (snd (log now nonce ty data g)) = store (snd (appendEvent nonce entry g))
  /\ lastHash (snd (log now nonce ty data g)) = lastHash (snd (appendEvent nonce entry g))
  /\ options (snd (log now nonce ty data g)) = options g
  /\ events (state (snd (log now nonce ty data g))) = S (events (state g)).
Proof.
  unfold Forge.log, Forge.appendEvent. cbn [snd saveMeta].
  destruct (String.eqb ty "click" || String.eqb ty "quest:complete"); repeat split.
Qed.

Lemma log_inSync (now nonce ty : string) (data : option jsval) (g : Engine) :
  inSync g -> inSync (snd (log now nonce ty data g)).
Proof.
  intros Hg. destruct (log_store now nonce ty data g) as (Hs & Hl & _).
  unfold StoreInv.inSync. rewrite Hs, Hl.
  apply (appendEvent_inSync nonce _ g Hg).
Qed.

(** Every call keeps the engine in step with its store, and adds one
    record when it reaches [appendEvent]. *)
Lemma perform_inSync (c : Call) (g : Engine) :
  inSync g ->
  inSync (perform c g)
  /\ List.length (Store.getAll (store (perform c g)))
     = List.length (Store.getAll (store g)) + (if appends c then 1 else 0).
Proof.
  intros Hg. destruct c as [ now nonce ty data | visible path now nonce | nonce entry ];
    cbn [Forge.perform appends].
  - destruct (log_store now nonce ty data g) as (Hs & Hl & _).
    unfold StoreInv.inSync. rewrite Hs, Hl.
    destruct (appendEvent_inSync nonce
                (Entry.mk ty (match data with Some d => d | None => JObj [] end) now
                          (appId (options g)) (profileId (options g))) g Hg)
      as [Hsync Hlen].
    split; [ exact Hsync | rewrite Hlen; lia ].
  - unfold Forge.heartbeatTick. destruct visible; [ | split; [ exact Hg | lia ] ].
    cbn [store lastHash].
    destruct (appendEvent_inSync nonce
                (Entry.mk "heartbeat" (JObj [("path", JStr path)]) now
                          (appId (options g)) (profileId (options g))) g Hg)
      as [Hsync Hlen].
    split; [ exact Hsync | ].
    cbn [store]. rewrite Hlen. lia.
  - destruct (appendEvent_inSync nonce entry g Hg) as [Hsync Hlen].
    split; [ exact Hsync | rewrite Hlen; lia ].
Qed.

Lemma session_inSync (calls : list Call) :
  forall g,
    inSync g ->
    inSync (session calls g)
    /\ List.length (Store.getAll (store (session calls g)))
       = List.length (Store.getAll (store g)) + List.length (List.filter appends calls).
Proof.
  induction calls as [ | c calls IH ]; intros g Hg;
    cbn [Forge.session List.filter].
  - split; [ exact Hg | simpl; lia ].
  - destruct (perform_inSync c g Hg) as [Hg' Hlen].
    destruct (IH _ Hg') as [Hall Hlen']. split; [ exact Hall | ].
    rewrite Hlen', Hlen. destruct (appends c); simpl; lia.
Qed.

(** No call changes the back end. *)
Lemma put_indexed (r : Rec.rec) (s : Store.store) :
  Store.indexed (Store.put r s) = Store.indexed s.
Proof. destruct s; simpl; [ destruct (Rec.id r) | ]; reflexivity. Qed.

Lemma perform_indexed (c : Call) (g : Engine) :
  Store.indexed (store (perform c g)) = Store.indexed (store g).
Proof.
  destruct c as [ now nonce ty data | visible path now nonce | nonce entry ];
    cbn [Forge.perform].
  - rewrite (proj1 (log_store now nonce ty data g)). apply put_indexed.
  - unfold Forge.heartbeatTick. destruct visible; [ apply put_indexed | reflexivity ].
  - apply put_indexed.
Qed.

Lemma session_indexed (calls : list Call) :
  forall g, Store.indexed (store (session calls g)) = Store.indexed (store g).
Proof.
  induction calls as [ | c calls IH ]; intros g; cbn [Forge.session].
  - reflexivity.
  - rewrite IH. apply perform_indexed.
Qed.

End Platform.
End AppendFacts.

(** ** The merge of [importLog] *)

Module ImportFacts.
Local Open Scope list_scope.
Import JsString Json Forge Chain.

(** No record continues the head: the loop puts nothing. *)
Lemma mergeLoop_none (es : list Rec.rec) :
  forall prev s n,
    Forall (fun e => Rec.prev e <> prev) es ->
    mergeLoop es prev s n = (s, n).
Proof.
  induction es as [ | e es IH ]; intros prev s n Hall; simpl.
  - reflexivity.
  - inversion Hall as [ | ? ? He Hes ]; subst.
    apply String.eqb_neq in He. rewrite He. apply IH. exact Hes.
Qed.

Section Platform.
Variable sha256Hex : string -> string.
Variable finiteToString : float -> string.
Variable stringToNumber : string -> float.

Local Abbreviation linked := (Chain.linked sha256Hex finiteToString).
Local Abbreviation rebuildFromZero :=
  (Forge.rebuildFromZero sha256Hex finiteToString stringToNumber).

(** A linked chain that starts at the head is put whole. *)
Lemma mergeLoop_linked (es : list Rec.rec) :
  forall prev s n,
    linked prev es = true ->
    mergeLoop es prev s n = (Chain.putAll es s, n + List.length es).
Proof.
  induction es as [ | e es IH ]; intros prev s n H; simpl in *.
  - f_equal. lia.
  - apply andb_true_iff in H as [He Hes].
    unfold linkOk in He. apply andb_true_iff in He as [Hprev _].
    rewrite Hprev. rewrite (IH _ _ _ Hes). f_equal. lia.
Qed.


End Platform.

(** Keys that ascend past the rows put every record at the end. *)
Lemma putAll_indexed (es : list Rec.rec) :
  forall rows lo gen,
    StoreInv.rowsOk 0 lo rows ->
    (lo <= gen)%N ->
    StoreInv.keysAscend lo gen es = true ->
    exists es' gen',
      Chain.putAll es (Store.IDB rows gen) = Store.IDB (rows ++ es') gen'
      /\ Forall2 sameFields es (List.map snd es').
Proof.
  induction es as [ | e es IH ]; intros rows lo gen Hrows Hgen Hkeys.
  - exists [], gen. rewrite app_nil_r. split; [ reflexivity | constructor ].
  - cbn [StoreInv.keysAscend] in Hkeys. unfold Chain.putAll. cbn [fold_left Store.put].
    destruct (Rec.id e) as [ k | ] eqn:Hid.
    + apply andb_true_iff in Hkeys as [Hk Hkeys]. apply N.leb_le in Hk.
      rewrite (StoreFacts.putRow_end _ _ _ _ _ Hrows Hk).
      destruct (IH (rows ++ [(k, e)]) (k + 1)%N (N.max gen (k + 1))) as (es' & gen' & Hput & Hsame).
      * apply (StoreFacts.rowsOk_end _ _ _ _ lo); try assumption; lia.
      * lia.
      * exact Hkeys.
      * exists ((k, e) :: es'), gen'. split.
        -- unfold Chain.putAll in Hput. rewrite Hput, <- app_assoc. reflexivity.
        -- constructor; [ reflexivity | exact Hsame ].
    + rewrite (StoreFacts.putRow_end _ _ _ _ _ Hrows Hgen).
      destruct (IH (rows ++ [(gen, Rec.with_id (Some gen) e)]) (gen + 1)%N (gen + 1)%N)
        as (es' & gen' & Hput & Hsame).
      * apply (StoreFacts.rowsOk_end _ _ _ _ lo); try assumption; try lia. reflexivity.
      * lia.
      * exact Hkeys.
      * exists ((gen, Rec.with_id (Some gen) e) :: es'), gen'. split.
        -- unfold Chain.putAll in Hput. rewrite Hput, <- app_assoc. reflexivity.
        -- constructor; [ reflexivity | exact Hsame ].
Qed.

(** Records that are their own JSON reading come back from
    [localStorage] as they were put. *)
Lemma putAll_local (es : list Rec.rec) :
  forall arr,
    Forall (fun e => Rec.reparse e = e) arr ->
    Forall (fun e => Rec.reparse e = e) es ->
    Chain.putAll es (Store.LS arr) = Store.LS (arr ++ es).
Proof.
  induction es as [ | e es IH ]; intros arr Harr Hes.
  - rewrite app_nil_r. reflexivity.
  - inversion Hes as [ | ? ? He Hes' ]; subst.
    unfold Chain.putAll. cbn [fold_left Store.put].
    assert (Hstable : List.map Rec.reparse (arr ++ [e]) = arr ++ [e]).
    { rewrite List.map_app. simpl. rewrite He. f_equal.
      induction Harr as [ | x arr Hx Harr IHarr ]; simpl; [ reflexivity | ].
      rewrite Hx, IHarr. reflexivity. }
    rewrite Hstable. fold (Chain.putAll es (Store.LS (arr ++ [e]))).
    rewrite IH; [ rewrite <- app_assoc; reflexivity | | exact Hes' ].
    apply Forall_app. split; [ exact Harr | constructor; [ exact He | constructor ] ].
Qed.

(** An empty store that keeps the records hands them back, up to the keys
    it gave them. *)
Lemma putAll_keeps (indexed : bool) (es : list Rec.rec) :
  StoreInv.keeps indexed es ->
  Forall2 sameFields es (Store.getAll (Chain.putAll es (Store.empty indexed))).
Proof.
  destruct indexed; simpl; intros H.
  - destruct (putAll_indexed es [] 0%N 1%N I ltac:(lia) H) as (es' & gen' & Hput & Hsame).
    rewrite Hput. exact Hsame.
  - rewrite (putAll_local es [] (List.Forall_nil _) H). simpl.
    clear H. induction es; constructor; [ reflexivity | assumption ].
Qed.

(** The rows of a well-formed indexed store carry ascending keys. *)
Lemma rowsOk_keysAscend (rows : list (N * Rec.rec)) :
  forall lo bound lo' gen,
    StoreInv.rowsOk lo bound rows ->
    (lo' <= lo)%N ->
    StoreInv.keysAscend lo' gen (List.map snd rows) = true.
Proof.
  induction rows as [ | [k r] rows IH ]; intros lo bound lo' gen Hok Hlo; simpl.
  - reflexivity.
  - destruct Hok as (Hk & _ & Hid & Hrest). rewrite Hid.
    apply andb_true_iff. split; [ apply N.leb_le; lia | ].
    apply (IH (k + 1)%N bound); [ exact Hrest | lia ].
Qed.

(** What a store as [put] leaves it exports, an empty store of its kind
    keeps. *)
Lemma wf_export_keeps (s : Store.store) :
  StoreInv.wf s -> StoreInv.keeps (Store.indexed s) (Store.getAll s).
Proof.
  destruct s as [ rows nextKey | arr ]; simpl; intros Hwf.
  - apply (rowsOk_keysAscend rows 0%N nextKey); [ exact Hwf | lia ].
  - exact Hwf.
Qed.

(** Records that never were in an indexed store carry no key, and an
    empty indexed store keeps them. *)
Lemma keyless_keeps (es : list Rec.rec) :
  Forall (fun e => Rec.id e = None) es ->
  forall lo gen, StoreInv.keysAscend lo gen es = true.
Proof.
  induction 1 as [ | e es He Hes IH ]; intros lo gen; simpl.
  - reflexivity.
  - rewrite He. apply IH.
Qed.

End ImportFacts.

(** ** [getState] and the heap *)

Module HeapFacts.
Local Open Scope list_scope.
Import Json Heap.

(** Writes at an address leave every other address as it was. *)
Lemma mutateAt_other (l l' : loc) (ms : list mutation) :
  l' <> l ->
  forall h : gmap loc object, mutateAt l ms h !! l' = h !! l'.
Proof.
  intros Hne. unfold mutateAt.
  induction ms as [ | m ms IH ]; intros h; simpl.
  - reflexivity.
  - rewrite IH. apply lookup_alter_ne. congruence.
Qed.

Lemma mutateAt_dom (l : loc) (ms : list mutation) :
  forall h : gmap loc object, dom (mutateAt l ms h) = dom h.
Proof.
  unfold mutateAt. induction ms as [ | m ms IH ]; intros h; simpl.
  - reflexivity.
  - rewrite IH. apply leibniz_equiv. apply dom_alter.
Qed.

(** The object that [getState] returns is a new one, and the heap it
    found is still there. *)
Lemma getState_fresh (stateRef : loc) (h h1 : gmap loc object) (r : loc) :
  getState stateRef h = Some (r, h1) ->
  h !! r = None
  /\ r <> stateRef
  /\ (forall l, l <> r -> l ∈ dom h -> h1 !! l = h !! l)
  /\ exists o, h !! stateRef = Some o /\ h1 !! r = Some (reparseProps o).
Proof.
  unfold getState. destruct (h !! stateRef) as [ o | ] eqn:Ho; [ | discriminate ].
  intros H. injection H as <- <-.
  set (copy := fresh (dom h)).
  set (parsed := fresh (dom (<[copy := o]> h))).
  assert (Hcopy : copy ∉ dom h) by apply is_fresh.
  assert (Hparsed : parsed ∉ dom (<[copy := o]> h)) by apply is_fresh.
  rewrite dom_insert_L in Hparsed.
  assert (Hr : h !! parsed = None).
  { apply not_elem_of_dom. set_solver. }
  split; [ exact Hr | split; [ | split ] ].
  - intros ->. rewrite Ho in Hr. discriminate Hr.
  - intros l Hl Hin. rewrite lookup_insert_ne by congruence.
    rewrite lookup_insert_ne; [ reflexivity | ].
    intros <-. contradiction.
  - exists o. split; [ reflexivity | apply lookup_insert_eq ].
Qed.

(** [getState] returns whenever the state object is there. *)
Lemma getState_defined (stateRef : loc) (h : gmap loc object) (o : object) :
  h !! stateRef = Some o ->
  exists r h1, getState stateRef h = Some (r, h1).
Proof.
  intros Ho. unfold getState. rewrite Ho. eexists _, _. reflexivity.
Qed.

(** The properties of the state object after their JSON reading are the
    value of [getState] of the engine. *)
Lemma reparseProps_state (g : Forge.Engine) :
  JObj (reparseProps (Forge.stateObject (Forge.state g))) = Forge.getState g.
Proof. reflexivity. Qed.

End HeapFacts.
(** * The properties of the engine *)

Module Properties.
Local Open Scope list_scope.
Import JsString Json Forge Chain.

Section Platform.
Variable sha256Hex : string -> string.
Variable finiteToString : float -> string.
Variable stringToNumber : string -> float.

Local Abbreviation linkOk := (Forge.linkOk sha256Hex finiteToString).
Local Abbreviation loopStep := (Forge.loopStep finiteToString).
Local Abbreviation accrued := (Chain.accrued finiteToString).
Local Abbreviation roundAcc := (Forge.roundAcc stringToNumber).
Local Abbreviation replayLoop := (Forge.replayLoop sha256Hex finiteToString).
Local Abbreviation linked := (Chain.linked sha256Hex finiteToString).
Local Abbreviation firstBroken := (Chain.firstBroken sha256Hex finiteToString).
Local Abbreviation accepted := (Chain.accepted sha256Hex finiteToString).
Local Abbreviation rebuildFromZero :=
  (Forge.rebuildFromZero sha256Hex finiteToString stringToNumber).
Local Abbreviation verify := (Forge.verify sha256Hex finiteToString).
Local Abbreviation log := (Forge.log sha256Hex finiteToString).
Local Abbreviation session := (Forge.session sha256Hex finiteToString).
Local Abbreviation importLog :=
  (Forge.importLog sha256Hex finiteToString stringToNumber).

(** C3, as amended: the [streak] that [rebuildFromZero] computes is, in
    every case, the number of times the date differs from the date counted
    last along the records that the replay accepts (every record, when the
    chain verifies).  It is the number of distinct calendar dates among
    their timestamps provided that equal dates stand together among them,
    as they do under timestamps that never go back a day. *)
Theorem streak_counts_distinct_days (g : Engine) :
  streak (state (snd (rebuildFromZero g)))
  = dayChanges None (days (accepted GENESIS (Store.getAll (store g))))
  /\ (contiguous (days (accepted GENESIS (Store.getAll (store g)))) ->
      streak (state (snd (rebuildFromZero g)))
      = distinctDays (accepted GENESIS (Store.getAll (store g))))
  /\ (ok (verify g) = true ->
      accepted GENESIS (Store.getAll (store g)) = Store.getAll (store g)).
Proof.
  assert (Hchanges : streak (state (snd (rebuildFromZero g)))
                     = dayChanges None (days (accepted GENESIS (Store.getAll (store g))))).
  { unfold Forge.rebuildFromZero. cbn [snd state saveMeta streak].
    destruct (RebuildFacts.replayLoop_accepted sha256Hex finiteToString
                (Store.getAll (store g)) loopStart) as (_ & _ & Hs & _).
    cbv zeta in Hs. rewrite Hs, AccrualFacts.fold_loopStep_streak.
    reflexivity. }
  split; [ exact Hchanges | split ].
  - intros Hdays. rewrite Hchanges. apply AccrualFacts.dayChanges_distinct. exact Hdays.
  - intros Hok. unfold Forge.verify in Hok.
    rewrite ReplayFacts.verifyLoop_ok_linked in Hok.
    apply RebuildFacts.accepted_linked. exact Hok.
Qed.


(** C10: [log] adds 1 to the [xp] in memory for a [click] and a
    [quest:complete]; the replay adds nothing for them, so over a chain of
    such records alone [rebuildFromZero] leaves [xp] at 0, before the call
    and after it. *)
Theorem click_bump_discarded (g : Engine) (now nonce ty : string)
    (data : option jsval) :
  ty = "click" \/ ty = "quest:complete" ->
  Forall clickish (Store.getAll (store g)) ->
  let g1 := snd (log now nonce ty data g) in
  xp (state g1) = (xp (state g) + one)%float
  /\ Forall clickish (Store.getAll (store g1))
  /\ xp (state (snd (rebuildFromZero g))) = zero
  /\ xp (state (snd (rebuildFromZero g1))) = zero
  /\ (forall acc e, clickish e -> Forge.accrue finiteToString acc e = acc).
Proof.
  intros Hty Hall g1.
  cut (xp (state g1) = (xp (state g) + one)%float
       /\ Forall clickish (Store.getAll (store g1))
       /\ xp (state (snd (rebuildFromZero g))) = zero
       /\ xp (state (snd (rebuildFromZero g1))) = zero).
  { intros (H1 & H2 & H3 & H4). repeat split; try assumption.
    intros acc e He. apply AccrualFacts.accrue_clickish. exact He. }
  assert (Hall1 : Forall clickish (Store.getAll (store g1))).
  { subst g1. unfold Forge.log, appendEvent. cbn [snd store saveMeta].
    destruct (String.eqb ty "click" || String.eqb ty "quest:complete");
      cbn [store];
      apply (StoreFacts.put_types (fun t => t = "click" \/ t = "quest:complete"));
      assumption. }
  split; [ | split; [ exact Hall1 | split ] ].
  - subst g1. unfold Forge.log, appendEvent. cbn [snd].
    destruct Hty as [ -> | -> ]; reflexivity.
  - unfold Forge.rebuildFromZero. cbn [snd state saveMeta xp].
    rewrite AccrualFacts.replayLoop_clickish by exact Hall. reflexivity.
  - unfold Forge.rebuildFromZero. cbn [snd state saveMeta xp].
    rewrite AccrualFacts.replayLoop_clickish by exact Hall1. reflexivity.
Qed.

(** C6, as amended: when a stored record is broken, [rebuildFromZero]
    returns [{ ok: false }] and no index; the index of the first broken
    record is what [verify] returns as [errorIndex].  The loop reads
    nothing from that record on, and the store is left as it was. *)
Theorem replay_stops_at_first_break (g : Engine) (i : nat) :
  firstBroken (Store.getAll (store g)) i ->
  fst (rebuildFromZero g) = mkResult false None None
  /\ verify g = mkResult false (Some i) None
  /\ store (snd (rebuildFromZero g)) = store g
  /\ (forall e tail,
         Store.getAll (store g) !! i = Some e ->
         replayLoop (take i (Store.getAll (store g)) ++ e :: tail) loopStart
         = replayLoop (Store.getAll (store g)) loopStart).
Proof.
  intros Hfirst.
  destruct (RebuildFacts.firstBroken_split _ _ _ _ Hfirst) as (bad & Hsplit & Hgood & Hbad).
  split; [ | split; [ | split ] ].
  - rewrite (RebuildFacts.rebuild_break _ _ _ g _ _ _ Hsplit Hgood Hbad). reflexivity.
  - unfold Forge.verify. rewrite Hsplit at 1.
    rewrite ReplayFacts.verifyLoop_break by assumption.
    destruct Hfirst as [(e & He & _) _]. apply lookup_lt_Some in He.
    rewrite length_take. do 2 f_equal. lia.
  - reflexivity.
  - intros e tail He.
    assert (e = bad) as ->.
    { destruct Hfirst as [(e' & He' & _) _]. apply lookup_lt_Some in He'.
      rewrite Hsplit in He. rewrite lookup_app_r in He by (rewrite length_take; lia).
      rewrite length_take in He.
      replace (i - i `min` List.length (Store.getAll (store g))) with 0 in He by lia.
      simpl in He. congruence. }
    remember (take i (Store.getAll (store g))) as good eqn:Egood.
    remember (drop (S i) (Store.getAll (store g))) as rest eqn:Erest.
    rewrite Hsplit.
    rewrite !(ReplayFacts.replayLoop_break sha256Hex finiteToString) by assumption.
    reflexivity.
Qed.

(** C9: when the replay meets its first broken record at index [i], it
    still writes the state and the metadata slot: [rootHash] and [lastHash]
    are the head of the [i] records before it, [xp] and [streak] are what
    those records accrue, [events] counts every stored record, and the slot
    holds this state. *)
Theorem failed_replay_persists_prefix (g : Engine) (i : nat) :
  firstBroken (Store.getAll (store g)) i ->
  let valid := take i (Store.getAll (store g)) in
  let g' := snd (rebuildFromZero g) in
  ok (fst (rebuildFromZero g)) = false
  /\ rootHash (state g') = chainHead GENESIS valid
  /\ lastHash g' = chainHead GENESIS valid
  /\ xp (state g') = roundAcc (accrued valid)
  /\ streak (state g') = dayChanges None (days valid)
  /\ events (state g') = List.length (Store.getAll (store g))
  /\ meta g' = Some (mkMeta (lastHash g') (state g')).
Proof.
  intros Hfirst valid g'.
  destruct (RebuildFacts.firstBroken_split _ _ _ _ Hfirst) as (bad & Hsplit & Hgood & Hbad).
  subst g'. rewrite (RebuildFacts.rebuild_break _ _ _ g _ _ _ Hsplit Hgood Hbad).
  repeat split.
Qed.

(** C1: take an engine that starts with an empty store, on either back
    end, and any sequence of awaited calls that make records, each through
    [appendEvent]: [log], firings of the heartbeat timer, [appendEvent]
    itself, whatever the entries, times and nonces.  Then [verify] returns
    [{ ok: true }], and the store holds one record for each call that
    reached [appendEvent]. *)
Theorem appended_chain_verifies (opts : Options) (indexed : bool)
    (calls : list Call) :
  let g := session calls (fresh opts indexed) in
  verify g = mkResult true None None
  /\ List.length (Store.getAll (store g)) = List.length (List.filter appends calls).
Proof.
  intros g. subst g.
  destruct (AppendFacts.session_inSync sha256Hex finiteToString calls
              (fresh opts indexed) (AppendFacts.fresh_inSync _ _ opts indexed))
    as [(_ & Hlinked & _) Hlen].
  split.
  - unfold Forge.verify. apply ReplayFacts.verifyLoop_linked. exact Hlinked.
  - rewrite Hlen. destruct indexed; reflexivity.
Qed.

(** C7, as amended: when no record of the imported chain has the local
    [rootHash] as its [prev], [importLog] returns [merged = 0] and leaves
    the stored records as they were; the engine is then what a replay of
    the local store makes it, which is the engine as it was whenever a
    replay was the last thing that wrote its state. *)
Theorem divergent_import_merges_nothing (g : Engine) (j : LogJson)
    (es : list Rec.rec) :
  entries j = Some es ->
  Forall (fun e => Rec.prev e <> rootHash (state g)) es ->
  fst (importLog (Some j) g) = mkResult true None (Some 0)
  /\ store (snd (importLog (Some j) g)) = store g
  /\ snd (importLog (Some j) g) = snd (rebuildFromZero g)
  /\ (forall g0, g = snd (rebuildFromZero g0) -> snd (importLog (Some j) g) = g).
Proof.
  intros Hes Hall. unfold Forge.importLog. rewrite Hes.
  rewrite (ImportFacts.mergeLoop_none es _ _ _ Hall).
  assert (Hsame : mkEngine (options g) (store g) (meta g) (lastHash g) (state g) = g)
    by (destruct g; reflexivity).
  rewrite Hsame. repeat split.
  intros g0 ->. reflexivity.
Qed.

(** A verified chain, exported and imported into a fresh engine whose
    store keeps the records, is merged whole and replays there as it
    replays at home. *)
Lemma import_replays_export (g : Engine) (opts : Options) (indexed : bool) :
  Chain.linked sha256Hex finiteToString GENESIS (Store.getAll (store g)) = true ->
  StoreInv.keeps indexed (Store.getAll (store g)) ->
  let r := importLog (Some (exportLog g)) (fresh opts indexed) in
  fst r = mkResult true None (Some (List.length (Store.getAll (store g))))
  /\ derived (state (snd r)) = derived (state (snd (rebuildFromZero g))).
Proof.
  intros Hok Hkeeps r.
  assert (Hr : r = (mkResult true None (Some (List.length (Store.getAll (store g)))),
                    snd (rebuildFromZero
                           (mkEngine opts
                              (Chain.putAll (Store.getAll (store g)) (Store.empty indexed))
                              None GENESIS initialState)))).
  { subst r. unfold Forge.importLog, exportLog. cbn [entries fresh state rootHash initialState store].
    rewrite (ImportFacts.mergeLoop_linked sha256Hex finiteToString _ _ _ _ Hok).
    reflexivity. }
  pose proof (ImportFacts.putAll_keeps indexed _ Hkeeps) as Hsame.
  split; [ rewrite Hr; reflexivity | ].
  rewrite Hr. unfold Forge.rebuildFromZero, derived.
  cbn [snd fst state saveMeta store xp streak rootHash events].
  rewrite <- (ReplayFacts.replayLoop_sameFields sha256Hex finiteToString _ _ Hsame).
  rewrite <- (Forall2_length _ _ _ Hsame). reflexivity.
Qed.


(** The round trip between two engines on the same kind of store: what a
    sequence of calls left on one, exported and imported into a fresh
    other, replays there to the state it replays to at home. *)
Corollary session_round_trip (opts opts' : Options) (indexed : bool)
    (calls : list Call) :
  let g := session calls (fresh opts indexed) in
  let r := importLog (Some (exportLog g)) (fresh opts' indexed) in
  fst r = mkResult true None (Some (List.length (List.filter appends calls)))
  /\ derived (state (snd r)) = derived (state (snd (rebuildFromZero g))).
Proof.
  intros g r.
  destruct (AppendFacts.session_inSync sha256Hex finiteToString calls
              (fresh opts indexed) (AppendFacts.fresh_inSync _ _ opts indexed))
    as [(Hwf & Hlinked & _) Hlen].
  fold g in Hwf, Hlinked, Hlen.
  assert (Hkeeps : StoreInv.keeps indexed (Store.getAll (store g))).
  { pose proof (ImportFacts.wf_export_keeps (store g) Hwf) as H.
    unfold g in H at 1.
    rewrite (AppendFacts.session_indexed sha256Hex finiteToString) in H.
    destruct indexed; exact H. }
  destruct (import_replays_export g opts' indexed Hlinked Hkeeps) as (Hres & Hder).
  split; [ | exact Hder ].
  fold r in Hres. rewrite Hres, Hlen. destruct indexed; reflexivity.
Qed.

(** C4, as amended: from an empty chain, after [log("xp", {amount: 5})],
    [log("xp", {amount: 3})] and [log("heartbeat", {})], [getState()]
    reports [events] 3 and the [xp] it had, 0: [log] adds to [xp] only for
    a [click] and a [quest:complete].  After the next replay, which finds
    the chain whole, [getState()] reports [xp] 8 and [events] 3. *)
Theorem three_logs_scenario (opts : Options) (indexed : bool)
    (t1 t2 t3 n1 n2 n3 : string) :
  let g1 := snd (log t1 n1 "xp" (Some (JObj [("amount", JNum 5%float)])) (fresh opts indexed)) in
  let g2 := snd (log t2 n2 "xp" (Some (JObj [("amount", JNum 3%float)])) g1) in
  let g3 := snd (log t3 n3 "heartbeat" (Some (JObj [])) g2) in
  member "xp" (getState g3) = Some (JNum zero)
  /\ member "events" (getState g3) = Some (JNum 3%float)
  /\ fst (rebuildFromZero g3) = mkResult true None None
  /\ member "xp" (getState (snd (rebuildFromZero g3))) = Some (JNum 8%float)
  /\ member "events" (getState (snd (rebuildFromZero g3))) = Some (JNum 3%float).
Proof.
  intros g1 g2 g3.
  assert (Hsync : StoreInv.inSync sha256Hex finiteToString g3).
  { subst g3 g2 g1. do 3 apply AppendFacts.log_inSync. apply AppendFacts.fresh_inSync. }
  destruct Hsync as (_ & Hlinked & _).
  rewrite (RebuildFacts.rebuild_linked _ _ _ g3 Hlinked).
  split; [ reflexivity | split; [ reflexivity | split; [ reflexivity | ] ] ].
  subst g3 g2 g1. destruct indexed; split; reflexivity.
Qed.

End Platform.

(** C8: for every state of the engine, held by the object at [stateRef],
    [getState] returns a new object whose value is the JSON reading of
    the state, [getState] of the engine.  Whatever a caller then writes to
    that object or deletes from it, the state object and every other
    object the heap held stay as they were, and a later [getState] returns
    one more new object with that same value.  The state holds numbers and
    a string, so whatever stands under a key of the returned object
    belongs to that object alone. *)
Theorem getState_returns_isolated_copy (g : Engine) (stateRef : Heap.loc)
    (h : gmap Heap.loc Heap.object) :
  h !! stateRef = Some (Heap.ofState (state g)) ->
  exists r h1,
    Heap.getState stateRef h = Some (r, h1)
    /\ h !! r = None
    /\ Heap.valueAt r h1 = Some (getState g)
    /\ forall ms,
        let h2 := Heap.mutateAt r ms h1 in
        h2 !! stateRef = Some (Heap.ofState (state g))
        /\ (forall l, l ∈ dom h -> h2 !! l = h !! l)
        /\ exists r' h3,
            Heap.getState stateRef h2 = Some (r', h3)
            /\ r' <> r /\ r' <> stateRef
            /\ Heap.valueAt r' h3 = Some (getState g).
Proof.
  intros Ho.
  destruct (HeapFacts.getState_defined _ _ _ Ho) as (r & h1 & Hget).
  exists r, h1.
  destruct (HeapFacts.getState_fresh _ _ _ _ Hget) as (Hnew & Hne & Hkept & o & Ho' & Hsnap).
  assert (o = Heap.ofState (state g)) as -> by congruence.
  split; [ exact Hget | split; [ exact Hnew | split ] ].
  { unfold Heap.valueAt. cbv zeta. rewrite Hsnap. reflexivity. }
  intros ms h2.
  assert (Hothers : forall l, l ∈ dom h -> h2 !! l = h !! l).
  { intros l Hl. subst h2.
    assert (l <> r) by (intros ->; apply elem_of_dom in Hl as [? Hl]; congruence).
    rewrite HeapFacts.mutateAt_other by assumption. apply Hkept; assumption. }
  assert (Hstate : h2 !! stateRef = Some (Heap.ofState (state g))).
  { rewrite Hothers; [ exact Ho | apply elem_of_dom; eexists; exact Ho ]. }
  split; [ exact Hstate | split; [ exact Hothers | ] ].
  destruct (HeapFacts.getState_defined _ _ _ Hstate) as (r' & h3 & Hget2).
  destruct (HeapFacts.getState_fresh _ _ _ _ Hget2) as (Hnew' & Hne' & _ & o' & Ho2 & Hsnap').
  assert (o' = Heap.ofState (state g)) as -> by congruence.
  exists r', h3. split; [ exact Hget2 | split; [ | split; [ exact Hne' | ] ] ].
  - intros ->. subst h2.
    assert (Hdom : r ∈ dom (Heap.mutateAt r ms h1)).
    { rewrite HeapFacts.mutateAt_dom. apply elem_of_dom. eexists. exact Hsnap. }
    apply elem_of_dom in Hdom as [x Hx]. congruence.
  - unfold Heap.valueAt. cbv zeta. rewrite Hsnap'. reflexivity.
Qed.

(** *** The properties on runs of the engine *)

Import Run.

(** Two values that a boolean reading tells apart are not equal. *)
Ltac differ_by f :=
  let H := fresh "H" in
  intros H; apply (f_equal f) in H; vm_compute in H; discriminate H.

(** The second record of [tampered] is its first broken one. *)
Lemma tampered_first_broken :
  firstBroken sha256Hex finiteToString (Store.getAll (store tampered)) 1.
Proof.
  split.
  - eexists. split; [ vm_compute; reflexivity | vm_compute; reflexivity ].
  - intros j Hj (e & He & Hbad). assert (j = 0) as -> by lia.
    vm_compute in He. injection He as <-. vm_compute in Hbad. discriminate Hbad.
Qed.

(** C1 on a run: a [log], a heartbeat and a direct [appendEvent] on an
    empty [localStorage] leave three records that verify. *)
Example appended_chain_verifies_run :
  let g :=
    Forge.session sha256Hex finiteToString
      [ CallLog "2025-03-01T09:00:00.000Z" "k3v9x" "xp" (amount 5);
        CallTick true "/" "2025-03-01T09:00:15.000Z" "p0q2m";
        CallAppend "z7c1d" (Entry.mk "focus" (JObj [("path", JStr "/")])
                                     "2025-03-01T09:00:20.000Z" "app" "anon") ]
      (fresh defaultOptions false) in
  verify g = mkResult true None None /\ List.length (Store.getAll (store g)) = 3.
Proof. vm_compute. split; reflexivity. Qed.



(** C3 fails as stated: the three records of [clockWentBack] bear two
    dates, and the replay counts three. *)
Lemma streak_counts_a_returning_day_again :
  ok (verify clockWentBack) = true
  /\ streak (state (snd (rebuildFromZero clockWentBack))) = 3
  /\ distinctDays (Store.getAll (store clockWentBack)) = 2
  /\ streak (state (snd (rebuildFromZero clockWentBack)))
     <> distinctDays (Store.getAll (store clockWentBack)).
Proof.
  repeat split; try (vm_compute; reflexivity).
  intros H. vm_compute in H. discriminate H.
Qed.

(** C3, as amended, on a run: the three records of [twoDays] bear two
    dates in the order of time. *)
Lemma streak_counts_distinct_days_witness :
  contiguous (days (Chain.accepted sha256Hex finiteToString GENESIS
                      (Store.getAll (store twoDays))))
  /\ streak (state (snd (rebuildFromZero twoDays)))
     = distinctDays (Chain.accepted sha256Hex finiteToString GENESIS
                       (Store.getAll (store twoDays)))
  /\ distinctDays (Chain.accepted sha256Hex finiteToString GENESIS
                     (Store.getAll (store twoDays))) = 2.
Proof.
  assert (Hdays : contiguous (days (Chain.accepted sha256Hex finiteToString GENESIS
                                      (Store.getAll (store twoDays)))))
    by (apply RebuildFacts.contiguousb_sound; vm_compute; reflexivity).
  split; [ exact Hdays | split; [ | vm_compute; reflexivity ] ].
  exact (proj1 (proj2 (streak_counts_distinct_days sha256Hex finiteToString
                         stringToNumber twoDays)) Hdays).
Defined.

(** C4 fails as stated: right after the three calls [getState()] reports
    [xp] 0, not 8. *)
Lemma three_logs_leave_xp_unchanged :
  member "xp" (getState threeLogs) = Some (JNum zero)
  /\ member "events" (getState threeLogs) = Some (JNum 3%float)
  /\ member "xp" (getState threeLogs) <> Some (JNum 8%float).
Proof.
  repeat split; try (vm_compute; reflexivity).
  differ_by (fun o => match o with Some (JNum x) => is_zero x | _ => false end).
Qed.



(** An amount that is a string: after [log("xp", {amount: "5"})] and
    [log("xp", {amount: 3})] the chain verifies and the replay reads the
    text [053]. *)
Example text_amount_is_appended :
  ok (fst (rebuildFromZero textAmount)) = true
  /\ numericAmount (fst (log "2025-03-01T09:00:00.000Z" "k3v9x" "xp"
                            (Some (JObj [("amount", JStr "5")])) start))
     = false
  /\ xp (state (snd (rebuildFromZero textAmount))) = 53%float.
Proof. repeat split; vm_compute; reflexivity. Qed.

(** C6 fails as stated: on [tampered], whose first broken record is at
    index 1, the object that [rebuildFromZero] returns has [ok] false and
    no index. *)
Lemma rebuild_returns_no_index :
  firstBroken sha256Hex finiteToString (Store.getAll (store tampered)) 1
  /\ ok (fst (rebuildFromZero tampered)) = false
  /\ errorIndex (fst (rebuildFromZero tampered)) = None
  /\ errorIndex (fst (rebuildFromZero tampered)) <> Some 1.
Proof.
  split; [ exact tampered_first_broken | ].
  repeat split; try (vm_compute; reflexivity).
  intros H. vm_compute in H. discriminate H.
Qed.

(** C6, as amended, on a run: [tampered]. *)
Lemma replay_stops_at_first_break_witness :
  firstBroken sha256Hex finiteToString (Store.getAll (store tampered)) 1
  /\ fst (rebuildFromZero tampered) = mkResult false None None
  /\ verify tampered = mkResult false (Some 1) None
  /\ store (snd (rebuildFromZero tampered)) = store tampered.
Proof.
  destruct (replay_stops_at_first_break sha256Hex finiteToString stringToNumber
              tampered 1 tampered_first_broken) as (Hres & Hver & Hstore & _).
  split; [ exact tampered_first_broken | ].
  split; [ exact Hres | split; [ exact Hver | exact Hstore ] ].
Defined.

(** C7 fails as stated: the local engine holds the first record of
    [threeLogs]; the chain of [threeLogs] starts with that record, whose
    [prev] is the sentinel and not the local head, and its two other
    records are merged. *)
Lemma import_merges_past_a_foreign_first_record :
  option_map Rec.prev (Store.getAll (store threeLogs) !! 0) = Some GENESIS
  /\ rootHash (state (snd (rebuildFromZero afterFirst))) <> GENESIS
  /\ merged (fst (importLog (Some (exportLog threeLogs)) (snd (rebuildFromZero afterFirst))))
     = Some 2
  /\ merged (fst (importLog (Some (exportLog threeLogs)) (snd (rebuildFromZero afterFirst))))
     <> Some 0
  /\ List.length (Store.getAll (store (snd (importLog (Some (exportLog threeLogs))
                                               (snd (rebuildFromZero afterFirst))))))
     = 3.
Proof.
  repeat split; try (vm_compute; reflexivity);
    intros H; vm_compute in H; discriminate H.
Qed.

(** C7, as amended, on a run: the chain of [threeLogs] offered to the
    engine of [oneClick] after its replay. *)
Lemma divergent_import_merges_nothing_witness :
  entries (exportLog threeLogs) = Some (Store.getAll (store threeLogs))
  /\ Forall (fun e => Rec.prev e <> rootHash (state (snd (rebuildFromZero oneClick))))
            (Store.getAll (store threeLogs))
  /\ fst (importLog (Some (exportLog threeLogs)) (snd (rebuildFromZero oneClick)))
     = mkResult true None (Some 0)
  /\ snd (importLog (Some (exportLog threeLogs)) (snd (rebuildFromZero oneClick)))
     = snd (rebuildFromZero oneClick).
Proof.
  assert (Hall : Forall (fun e => Rec.prev e <> rootHash (state (snd (rebuildFromZero oneClick))))
                        (Store.getAll (store threeLogs))).
  { vm_compute.
    repeat (constructor; [ let H := fresh in intros H; discriminate H | ]).
    constructor. }
  destruct (divergent_import_merges_nothing sha256Hex finiteToString stringToNumber
              (snd (rebuildFromZero oneClick)) (exportLog threeLogs)
              (Store.getAll (store threeLogs)) eq_refl Hall)
    as (Hres & _ & _ & Hsame).
  split; [ reflexivity | split; [ exact Hall | split; [ exact Hres | ] ] ].
  exact (Hsame oneClick eq_refl).
Defined.

(** C9 on a run: [tampered] keeps the 5 points of its first record and
    counts all three records. *)
Lemma failed_replay_persists_prefix_witness :
  firstBroken sha256Hex finiteToString (Store.getAll (store tampered)) 1
  /\ xp (state (snd (rebuildFromZero tampered))) = 5%float
  /\ events (state (snd (rebuildFromZero tampered))) = 3
  /\ meta (snd (rebuildFromZero tampered))
     = Some (mkMeta (lastHash (snd (rebuildFromZero tampered)))
                    (state (snd (rebuildFromZero tampered)))).
Proof.
  destruct (failed_replay_persists_prefix sha256Hex finiteToString stringToNumber
              tampered 1 tampered_first_broken)
    as (_ & _ & _ & Hxp & _ & Hev & Hmeta).
  split; [ exact tampered_first_broken | ].
  split; [ exact Hxp | split; [ exact Hev | exact Hmeta ] ].
Defined.

(** C10 on a run: one [click] on a new engine. *)
Lemma click_bump_discarded_witness :
  ("click" = "click" \/ "click" = "quest:complete")
  /\ Forall clickish (Store.getAll (store start))
  /\ xp (state oneClick) = (xp (state start) + one)%float
  /\ xp (state (snd (rebuildFromZero oneClick))) = zero.
Proof.
  assert (Hty : "click" = "click" \/ "click" = "quest:complete") by (left; reflexivity).
  assert (Hall : Forall clickish (Store.getAll (store start))) by constructor.
  destruct (click_bump_discarded sha256Hex finiteToString stringToNumber start
              "2025-03-01T09:00:00.000Z" "k3v9x" "click"
              (Some (JObj [("path", JStr "/")])) Hty Hall)
    as (Hbump & _ & _ & Hzero & _).
  split; [ exact Hty | split; [ exact Hall | split; [ exact Hbump | exact Hzero ] ] ].
Defined.

(** C8 on a run: the snapshot of a new engine's state, then meddled
    with. *)
Lemma getState_returns_isolated_copy_witness :
  Heap.heap0 !! 1%positive = Some (Heap.ofState (state start))
  /\ exists r h1,
      Heap.getState 1%positive Heap.heap0 = Some (r, h1)
      /\ Heap.valueAt r h1 = Some (getState start)
      /\ Heap.mutateAt r Heap.meddling h1 !! 1%positive
         = Some (Heap.ofState (state start)).
Proof.
  assert (Ho : Heap.heap0 !! 1%positive = Some (Heap.ofState (state start)))
    by (vm_compute; reflexivity).
  split; [ exact Ho | ].
  destruct (getState_returns_isolated_copy start 1%positive Heap.heap0 Ho)
    as (r & h1 & Hget & _ & Hval & Hafter).
  exists r, h1. split; [ exact Hget | split; [ exact Hval | ] ].
  exact (proj1 (Hafter Heap.meddling)).
Defined.

End Properties.

(** * Further properties of the code *)

(** ** The fallback digest *)

Module DigestFacts.
Local Open Scope list_scope.
Import JsString Digest.

Lemma length_append (s1 s2 : string) :
  String.length (s1 +:+ s2) = String.length s1 + String.length s2.
Proof. induction s1 as [ | c s1 IH ]; simpl; [ | rewrite IH ]; reflexivity. Qed.

Lemma length_zeros (n : nat) : String.length (zeros n) = n.
Proof. induction n as [ | n IH ]; simpl; [ | rewrite IH ]; reflexivity. Qed.

Lemma length_substring (s : string) :
  forall n m, n + m <= String.length s -> String.length (substring n m s) = m.
Proof.
  induction s as [ | c s IH ]; intros n m H; simpl in *.
  - destruct n, m; simpl; try reflexivity; lia.
  - destruct n as [ | n ].
    + destruct m as [ | m ]; simpl; [ reflexivity | ].
      rewrite IH by lia. reflexivity.
    + apply IH. lia.
Qed.

(** [slice(-8)] of a string of eight code units or more has eight. *)
Lemma length_slice_last (n : nat) (s : string) :
  n <= String.length s -> String.length (slice_last n s) = n.
Proof. intros H. unfold slice_last. apply length_substring. lia. Qed.

(** Cutting to 32 bits commutes with [^]. *)
Lemma lxor_mod_pow2 (a b n : N) :
  (N.lxor (a mod 2 ^ n) b mod 2 ^ n = N.lxor a b mod 2 ^ n)%N.
Proof.
  apply N.bits_inj. intros i.
  destruct (N.lt_ge_cases i n) as [ Hlt | Hge ].
  - rewrite !N.mod_pow2_bits_low, !N.lxor_spec, N.mod_pow2_bits_low by assumption.
    reflexivity.
  - rewrite !N.mod_pow2_bits_high by assumption. reflexivity.
Qed.

Lemma xorStep_swap (h : N) (a b : ascii) :
  xorStep (xorStep h a) b = xorStep (xorStep h b) a.
Proof.
  unfold xorStep. rewrite !lxor_mod_pow2.
  rewrite !N.lxor_assoc, (N.lxor_comm (N_of_ascii a)). reflexivity.
Qed.

Lemma xorStep_twice (h : N) (c : ascii) :
  xorStep (xorStep h c) c = (h mod 2 ^ 32)%N.
Proof.
  unfold xorStep. rewrite lxor_mod_pow2.
  rewrite N.lxor_assoc, N.lxor_nilpotent, N.lxor_0_r. reflexivity.
Qed.

Lemma xorFold_fold (s : string) :
  forall h, xorFold h s = fold_left xorStep (list_ascii_of_string s) h.
Proof. induction s as [ | c s IH ]; intros h; simpl; [ | rewrite IH ]; reflexivity. Qed.

Lemma fold_xorStep_perm (l l' : list ascii) :
  Permutation l l' ->
  forall h, fold_left xorStep l h = fold_left xorStep l' h.
Proof.
  induction 1 as [ | x l l' _ IH | x y l | l l' l'' _ IH1 _ IH2 ]; intros h; simpl.
  - reflexivity.
  - apply IH.
  - rewrite xorStep_swap. reflexivity.
  - rewrite IH1. apply IH2.
Qed.

(** Inputs with the same code units fold to the same number. *)
Lemma xorFold_perm (s s' : string) :
  Permutation (list_ascii_of_string s) (list_ascii_of_string s') ->
  fallbackHex s = fallbackHex s'.
Proof.
  intros H. unfold fallbackHex.
  rewrite !xorFold_fold, (fold_xorStep_perm _ _ H). reflexivity.
Qed.

(** X1: the fallback of [sha256Hex] returns 64 code units whatever the
    input, as the digest of the platform does. *)
Theorem fallback_digest_has_64_units (str : string) :
  String.length (fallbackHex str) = 64.
Proof.
  unfold fallbackHex, padEnd0.
  assert (H8 : String.length (slice_last 8 ("00000000" +:+ toString16 (xorFold 0 str))) = 8).
  { apply length_slice_last. rewrite length_append. simpl. lia. }
  rewrite length_append, length_zeros, H8. reflexivity.
Qed.

(** X2: the fallback digest reads the code units of its input and not
    their order: two inputs with the same code units, each as often, have
    the same digest. *)
Theorem fallback_digest_ignores_order (s s' : string) :
  Permutation (list_ascii_of_string s) (list_ascii_of_string s') ->
  fallbackHex s = fallbackHex s'.
Proof. apply xorFold_perm. Qed.

(** X2 on a run: an amount 35 and an amount 53. *)
Lemma fallback_digest_ignores_order_witness :
  Permutation (list_ascii_of_string "amount:35") (list_ascii_of_string "amount:53")
  /\ fallbackHex "amount:35" = fallbackHex "amount:53".
Proof.
  assert (H : Permutation (list_ascii_of_string "amount:35")
                          (list_ascii_of_string "amount:53")).
  { simpl. do 7 apply Permutation_skip. apply Permutation_swap. }
  split; [ exact H | exact (fallback_digest_ignores_order _ _ H) ].
Defined.

End DigestFacts.

(** ** The integrity walk *)

Module IntegrityFacts.
Local Open Scope list_scope.
Import JsString Json Forge Chain.

Lemma chars_append (s1 s2 : string) :
  list_ascii_of_string (s1 +:+ s2)
  = list_ascii_of_string s1 ++ list_ascii_of_string s2.
Proof. induction s1 as [ | c s1 IH ]; simpl; [ | rewrite IH ]; reflexivity. Qed.

Section Platform.
Variable sha256Hex : string -> string.
Variable finiteToString : float -> string.
Variable stringToNumber : string -> float.

Local Abbreviation linkOk := (Forge.linkOk sha256Hex finiteToString).
Local Abbreviation recomputed := (Forge.recomputed sha256Hex finiteToString).
Local Abbreviation replayLoop := (Forge.replayLoop sha256Hex finiteToString).
Local Abbreviation verifyLoop := (Forge.verifyLoop sha256Hex finiteToString).
Local Abbreviation linked := (Chain.linked sha256Hex finiteToString).
Local Abbreviation rebuildFromZero :=
  (Forge.rebuildFromZero sha256Hex finiteToString stringToNumber).
Local Abbreviation verify := (Forge.verify sha256Hex finiteToString).

Lemma replayLoop_ok (es : list Rec.rec) :
  forall v, l_ok (replayLoop es v) = l_ok v && linked (l_prev v) es.
Proof.
  induction es as [ | e es IH ]; intros v; simpl.
  - rewrite andb_true_r. reflexivity.
  - destruct (linkOk (l_prev v) e); simpl.
    + rewrite IH. reflexivity.
    + rewrite andb_false_r. reflexivity.
Qed.

Lemma verifyLoop_index (es : list Rec.rec) :
  forall k prev i,
    errorIndex (verifyLoop k prev es) = Some i ->
    k <= i < k + List.length es.
Proof.
  induction es as [ | e es IH ]; intros k prev i H; simpl in *.
  - discriminate H.
  - destruct (linkOk prev e).
    + apply IH in H. lia.
    + injection H as <-. lia.
Qed.

Lemma verifyLoop_shape (es : list Rec.rec) :
  forall k prev,
    ok (verifyLoop k prev es) = true <-> errorIndex (verifyLoop k prev es) = None.
Proof.
  induction es as [ | e es IH ]; intros k prev; simpl.
  - split; reflexivity.
  - destruct (linkOk prev e); [ apply IH | ].
    simpl. split; discriminate.
Qed.

(** X3: [rebuildFromZero] and [verify] walk the chain alike: the [ok] of
    the one is the [ok] of the other.  [verify] gives an [errorIndex]
    exactly when its [ok] is false, and the index is that of a stored
    record. *)
Theorem rebuild_and_verify_agree (g : Engine) :
  ok (fst (rebuildFromZero g)) = ok (verify g)
  /\ (ok (verify g) = true <-> errorIndex (verify g) = None)
  /\ (forall i, errorIndex (verify g) = Some i ->
                i < List.length (Store.getAll (store g))).
Proof.
  split; [ | split ].
  - unfold Forge.rebuildFromZero, Forge.verify. cbn [fst ok].
    rewrite replayLoop_ok, ReplayFacts.verifyLoop_ok_linked. reflexivity.
  - apply verifyLoop_shape.
  - intros i H. apply verifyLoop_index in H. lia.
Qed.

(** X4: what [rebuildFromZero] returns and leaves depends on the options,
    the stored events and [lastAt] alone: the [xp], [streak], [events],
    [rootHash], [lastHash] and the metadata slot it finds are overwritten,
    not read.  So a second replay right after a first changes nothing. *)
Theorem rebuild_reads_the_store_only (g g' : Engine) :
  options g = options g' ->
  store g = store g' ->
  lastAt (state g) = lastAt (state g') ->
  rebuildFromZero g = rebuildFromZero g'
  /\ rebuildFromZero (snd (rebuildFromZero g)) = rebuildFromZero g.
Proof.
  intros Ho Hs Hl. split; [ | reflexivity ].
  unfold Forge.rebuildFromZero, saveMeta. cbn [options store lastHash state].
  rewrite Ho, Hs, Hl. reflexivity.
Qed.

(** A record that links as the one it replaces, with its hash, leaves the
    walk as it was. *)
Lemma verifyLoop_insert_alike (e' : Rec.rec) (es : list Rec.rec) :
  forall i k prev e,
    es !! i = Some e ->
    (forall p, linkOk p e' = linkOk p e) ->
    Rec.hash e' = Rec.hash e ->
    verifyLoop k prev (<[i := e']> es) = verifyLoop k prev es.
Proof.
  induction es as [ | x es IH ]; intros i k prev e Hi Hlink Hhash.
  - destruct i; discriminate Hi.
  - destruct i as [ | i ]; simpl in *.
    + injection Hi as ->. rewrite Hlink, Hhash. reflexivity.
    + destruct (linkOk prev x); [ | reflexivity ].
      apply (IH i _ _ e); assumption.
Qed.

(** A record that fails where the one it replaces passed stops the walk
    at its index. *)
Lemma verifyLoop_insert_bad (e' : Rec.rec) (es : list Rec.rec) :
  forall i k prev e,
    linked prev es = true ->
    es !! i = Some e ->
    linkOk (Rec.prev e) e' = false ->
    verifyLoop k prev (<[i := e']> es) = mkResult false (Some (k + i)) None.
Proof.
  induction es as [ | x es IH ]; intros i k prev e Hlinked Hi Hbad.
  - destruct i; discriminate Hi.
  - simpl in Hlinked. apply andb_true_iff in Hlinked as [Hx Hes].
    destruct i as [ | i ]; simpl in *.
    + injection Hi as ->.
      assert (Rec.prev e = prev) as Hp.
      { unfold Forge.linkOk in Hx. apply andb_true_iff in Hx as [Hx _].
        apply String.eqb_eq in Hx. exact Hx. }
      rewrite <- Hp, Hbad. do 2 f_equal. lia.
    + rewrite Hx. rewrite (IH i (S k) (Rec.hash x) e) by assumption.
      do 2 f_equal. lia.
Qed.

(** X5: in a chain that verifies, a stored record whose [prev] or whose
    [hash] is changed, or whose [nonce] or [data] is changed to one that
    the digest tells from the old one, makes [verify] return [ok] false
    with the index of that very record. *)
Theorem altered_record_is_pinpointed (g : Engine) (es : list Rec.rec)
    (i : nat) (e : Rec.rec) :
  ok (verify (Alter.with_events es g)) = true ->
  es !! i = Some e ->
  let report e' := verify (Alter.with_events (<[i := e']> es) g) in
  (forall p, p <> Rec.prev e ->
             report (Alter.with_prev p e) = mkResult false (Some i) None)
  /\ (forall h, h <> Rec.hash e ->
                report (Alter.with_hash h e) = mkResult false (Some i) None)
  /\ (forall n, recomputed (Alter.with_nonce n e) <> recomputed e ->
                report (Alter.with_nonce n e) = mkResult false (Some i) None)
  /\ (forall d, recomputed (Alter.with_data d e) <> recomputed e ->
                report (Alter.with_data d e) = mkResult false (Some i) None).
Proof.
  intros Hok Hi report.
  unfold Forge.verify in Hok. cbn [Alter.with_events store Store.getAll] in Hok.
  rewrite ReplayFacts.verifyLoop_ok_linked in Hok.
  assert (Hlink : linkOk (Rec.prev e) e = true).
  { clear report. revert i Hi Hok. generalize GENESIS.
    induction es as [ | x es IH ]; intros prev i Hi Hlinked.
    - destruct i; discriminate Hi.
    - simpl in Hlinked. apply andb_true_iff in Hlinked as [Hx Hes].
      destruct i as [ | i ]; simpl in Hi.
      + injection Hi as ->.
        assert (Hp := Hx). unfold Forge.linkOk in Hp.
        apply andb_true_iff in Hp as [Hp _]. apply String.eqb_eq in Hp.
        rewrite Hp. exact Hx.
      + exact (IH _ _ Hi Hes). }
  assert (Hhash : sha256Hex (Rec.prev e +:+ "|" +:+ Payload.ofRec finiteToString e
                             +:+ "|" +:+ Rec.nonce e) = Rec.hash e).
  { unfold Forge.linkOk in Hlink. apply andb_true_iff in Hlink as [_ Hh].
    apply String.eqb_eq in Hh. exact Hh. }
  assert (Hgen : forall e', linkOk (Rec.prev e) e' = false ->
                            report e' = mkResult false (Some i) None).
  { intros e' Hbad. unfold report, Forge.verify.
    cbn [Alter.with_events store Store.getAll].
    rewrite (verifyLoop_insert_bad e' es i 0 GENESIS e Hok Hi Hbad). reflexivity. }
  repeat split.
  - intros p Hp. apply Hgen. unfold Forge.linkOk. cbn [Rec.prev Alter.with_prev].
    apply String.eqb_neq in Hp. rewrite Hp. reflexivity.
  - intros h Hh. apply Hgen. unfold Forge.linkOk, Forge.recomputed, Payload.ofRec.
    cbn [Rec.prev Rec.hash Rec.nonce Rec.type Rec.data Rec.t Rec.appId Rec.profileId
         Alter.with_hash].
    unfold Payload.ofRec in Hhash. rewrite Hhash.
    assert (String.eqb (Rec.hash e) h = false) as ->
      by (apply String.eqb_neq; congruence).
    apply andb_false_r.
  - intros n Hn. apply Hgen. unfold Forge.linkOk.
    assert (String.eqb (recomputed (Alter.with_nonce n e)) (Rec.hash (Alter.with_nonce n e))
            = false) as ->; [ | apply andb_false_r ].
    apply String.eqb_neq. cbn [Rec.hash Alter.with_nonce].
    rewrite <- Hhash. exact Hn.
  - intros d Hd. apply Hgen. unfold Forge.linkOk.
    assert (String.eqb (recomputed (Alter.with_data d e)) (Rec.hash (Alter.with_data d e))
            = false) as ->; [ | apply andb_false_r ].
    apply String.eqb_neq. cbn [Rec.hash Alter.with_data].
    rewrite <- Hhash. exact Hd.
Qed.

End Platform.

(** X6: with the fallback digest, a stored record can be changed without
    [verify] noticing: whenever the changed record keeps [prev] and
    [hash] and the code units of its payload and nonce are those of the
    old one in another order, [verify] returns what it returned before. *)
Theorem fallback_misses_reordered_record (finiteToString : float -> string)
    (g : Engine) (es : list Rec.rec) (i : nat) (e e' : Rec.rec) :
  es !! i = Some e ->
  Rec.prev e' = Rec.prev e ->
  Rec.hash e' = Rec.hash e ->
  Permutation
    (list_ascii_of_string (Payload.ofRec finiteToString e' +:+ "|" +:+ Rec.nonce e'))
    (list_ascii_of_string (Payload.ofRec finiteToString e +:+ "|" +:+ Rec.nonce e)) ->
  Forge.verify Digest.fallbackHex finiteToString (Alter.with_events (<[i := e']> es) g)
  = Forge.verify Digest.fallbackHex finiteToString (Alter.with_events es g).
Proof.
  intros Hi Hprev Hhash Hperm. unfold Forge.verify.
  cbn [Alter.with_events store Store.getAll].
  apply (verifyLoop_insert_alike _ _ e' es i 0 GENESIS e Hi); [ | exact Hhash ].
  intros p. unfold Forge.linkOk, Forge.recomputed. rewrite Hprev, Hhash.
  f_equal. f_equal.
  apply DigestFacts.xorFold_perm.
  rewrite !(chars_append (Rec.prev e)), !(chars_append "|").
  do 2 apply Permutation_app_head. exact Hperm.
Qed.

(** X4 on a run: the replay of [threeLogs], and the replay of what that
    replay left. *)
Lemma rebuild_reads_the_store_only_witness :
  Run.rebuildFromZero (snd (Run.rebuildFromZero Run.threeLogs))
  = Run.rebuildFromZero Run.threeLogs
  /\ Run.rebuildFromZero (Run.oneClick) = Run.rebuildFromZero (snd (Run.rebuildFromZero Run.oneClick)).
Proof.
  split.
  - exact (proj2 (rebuild_reads_the_store_only Run.sha256Hex Run.finiteToString
                    Run.stringToNumber Run.threeLogs Run.threeLogs
                    eq_refl eq_refl eq_refl)).
  - exact (proj1 (rebuild_reads_the_store_only Run.sha256Hex Run.finiteToString
                    Run.stringToNumber Run.oneClick
                    (snd (Run.rebuildFromZero Run.oneClick))
                    eq_refl eq_refl eq_refl)).
Defined.

(** X5 on a run: the record of [thirtyFive] with another [prev], and with
    36 for its amount. *)
Lemma altered_record_is_pinpointed_witness :
  Run.verify
    (Alter.with_events (<[0 := Alter.with_prev "0000" Run.recordThirtyFive]>
                          [Run.recordThirtyFive]) Run.thirtyFive)
  = mkResult false (Some 0) None
  /\ Run.verify
       (Alter.with_events (<[0 := Alter.with_data (Run.amount 36) Run.recordThirtyFive]>
                             [Run.recordThirtyFive]) Run.thirtyFive)
     = mkResult false (Some 0) None.
Proof.
  assert (Hok : ok (Run.verify (Alter.with_events [Run.recordThirtyFive] Run.thirtyFive))
                = true) by (vm_compute; reflexivity).
  assert (Hi : [Run.recordThirtyFive] !! 0 = Some Run.recordThirtyFive) by reflexivity.
  destruct (altered_record_is_pinpointed Run.sha256Hex Run.finiteToString
              Run.thirtyFive [Run.recordThirtyFive] 0 Run.recordThirtyFive Hok Hi)
    as (Hprev & _ & _ & Hdata).
  split.
  - apply Hprev. vm_compute. intros H. discriminate H.
  - apply Hdata. vm_compute. intros H. discriminate H.
Defined.

(** X6 on a run: the record of [thirtyFive] with 53 for its 35. *)
Lemma fallback_misses_reordered_record_witness :
  Run.verify
    (Alter.with_events (<[0 := Alter.with_data (Run.amount 53) Run.recordThirtyFive]>
                          [Run.recordThirtyFive]) Run.thirtyFive)
  = Run.verify (Alter.with_events [Run.recordThirtyFive] Run.thirtyFive)
  /\ ok (Run.verify (Alter.with_events [Run.recordThirtyFive] Run.thirtyFive)) = true.
Proof.
  split; [ | vm_compute; reflexivity ].
  apply (fallback_misses_reordered_record Run.finiteToString Run.thirtyFive
           [Run.recordThirtyFive] 0 Run.recordThirtyFive
           (Alter.with_data (Run.amount 53) Run.recordThirtyFive)).
  - reflexivity.
  - reflexivity.
  - reflexivity.
  - vm_compute.
    repeat (first [ apply perm_swap | apply perm_skip ]).
Defined.

End IntegrityFacts.

(** ** The store, once more *)

Module PutFacts.
Local Open Scope list_scope.
Import Store.

Lemma rowsOk_bound (rows : list (N * Rec.rec)) :
  forall lo bound bound',
    StoreInv.rowsOk lo bound rows -> (bound <= bound')%N ->
    StoreInv.rowsOk lo bound' rows.
Proof.
  induction rows as [ | [k r] rows IH ]; intros lo bound bound' H Hb; simpl in *.
  - exact I.
  - destruct H as (H1 & H2 & H3 & H4). repeat split; try assumption; try lia.
    apply (IH _ bound); assumption.
Qed.

Lemma rowsOk_lower (rows : list (N * Rec.rec)) :
  forall lo lo' bound,
    StoreInv.rowsOk lo bound rows -> (lo' <= lo)%N ->
    StoreInv.rowsOk lo' bound rows.
Proof.
  destruct rows as [ | [k r] rows ]; intros lo lo' bound H Hl; simpl in *.
  - exact I.
  - destruct H as (H1 & H2 & H3 & H4). repeat split; try assumption; lia.
Qed.

(** [put] under a key keeps the rows in order, whatever the key. *)
Lemma putRow_rowsOk (k : N) (r : Rec.rec) (rows : list (N * Rec.rec)) :
  forall lo bound,
    StoreInv.rowsOk lo bound rows ->
    (lo <= k)%N -> Rec.id r = Some k ->
    StoreInv.rowsOk lo (N.max bound (k + 1)) (putRow k r rows).
Proof.
  induction rows as [ | [k' r'] rows IH ]; intros lo bound Hok Hlo Hid; simpl.
  - repeat split; try assumption; lia.
  - destruct Hok as (H1 & H2 & H3 & H4).
    destruct (N.ltb_spec k k').
    + simpl. repeat split; try assumption; try lia.
      apply (rowsOk_bound _ _ bound); [ | lia ].
      apply (rowsOk_lower _ (k' + 1)%N); [ exact H4 | lia ].
    + destruct (N.eqb_spec k k') as [ -> | Hne ].
      * simpl. repeat split; try assumption; try lia.
        apply (rowsOk_bound _ _ bound); [ exact H4 | lia ].
      * simpl. repeat split; try assumption; try lia.
        apply IH; [ exact H4 | lia | exact Hid ].
Qed.

Lemma putRow_In (k : N) (r : Rec.rec) (rows : list (N * Rec.rec)) :
  In (k, r) (putRow k r rows).
Proof.
  induction rows as [ | [k' r'] rows IH ]; simpl.
  - left. reflexivity.
  - destruct (k <? k')%N; [ left; reflexivity | ].
    destruct (k =? k')%N; [ left; reflexivity | right; exact IH ].
Qed.

Lemma putRow_length (k : N) (r : Rec.rec) (rows : list (N * Rec.rec)) :
  List.length rows <= List.length (putRow k r rows) <= S (List.length rows).
Proof.
  induction rows as [ | [k' r'] rows IH ]; simpl.
  - lia.
  - destruct (k <? k')%N; [ simpl; lia | ].
    destruct (k =? k')%N; simpl; lia.
Qed.

Lemma rows_above (rows : list (N * Rec.rec)) :
  forall lo bound k x,
    StoreInv.rowsOk lo bound rows -> In (k, x) rows -> (lo <= k)%N.
Proof.
  induction rows as [ | [k1 r1] rows IH ]; intros lo bound k x H Hi.
  - destruct Hi.
  - simpl in H. destruct H as (Ha & Hb & Hc & Hd).
    destruct Hi as [ Hi | Hi ]; [ injection Hi as -> ->; exact Ha | ].
    specialize (IH _ _ _ _ Hd Hi). lia.
Qed.

(** A key that is there: the row under it is replaced, no row is added,
    and the rows under other keys stay. *)
Lemma putRow_replace (k : N) (r : Rec.rec) (rows : list (N * Rec.rec)) :
  forall lo bound,
    StoreInv.rowsOk lo bound rows ->
    In k (List.map fst rows) ->
    List.length (putRow k r rows) = List.length rows
    /\ forall k' x, In (k', x) (putRow k r rows) ->
                    (k' = k /\ x = r) \/ (k' <> k /\ In (k', x) rows).
Proof.
  induction rows as [ | [k0 r0] rows IH ]; intros lo bound Hok Hin; simpl in *.
  - destruct Hin.
  - destruct Hok as (H1 & H2 & H3 & H4).
    assert (Hrest : forall k' x, In (k', x) rows -> (k0 < k')%N).
    { intros k' x Hi. pose proof (rows_above _ _ _ _ _ H4 Hi). lia. }
    destruct (N.ltb_spec k k0) as [ Hlt | Hge ].
    + exfalso. destruct Hin as [ <- | Hin ]; [ lia | ].
      apply in_map_iff in Hin as ([k' x] & Hk & Hi). simpl in Hk. subst k'.
      specialize (Hrest _ _ Hi). lia.
    + destruct (N.eqb_spec k k0) as [ -> | Hne ].
      * split; [ reflexivity | ].
        intros k' x [ Hi | Hi ]; [ injection Hi as <- <-; left; split; reflexivity | ].
        right. split; [ | right; exact Hi ].
        specialize (Hrest _ _ Hi). lia.
      * destruct Hin as [ <- | Hin ]; [ contradiction | ].
        destruct (IH _ _ H4 Hin) as [Hlen Hrows]. split; [ simpl; lia | ].
        intros k' x [ Hi | Hi ].
        -- injection Hi as <- <-. right. split; [ congruence | left; reflexivity ].
        -- destruct (Hrows _ _ Hi) as [ Hl | [Hl Hr] ]; [ left; exact Hl | ].
           right. split; [ exact Hl | right; exact Hr ].
Qed.

Lemma wf_rows_id (rows : list (N * Rec.rec)) :
  forall lo bound k x,
    StoreInv.rowsOk lo bound rows -> In (k, x) rows -> Rec.id x = Some k.
Proof.
  induction rows as [ | [k0 r0] rows IH ]; intros lo bound k x Hok Hin; simpl in *.
  - destruct Hin.
  - destruct Hok as (_ & _ & Hid & Hrest).
    destruct Hin as [ Hin | Hin ]; [ injection Hin as <- <-; exact Hid | ].
    exact (IH _ _ _ _ Hrest Hin).
Qed.

(** A record whose JSON reading is read once more is that reading. *)
Lemma reparsed_stable (arr : list Rec.rec) :
  Forall (fun e => Rec.reparse e = e) arr -> List.map Rec.reparse arr = arr.
Proof.
  induction 1 as [ | x arr Hx _ IH ]; simpl; [ reflexivity | ].
  rewrite Hx, IH. reflexivity.
Qed.

Lemma put_wf (r : Rec.rec) (s : store) : StoreInv.wf s -> StoreInv.wf (put r s).
Proof.
  intros Hwf. destruct (Rec.id r) as [ k | ] eqn:Hid.
  - destruct s as [ rows nextKey | arr ]; simpl in *.
    + rewrite Hid. simpl. apply putRow_rowsOk; [ exact Hwf | lia | exact Hid ].
    + apply Forall_forall. intros x Hx.
      apply list_elem_of_In, in_map_iff in Hx as (y & <- & _).
      apply JsonFacts.rec_reparse_idempotent.
  - apply StoreFacts.put_fresh_wf; assumption.
Qed.

(** On a store as [put] leaves it, a record without [id] goes to the end
    and nothing else moves. *)
Lemma put_fresh_extends (r : Rec.rec) (s : store) :
  StoreInv.wf s -> Rec.id r = None ->
  exists r',
    getAll (put r s) = getAll s ++ [r']
    /\ (r' = Rec.reparse r \/ Chain.sameFields r r').
Proof.
  intros Hwf Hid.
  destruct (StoreFacts.put_fresh_getAll r s Hwf Hid) as (r' & Hall & Hr').
  exists r'. split; [ | exact Hr' ].
  rewrite Hall. f_equal. destruct s as [ rows nextKey | arr ]; simpl in *.
  - apply List.map_id.
  - apply reparsed_stable. exact Hwf.
Qed.

Lemma rows_below (rows : list (N * Rec.rec)) :
  forall lo bound k x,
    StoreInv.rowsOk lo bound rows -> In (k, x) rows -> (k < bound)%N.
Proof.
  induction rows as [ | [k1 r1] rows IH ]; intros lo bound k x H Hi.
  - destruct Hi.
  - simpl in H. destruct H as (Ha & Hb & Hc & Hd).
    destruct Hi as [ Hi | Hi ]; [ injection Hi as -> ->; exact Hb | ].
    exact (IH _ _ _ _ Hd Hi).
Qed.

(** A key that is not there: one row is added. *)
Lemma putRow_fresh_length (k : N) (r : Rec.rec) (rows : list (N * Rec.rec)) :
  ~ In k (List.map fst rows) ->
  List.length (putRow k r rows) = S (List.length rows).
Proof.
  induction rows as [ | [k' r'] rows IH ]; simpl; intros Hk.
  - reflexivity.
  - destruct (k <? k')%N; [ reflexivity | ].
    destruct (N.eqb_spec k k') as [ -> | Hne ].
    + exfalso. apply Hk. left. reflexivity.
    + simpl. rewrite IH; [ reflexivity | ]. intros Hin. apply Hk. right. exact Hin.
Qed.

(** The rows under other keys stay. *)
Lemma putRow_keeps (k : N) (r : Rec.rec) (rows : list (N * Rec.rec)) :
  forall k' x, In (k', x) rows -> k' <> k -> In (k', x) (putRow k r rows).
Proof.
  induction rows as [ | [k0 r0] rows IH ]; intros k' x Hin Hne; simpl.
  - destruct Hin.
  - destruct (k <? k0)%N; [ right; exact Hin | ].
    destruct (N.eqb_spec k k0) as [ -> | Hk ].
    + destruct Hin as [ Hin | Hin ]; [ injection Hin as <- <-; contradiction | ].
      right. exact Hin.
    + destruct Hin as [ Hin | Hin ]; [ left; exact Hin | right ].
      apply IH; assumption.
Qed.

Lemma taken_In (k : N) (rows : list (N * Rec.rec)) :
  existsb (N.eqb k) (List.map fst rows) = true <-> In k (List.map fst rows).
Proof.
  rewrite existsb_exists. split.
  - intros (x & Hx & Heq). apply N.eqb_eq in Heq. subst x. exact Hx.
  - intros Hin. exists k. split; [ exact Hin | apply N.eqb_refl ].
Qed.

(** X7: [put] keeps the store in order, on either back end and for any
    record, with a key of its own or without: the keys of the indexed
    store stay ascending and below its generator, the array of
    [localStorage] stays made of JSON readings.  The record put is then
    among [getAll], with its key or as its JSON reading.  The store has
    one record more, except when the record brought a key that the
    indexed store held: then it has as many as before.  Every record that
    was stored under another key is still stored. *)
Theorem put_keeps_the_store_in_order (r : Rec.rec) (s : store) :
  StoreInv.wf s ->
  StoreInv.wf (put r s)
  /\ (exists r', In r' (getAll (put r s))
                 /\ (Chain.sameFields r r' \/ r' = Rec.reparse r))
  /\ List.length (getAll (put r s))
     = (if StoreInv.taken r s then List.length (getAll s)
        else S (List.length (getAll s)))
  /\ (forall x, In x (getAll s) ->
                StoreInv.taken r s = false \/ Rec.id x <> Rec.id r ->
                In x (getAll (put r s))).
Proof.
  intros Hwf. split; [ apply put_wf; exact Hwf | split; [ | split ] ].
  - destruct s as [ rows nextKey | arr ]; simpl.
    + destruct (Rec.id r) as [ k | ] eqn:Hid; simpl.
      * exists r. split; [ | left; reflexivity ].
        apply in_map_iff. exists (k, r). split; [ reflexivity | apply putRow_In ].
      * exists (Rec.with_id (Some nextKey) r). split; [ | left; reflexivity ].
        apply in_map_iff. eexists (nextKey, _). split; [ reflexivity | apply putRow_In ].
    + exists (Rec.reparse r). split; [ | right; reflexivity ].
      rewrite List.map_app. apply in_or_app. right. left. reflexivity.
  - destruct s as [ rows nextKey | arr ]; simpl in *.
    + destruct (Rec.id r) as [ k | ] eqn:Hid; simpl; rewrite !List.length_map.
      * destruct (existsb (N.eqb k) (List.map fst rows)) eqn:Htaken.
        -- apply taken_In in Htaken.
           exact (proj1 (putRow_replace k r rows 0%N nextKey Hwf Htaken)).
        -- apply putRow_fresh_length. intros Hin. apply taken_In in Hin. congruence.
      * apply putRow_fresh_length. intros Hin.
        apply in_map_iff in Hin as ([k' x] & Hk & Hi). simpl in Hk. subst k'.
        pose proof (rows_below _ _ _ _ _ Hwf Hi). lia.
    + rewrite List.length_map, List.length_app. simpl. lia.
  - intros x Hx Hother. destruct s as [ rows nextKey | arr ]; simpl in *.
    + apply in_map_iff in Hx as ([k' y] & Hy & Hi). simpl in Hy. subst y.
      pose proof (wf_rows_id _ _ _ _ _ Hwf Hi) as Hidx.
      destruct (Rec.id r) as [ k | ] eqn:Hid; simpl.
      * apply in_map_iff. exists (k', x). split; [ reflexivity | ].
        apply putRow_keeps; [ exact Hi | ].
        intros ->. destruct Hother as [ Hfree | Hne ]; [ | congruence ].
        assert (In k (List.map fst rows)) as Hin
          by (apply in_map_iff; exists (k, x); split; [ reflexivity | exact Hi ]).
        apply taken_In in Hin. congruence.
      * apply in_map_iff. exists (k', x). split; [ reflexivity | ].
        apply putRow_keeps; [ exact Hi | ].
        pose proof (rows_below _ _ _ _ _ Hwf Hi). lia.
    + rewrite List.map_app, (reparsed_stable arr Hwf). apply in_or_app. left. exact Hx.
Qed.

(** X7 on a run: a record without a key, then a record with the key of
    the first row, put into the store of [threeLogs]. *)
Lemma put_keeps_the_store_in_order_witness :
  StoreInv.wf (Forge.store Run.threeLogs)
  /\ List.length (getAll (put Run.firstRecord (Forge.store Run.threeLogs))) = 4
  /\ List.length (getAll (put Run.storedFirst (Forge.store Run.threeLogs))) = 3.
Proof.
  assert (Hwf : StoreInv.wf (Forge.store Run.threeLogs)).
  { vm_compute. repeat split; intros H; discriminate H. }
  split; [ exact Hwf | split ].
  - exact (proj1 (proj2 (proj2 (put_keeps_the_store_in_order Run.firstRecord _ Hwf)))).
  - exact (proj1 (proj2 (proj2 (put_keeps_the_store_in_order Run.storedFirst _ Hwf)))).
Defined.

End PutFacts.

(** ** Sessions over a store that already holds a chain *)

Module SessionFacts.
Local Open Scope list_scope.
Import JsString Json Forge Chain.

Section Platform.
Variable sha256Hex : string -> string.
Variable finiteToString : float -> string.
Variable stringToNumber : string -> float.

Local Abbreviation linkOk := (Forge.linkOk sha256Hex finiteToString).
Local Abbreviation linked := (Chain.linked sha256Hex finiteToString).
Local Abbreviation verifyLoop := (Forge.verifyLoop sha256Hex finiteToString).
Local Abbreviation verify := (Forge.verify sha256Hex finiteToString).
Local Abbreviation appendEvent := (Forge.appendEvent sha256Hex finiteToString).
Local Abbreviation heartbeatTick := (Forge.heartbeatTick sha256Hex finiteToString).
Local Abbreviation log := (Forge.log sha256Hex finiteToString).
Local Abbreviation perform := (Forge.perform sha256Hex finiteToString).
Local Abbreviation session := (Forge.session sha256Hex finiteToString).
Local Abbreviation rebuildFromZero :=
  (Forge.rebuildFromZero sha256Hex finiteToString stringToNumber).

Local Abbreviation counted := StoreInv.counted.

(** What a call that reaches [appendEvent] does to the engine. *)
Lemma perform_appends (c : Call) (g : Engine) :
  appends c = true ->
  exists rec,
    Rec.id rec = None
    /\ Rec.prev rec = lastHash g
    /\ linkOk (lastHash g) rec = true
    /\ store (perform c g) = Store.put rec (store g)
    /\ lastHash (perform c g) = Rec.hash rec
    /\ rootHash (state (perform c g)) = Rec.hash rec
    /\ events (state (perform c g)) = S (events (state g)).
Proof.
  intros Hc.
  destruct c as [ now nonce ty data | visible path now nonce | nonce entry ];
    cbn [Forge.perform].
  - unfold Forge.log, Forge.appendEvent. cbn [snd saveMeta].
    eexists. split; [ | split; [ | split; [ apply AppendFacts.built_record_links | ] ] ];
      [ reflexivity | reflexivity | ].
    cbn [store lastHash state options meta Rec.hash].
    destruct (String.eqb ty "click" || String.eqb ty "quest:complete");
      repeat split; reflexivity.
  - simpl in Hc. subst visible. unfold Forge.heartbeatTick, Forge.appendEvent.
    cbn [snd saveMeta].
    eexists. split; [ | split; [ | split; [ apply AppendFacts.built_record_links | ] ] ];
      [ reflexivity | reflexivity | ].
    repeat split; reflexivity.
  - unfold Forge.appendEvent. cbn [snd saveMeta].
    eexists. split; [ | split; [ | split; [ apply AppendFacts.built_record_links | ] ] ];
      [ reflexivity | reflexivity | ].
    repeat split; reflexivity.
Qed.

Lemma perform_idle (c : Call) (g : Engine) : appends c = false -> perform c g = g.
Proof.
  destruct c as [ now nonce ty data | visible path now nonce | nonce entry ];
    simpl; intros H; try discriminate H.
  subst visible. reflexivity.
Qed.

Lemma reparse_links (r : Rec.rec) :
  Rec.prev (Rec.reparse r) = Rec.prev r /\ Rec.hash (Rec.reparse r) = Rec.hash r.
Proof. destruct r; split; reflexivity. Qed.

Lemma sameFields_prev (r r' : Rec.rec) : sameFields r r' -> Rec.prev r = Rec.prev r'.
Proof.
  unfold sameFields. intros H. apply (f_equal Rec.prev) in H.
  destruct r, r'. exact H.
Qed.

(** A call that appends puts one record at the end of a store as [put]
    leaves it, built on [lastHash]. *)
Lemma perform_extends (c : Call) (g : Engine) :
  StoreInv.wf (store g) -> appends c = true ->
  exists r',
    Store.getAll (store (perform c g)) = Store.getAll (store g) ++ [r']
    /\ Rec.prev r' = lastHash g
    /\ Rec.hash r' = lastHash (perform c g)
    /\ linkOk (lastHash g) r' = true
    /\ StoreInv.wf (store (perform c g))
    /\ rootHash (state (perform c g)) = lastHash (perform c g)
    /\ events (state (perform c g)) = S (events (state g)).
Proof.
  intros Hwf Hc.
  destruct (perform_appends c g Hc) as (rec & Hid & Hprev & Hlink & Hs & Hl & Hr & He).
  destruct (PutFacts.put_fresh_extends rec (store g) Hwf Hid) as (r' & Hall & Hr').
  exists r'. rewrite Hs, Hl, Hr, He.
  split; [ exact Hall | ].
  assert (Rec.prev r' = Rec.prev rec /\ Rec.hash r' = Rec.hash rec
          /\ linkOk (lastHash g) r' = linkOk (lastHash g) rec) as (Hp' & Hh' & Hl').
  { destruct Hr' as [ -> | Hsame ].
    - destruct (reparse_links rec) as [Hp Hh].
      rewrite Hp, Hh, ReplayFacts.linkOk_reparse. repeat split.
    - rewrite <- (sameFields_prev _ _ Hsame), <- (ReplayFacts.sameFields_hash _ _ Hsame),
        <- (ReplayFacts.linkOk_sameFields _ _ _ _ _ Hsame). repeat split. }
  rewrite Hp', Hh', Hl'. repeat split; try assumption; try reflexivity.
  apply PutFacts.put_wf. exact Hwf.
Qed.

Lemma verifyLoop_app (es more : list Rec.rec) :
  forall k prev,
    verifyLoop k prev (es ++ more)
    = if linked prev es
      then verifyLoop (k + List.length es) (chainHead prev es) more
      else verifyLoop k prev es.
Proof.
  induction es as [ | e es IH ]; intros k prev; simpl.
  - rewrite Nat.add_0_r. reflexivity.
  - destruct (linkOk prev e); simpl; [ | reflexivity ].
    rewrite IH. replace (S k + List.length es) with (k + S (List.length es)) by lia.
    reflexivity.
Qed.

(** The sessions keep a store as [put] leaves it and only add at its end. *)
Lemma session_extends (calls : list Call) :
  forall g,
    StoreInv.wf (store g) ->
    StoreInv.wf (store (session calls g))
    /\ exists added,
         Store.getAll (store (session calls g)) = Store.getAll (store g) ++ added
         /\ List.length added = List.length (List.filter appends calls).
Proof.
  induction calls as [ | c calls IH ]; intros g Hwf; cbn [Forge.session List.filter].
  - split; [ exact Hwf | ]. exists []. rewrite app_nil_r. split; reflexivity.
  - destruct (appends c) eqn:Hc.
    + destruct (perform_extends c g Hwf Hc) as (r' & Hall & _ & _ & _ & Hwf' & _).
      destruct (IH _ Hwf') as (Hwf'' & added & Hadd & Hlen).
      split; [ exact Hwf'' | ]. exists (r' :: added).
      rewrite Hadd, Hall, <- app_assoc. simpl. rewrite Hlen. split; reflexivity.
    + rewrite (perform_idle c g Hc). apply IH. exact Hwf.
Qed.

(** In step with its store and with its counters right, the engine stays
    so through a session. *)
Lemma session_counted (calls : list Call) :
  forall g,
    StoreInv.inSync sha256Hex finiteToString g -> counted g ->
    StoreInv.inSync sha256Hex finiteToString (session calls g)
    /\ counted (session calls g).
Proof.
  induction calls as [ | c calls IH ]; intros g Hg Hcnt; cbn [Forge.session].
  - split; assumption.
  - destruct (AppendFacts.perform_inSync sha256Hex finiteToString c g Hg) as [Hg' Hlen].
    apply IH; [ exact Hg' | ].
    destruct Hcnt as [He Hr]. destruct (appends c) eqn:Hc.
    + destruct Hg as (Hwf & _ & _).
      destruct (perform_extends c g Hwf Hc) as (r' & _ & _ & _ & _ & _ & Hroot & Hev).
      split; [ | exact Hroot ]. rewrite Hev, Hlen, He. lia.
    + rewrite (perform_idle c g Hc). split; assumption.
Qed.

Lemma rebuilt_inSync (g : Engine) :
  StoreInv.wf (store g) -> ok (verify g) = true ->
  StoreInv.inSync sha256Hex finiteToString (snd (rebuildFromZero g))
  /\ counted (snd (rebuildFromZero g)).
Proof.
  intros Hwf Hok. unfold Forge.verify in Hok.
  rewrite ReplayFacts.verifyLoop_ok_linked in Hok.
  unfold StoreInv.inSync, StoreInv.counted, Forge.rebuildFromZero.
  cbn [snd saveMeta store lastHash state events rootHash].
  rewrite (ReplayFacts.replayLoop_linked sha256Hex finiteToString _ loopStart Hok),
    ReplayFacts.fold_loopStep_prev.
  repeat split; assumption.
Qed.

(** X8: after a replay of a chain that verifies, the engine and its store
    stay in step through every session of calls: the chain still
    verifies, the stored events are the old ones followed by one record
    for each call that appends, [events] is the number of stored events,
    and [rootHash] and [lastHash] are the head of the stored chain. *)
Theorem session_after_replay_stays_in_step (g : Engine) (calls : list Call) :
  StoreInv.wf (store g) ->
  ok (verify g) = true ->
  let g' := session calls (snd (rebuildFromZero g)) in
  verify g' = mkResult true None None
  /\ (exists added,
        Store.getAll (store g') = Store.getAll (store g) ++ added
        /\ List.length added = List.length (List.filter appends calls))
  /\ events (state g') = List.length (Store.getAll (store g'))
  /\ rootHash (state g') = chainHead GENESIS (Store.getAll (store g'))
  /\ lastHash g' = rootHash (state g').
Proof.
  intros Hwf Hok g'.
  destruct (rebuilt_inSync g Hwf Hok) as [Hsync Hcnt].
  destruct (session_counted calls _ Hsync Hcnt) as [(Hwf' & Hlinked & Hhead) [He Hr]].
  fold g' in Hwf', Hlinked, Hhead, He, Hr.
  split; [ apply ReplayFacts.verifyLoop_linked; exact Hlinked | ].
  split; [ | split; [ exact He | split; [ congruence | congruence ] ] ].
  apply (session_extends calls (snd (rebuildFromZero g))). exact Hwf.
Qed.

(** X9: logging does not heal a chain.  Over a stored chain that fails
    the check, whatever is logged afterwards, [verify] keeps returning
    the same [errorIndex]. *)
Theorem logging_does_not_heal (g : Engine) (calls : list Call) :
  StoreInv.wf (store g) ->
  ok (verify g) = false ->
  verify (session calls g) = verify g.
Proof.
  intros Hwf Hok.
  destruct (session_extends calls g Hwf) as (_ & added & Hadd & _).
  unfold Forge.verify in *. rewrite Hadd, verifyLoop_app.
  rewrite ReplayFacts.verifyLoop_ok_linked in Hok. rewrite Hok. reflexivity.
Qed.

(** X10: a call that appends while [lastHash] is not the head of the
    stored chain, as before [init] has run over a store that holds
    events, breaks a chain that verified: [verify] then fails at the
    index of the record just appended. *)
Theorem append_out_of_step_breaks_chain (g : Engine) (c : Call) :
  StoreInv.wf (store g) ->
  ok (verify g) = true ->
  lastHash g <> chainHead GENESIS (Store.getAll (store g)) ->
  appends c = true ->
  verify (perform c g)
  = mkResult false (Some (List.length (Store.getAll (store g)))) None.
Proof.
  intros Hwf Hok Hne Hc.
  destruct (perform_extends c g Hwf Hc) as (r' & Hall & Hprev & _).
  unfold Forge.verify in *. rewrite Hall, verifyLoop_app.
  rewrite ReplayFacts.verifyLoop_ok_linked in Hok. rewrite Hok. simpl.
  unfold Forge.linkOk. rewrite Hprev.
  apply String.eqb_neq in Hne. rewrite Hne. reflexivity.
Qed.

End Platform.

(** X8 on a run: two more calls after the replay of [threeLogs]. *)
Lemma session_after_replay_stays_in_step_witness :
  let g' := Forge.session Run.sha256Hex Run.finiteToString
              [ CallLog "2025-03-02T10:00:00.000Z" "a1b2c" "click" None;
                CallTick false "/" "2025-03-02T10:00:15.000Z" "d3e4f" ]
              (snd (Run.rebuildFromZero Run.threeLogs)) in
  Run.verify g' = mkResult true None None
  /\ events (state g') = 4.
Proof.
  assert (Hwf : StoreInv.wf (store Run.threeLogs)).
  { vm_compute. repeat split; intros H; discriminate H. }
  assert (Hok : ok (Run.verify Run.threeLogs) = true) by (vm_compute; reflexivity).
  intros g'.
  destruct (session_after_replay_stays_in_step Run.sha256Hex Run.finiteToString
              Run.stringToNumber Run.threeLogs
              [ CallLog "2025-03-02T10:00:00.000Z" "a1b2c" "click" None;
                CallTick false "/" "2025-03-02T10:00:15.000Z" "d3e4f" ] Hwf Hok)
    as (Hv & _ & He & _).
  split; [ exact Hv | ].
  etransitivity; [ exact He | vm_compute; reflexivity ].
Defined.

(** X9 on a run: a click logged over the tampered store. *)
Lemma logging_does_not_heal_witness :
  Run.verify (snd (Run.log "2025-03-02T10:00:00.000Z" "a1b2c" "click" None Run.tampered))
  = Run.verify Run.tampered
  /\ Run.verify Run.tampered = mkResult false (Some 1) None.
Proof.
  assert (Hwf : StoreInv.wf (store Run.tampered)).
  { vm_compute. repeat split; intros H; discriminate H. }
  assert (Hok : ok (Run.verify Run.tampered) = false) by (vm_compute; reflexivity).
  split; [ | vm_compute; reflexivity ].
  exact (logging_does_not_heal Run.sha256Hex Run.finiteToString Run.tampered
           [ CallLog "2025-03-02T10:00:00.000Z" "a1b2c" "click" None ] Hwf Hok).
Defined.

(** X10 on a run: a click logged by the module as it is created, over a
    [localStorage] that holds the three events of [threeLocal]. *)
Lemma append_out_of_step_breaks_chain_witness :
  Run.verify
    (snd (Run.log "2025-03-02T10:00:00.000Z" "a1b2c" "click" None
            (Init.closure (Store.getAll (store Run.threeLocal)) None)))
  = mkResult false (Some 3) None.
Proof.
  assert (Hwf : StoreInv.wf (store (Init.closure (Store.getAll (store Run.threeLocal)) None))).
  { vm_compute. repeat constructor. }
  assert (Hok : ok (Run.verify (Init.closure (Store.getAll (store Run.threeLocal)) None))
                = true) by (vm_compute; reflexivity).
  assert (Hne : lastHash (Init.closure (Store.getAll (store Run.threeLocal)) None)
                <> chainHead GENESIS
                     (Store.getAll (store (Init.closure (Store.getAll (store Run.threeLocal))
                                                        None)))).
  { vm_compute. intros H. discriminate H. }
  exact (append_out_of_step_breaks_chain Run.sha256Hex Run.finiteToString
           (Init.closure (Store.getAll (store Run.threeLocal)) None)
           (CallLog "2025-03-02T10:00:00.000Z" "a1b2c" "click" None) Hwf Hok Hne eq_refl).
Defined.

End SessionFacts.

(** ** [importLog], once more *)

Module MergeFacts.
Local Open Scope list_scope.
Import JsString Json Forge Chain.

Lemma mergeLoop_count (es : list Rec.rec) :
  forall prev s n, n <= snd (mergeLoop es prev s n) <= n + List.length es.
Proof.
  induction es as [ | e es IH ]; intros prev s n; simpl.
  - lia.
  - destruct (String.eqb (Rec.prev e) prev).
    + specialize (IH (Rec.hash e) (Store.put e s) (S n)). lia.
    + specialize (IH prev s n). lia.
Qed.

Lemma mergeLoop_indexed (es : list Rec.rec) :
  forall prev s n,
    Store.indexed (fst (mergeLoop es prev s n)) = Store.indexed s.
Proof.
  induction es as [ | e es IH ]; intros prev s n; simpl.
  - reflexivity.
  - destruct (String.eqb (Rec.prev e) prev); rewrite IH;
      [ apply AppendFacts.put_indexed | reflexivity ].
Qed.

(** On [localStorage] the loop only adds at the end of the array. *)
Lemma mergeLoop_local (es : list Rec.rec) :
  forall prev arr n,
    Forall (fun e => Rec.reparse e = e) arr ->
    exists added,
      mergeLoop es prev (Store.LS arr) n = (Store.LS (arr ++ added), n + List.length added)
      /\ List.length added <= List.length es
      /\ Forall (fun e => Rec.reparse e = e) (arr ++ added).
Proof.
  induction es as [ | e es IH ]; intros prev arr n Harr; simpl.
  - exists []. rewrite app_nil_r, Nat.add_0_r. repeat split; [ simpl; lia | exact Harr ].
  - destruct (String.eqb (Rec.prev e) prev).
    + assert (Hput : List.map Rec.reparse (arr ++ [e]) = arr ++ [Rec.reparse e]).
      { rewrite List.map_app, (PutFacts.reparsed_stable arr Harr). reflexivity. }
      rewrite Hput.
      assert (Harr' : Forall (fun e => Rec.reparse e = e) (arr ++ [Rec.reparse e])).
      { apply Forall_app. split; [ exact Harr | ].
        constructor; [ apply JsonFacts.rec_reparse_idempotent | constructor ]. }
      destruct (IH (Rec.hash e) _ (S n) Harr') as (added & Hm & Hlen & Hst).
      exists (Rec.reparse e :: added). rewrite Hm, <- !app_assoc. simpl.
      repeat split; [ f_equal; lia | lia | ].
      rewrite <- app_assoc in Hst. exact Hst.
    + destruct (IH prev arr n Harr) as (added & Hm & Hlen & Hst).
      exists added. repeat split; [ exact Hm | lia | exact Hst ].
Qed.

(** A store that takes the records has them at its end afterwards. *)
Lemma putAll_extends (es : list Rec.rec) (s : Store.store) :
  StoreInv.wf s -> StoreInv.takes s es ->
  exists es',
    Store.getAll (putAll es s) = Store.getAll s ++ es'
    /\ Forall2 sameFields es es'.
Proof.
  destruct s as [ rows gen | arr ]; simpl; intros Hwf Htakes.
  - destruct (ImportFacts.putAll_indexed es rows gen gen Hwf ltac:(lia) Htakes)
      as (es' & gen' & Hput & Hsame).
    exists (List.map snd es'). rewrite Hput. simpl. rewrite List.map_app.
    split; [ reflexivity | exact Hsame ].
  - rewrite (ImportFacts.putAll_local es arr Hwf Htakes). simpl.
    exists es. split; [ reflexivity | ].
    clear. induction es; constructor; [ reflexivity | assumption ].
Qed.

Section Platform.
Variable sha256Hex : string -> string.
Variable finiteToString : float -> string.
Variable stringToNumber : string -> float.

Local Abbreviation linkOk := (Forge.linkOk sha256Hex finiteToString).
Local Abbreviation recomputed := (Forge.recomputed sha256Hex finiteToString).
Local Abbreviation linked := (Chain.linked sha256Hex finiteToString).
Local Abbreviation verifyLoop := (Forge.verifyLoop sha256Hex finiteToString).
Local Abbreviation verify := (Forge.verify sha256Hex finiteToString).
Local Abbreviation replayLoop := (Forge.replayLoop sha256Hex finiteToString).
Local Abbreviation rebuildFromZero :=
  (Forge.rebuildFromZero sha256Hex finiteToString stringToNumber).
Local Abbreviation importLog :=
  (Forge.importLog sha256Hex finiteToString stringToNumber).

Lemma linked_sameFields (es es' : list Rec.rec) :
  Forall2 sameFields es es' ->
  forall prev, linked prev es = linked prev es' /\ chainHead prev es = chainHead prev es'.
Proof.
  induction 1 as [ | r r' es es' Hr _ IH ]; intros prev; simpl.
  - split; reflexivity.
  - rewrite (ReplayFacts.linkOk_sameFields _ _ _ _ _ Hr),
      (ReplayFacts.sameFields_hash _ _ Hr).
    destruct (IH (Rec.hash r')) as [-> ->]. split; reflexivity.
Qed.

(** The store that [importLog] leaves is the one its loop made; the
    replay that follows reads it. *)
Lemma importLog_unfold (j : LogJson) (es : list Rec.rec) (g : Engine) :
  entries j = Some es ->
  let m := mergeLoop es (rootHash (state g)) (store g) 0 in
  importLog (Some j) g
  = (mkResult true None (Some (snd m)),
     snd (rebuildFromZero
            (mkEngine (options g) (fst m) (meta g) (lastHash g) (state g)))).
Proof.
  intros Hes m. unfold Forge.importLog. rewrite Hes. subst m.
  destruct (mergeLoop es (rootHash (state g)) (store g) 0) as [s n]. reflexivity.
Qed.

(** X11: what [importLog] answers.  Its [ok] is true exactly when it was
    given an object with [entries], whatever the records are and whether
    or not the chain verifies afterwards; it never gives an [errorIndex].
    Without [entries] it merges 0 and leaves the engine as it was.  With
    [entries] it merges at most as many records as it was given.  The
    [rootHash] and the [summary] of the object are not read. *)
Theorem importLog_answer (json : option LogJson) (g : Engine) :
  (ok (fst (importLog json g)) = true
   <-> exists j es, json = Some j /\ entries j = Some es)
  /\ errorIndex (fst (importLog json g)) = None
  /\ (ok (fst (importLog json g)) = false ->
      importLog json g = (mkResult false None (Some 0), g))
  /\ (forall j es, json = Some j -> entries j = Some es ->
        (exists n, merged (fst (importLog json g)) = Some n /\ n <= List.length es)
        /\ importLog json g = importLog (Some (mkLogJson (Some es) None None)) g).
Proof.
  split; [ | split; [ | split ] ].
  - split.
    + destruct json as [ j | ]; [ | discriminate ].
      destruct (entries j) as [ es | ] eqn:Hes.
      * intros _. exists j, es. split; [ reflexivity | exact Hes ].
      * unfold Forge.importLog. rewrite Hes. discriminate.
    + intros (j & es & -> & Hes). rewrite (importLog_unfold j es g Hes). reflexivity.
  - destruct json as [ j | ]; [ | reflexivity ].
    destruct (entries j) as [ es | ] eqn:Hes.
    + rewrite (importLog_unfold j es g Hes). reflexivity.
    + unfold Forge.importLog. rewrite Hes. reflexivity.
  - destruct json as [ j | ]; [ | reflexivity ].
    destruct (entries j) as [ es | ] eqn:Hes.
    + rewrite (importLog_unfold j es g Hes). discriminate.
    + unfold Forge.importLog. rewrite Hes. reflexivity.
  - intros j es -> Hes. rewrite (importLog_unfold j es g Hes).
    rewrite (importLog_unfold (mkLogJson (Some es) None None) es g eq_refl).
    split; [ | reflexivity ].
    eexists. split; [ reflexivity | ].
    pose proof (mergeLoop_count es (rootHash (state g)) (store g) 0). lia.
Qed.

(** X12: an engine in step with its store that is given records linked
    from its head, which the store takes at its end, merges them all:
    the stored events are the old ones followed by the given ones, up to
    their keys, the chain verifies, and the state is that of the longer
    chain. *)
Theorem import_extends_a_valid_chain (g : Engine) (j : LogJson) (es : list Rec.rec) :
  StoreInv.inSync sha256Hex finiteToString g ->
  rootHash (state g) = lastHash g ->
  entries j = Some es ->
  linked (rootHash (state g)) es = true ->
  StoreInv.takes (store g) es ->
  let g' := snd (importLog (Some j) g) in
  fst (importLog (Some j) g) = mkResult true None (Some (List.length es))
  /\ (exists es', Store.getAll (store g') = Store.getAll (store g) ++ es'
                  /\ Forall2 sameFields es es')
  /\ verify g' = mkResult true None None
  /\ rootHash (state g') = chainHead (rootHash (state g)) es
  /\ lastHash g' = rootHash (state g')
  /\ events (state g') = List.length (Store.getAll (store g)) + List.length es.
Proof.
  intros (Hwf & Hlinked & Hhead) Hroot Hes Hnew Htakes g'. subst g'.
  rewrite (importLog_unfold j es g Hes).
  rewrite (ImportFacts.mergeLoop_linked sha256Hex finiteToString es _ _ 0 Hnew).
  cbn [fst snd]. split; [ reflexivity | ].
  destruct (putAll_extends es (store g) Hwf Htakes) as (es' & Hall & Hsame).
  destruct (linked_sameFields es es' Hsame (rootHash (state g))) as [Hl Hc].
  assert (Hfull : linked GENESIS (Store.getAll (store g) ++ es') = true).
  { rewrite ReplayFacts.linked_app, Hlinked, <- Hhead, <- Hroot, <- Hl. exact Hnew. }
  unfold Forge.rebuildFromZero, Forge.verify.
  cbn [snd saveMeta store lastHash state events rootHash].
  rewrite Hall.
  rewrite (ReplayFacts.replayLoop_linked sha256Hex finiteToString _ loopStart Hfull),
    ReplayFacts.fold_loopStep_prev.
  cbn [l_prev loopStart].
  split; [ exists es'; split; [ reflexivity | exact Hsame ] | ].
  split; [ apply ReplayFacts.verifyLoop_linked; exact Hfull | ].
  rewrite ReplayFacts.chainHead_app, <- Hhead, <- Hroot, Hc.
  repeat split. rewrite List.length_app, (Forall2_length _ _ _ Hsame). reflexivity.
Qed.

(** X13: [importLog] checks the [prev] of a record, not its digest.  A
    record whose [prev] is the head but whose [hash] is not the digest
    of its fields is merged with [ok] true, and [verify] then fails at
    the index where it was stored. *)
Theorem import_takes_an_unchecked_record (g : Engine) (j : LogJson) (e : Rec.rec) :
  StoreInv.inSync sha256Hex finiteToString g ->
  rootHash (state g) = lastHash g ->
  entries j = Some [e] ->
  Rec.prev e = rootHash (state g) ->
  recomputed e <> Rec.hash e ->
  StoreInv.takes (store g) [e] ->
  fst (importLog (Some j) g) = mkResult true None (Some 1)
  /\ verify (snd (importLog (Some j) g))
     = mkResult false (Some (List.length (Store.getAll (store g)))) None.
Proof.
  intros (Hwf & Hlinked & Hhead) Hroot Hes Hprev Hhash Htakes.
  rewrite (importLog_unfold j [e] g Hes).
  cbn [mergeLoop]. apply String.eqb_eq in Hprev. rewrite Hprev.
  cbn [fst snd]. split; [ reflexivity | ].
  destruct (putAll_extends [e] (store g) Hwf Htakes) as (es' & Hall & Hsame).
  unfold putAll in Hall. cbn [fold_left] in Hall.
  inversion Hsame as [ | ? e' ? rest He' Hrest ]; subst. inversion Hrest; subst.
  unfold Forge.rebuildFromZero, Forge.verify.
  cbn [snd saveMeta store]. rewrite Hall.
  rewrite SessionFacts.verifyLoop_app, Hlinked. simpl.
  rewrite <- (ReplayFacts.linkOk_sameFields _ _ _ _ _ He').
  unfold Forge.linkOk.
  apply String.eqb_neq in Hhash. rewrite Hhash, andb_false_r. reflexivity.
Qed.

(** X14: on the indexed store an imported record that brings the key of
    a stored record takes its place: no record is added, the imported
    one is stored and the one that had the key is gone. *)
Theorem import_overwrites_a_taken_key (g : Engine) (j : LogJson) (e r0 : Rec.rec)
    (k : N) :
  Store.indexed (store g) = true ->
  StoreInv.wf (store g) ->
  In r0 (Store.getAll (store g)) ->
  Rec.id r0 = Some k ->
  Rec.id e = Some k ->
  entries j = Some [e] ->
  Rec.prev e = rootHash (state g) ->
  let g' := snd (importLog (Some j) g) in
  fst (importLog (Some j) g) = mkResult true None (Some 1)
  /\ List.length (Store.getAll (store g')) = List.length (Store.getAll (store g))
  /\ events (state g') = List.length (Store.getAll (store g))
  /\ In e (Store.getAll (store g'))
  /\ (r0 <> e -> ~ In r0 (Store.getAll (store g'))).
Proof.
  intros Hidx Hwf Hin Hid0 Hid Hes Hprev g'. subst g'.
  rewrite (importLog_unfold j [e] g Hes).
  cbn [mergeLoop]. apply String.eqb_eq in Hprev. rewrite Hprev.
  cbn [fst snd]. split; [ reflexivity | ].
  unfold Forge.rebuildFromZero. cbn [snd saveMeta store state events].
  destruct (store g) as [ rows gen | arr ]; [ | discriminate Hidx ].
  simpl in Hwf, Hin. cbn [Store.put]. rewrite Hid. cbn [Store.getAll].
  assert (Hk : In k (List.map fst rows)).
  { apply in_map_iff in Hin as ([k' x] & Hx & Hi). simpl in Hx. subst x.
    pose proof (PutFacts.wf_rows_id _ _ _ _ _ Hwf Hi) as Hk'.
    rewrite Hid0 in Hk'. injection Hk' as ->.
    apply in_map_iff. exists (k', r0). split; [ reflexivity | exact Hi ]. }
  destruct (PutFacts.putRow_replace k e rows 0%N gen Hwf Hk) as [Hlen Hrows].
  rewrite !List.length_map. repeat split; try exact Hlen.
  - apply in_map_iff. exists (k, e). split; [ reflexivity | apply PutFacts.putRow_In ].
  - intros Hne Hr0. apply in_map_iff in Hr0 as ([k' x] & Hx & Hi). simpl in Hx. subst x.
    destruct (Hrows _ _ Hi) as [ [_ Heq] | [Hk' Hi'] ]; [ contradiction | ].
    pose proof (PutFacts.wf_rows_id _ _ _ _ _ Hwf Hi') as Hid'.
    rewrite Hid0 in Hid'. injection Hid' as ->. contradiction.
Qed.

(** X15: on [localStorage] an import only adds at the end of the stored
    array: the stored events are the old ones followed by as many
    records as were merged, whatever the object holds. *)
Theorem import_on_localStorage_appends (g : Engine) (j : LogJson) (es : list Rec.rec)
    (arr : list Rec.rec) :
  store g = Store.LS arr ->
  StoreInv.wf (store g) ->
  entries j = Some es ->
  exists added,
    store (snd (importLog (Some j) g)) = Store.LS (arr ++ added)
    /\ merged (fst (importLog (Some j) g)) = Some (List.length added)
    /\ StoreInv.wf (store (snd (importLog (Some j) g))).
Proof.
  intros Hs Hwf Hes. rewrite (importLog_unfold j es g Hes). rewrite Hs in *.
  simpl in Hwf.
  destruct (mergeLoop_local es (rootHash (state g)) arr 0 Hwf) as (added & Hm & _ & Hst).
  exists added. rewrite Hm. cbn [fst snd]. unfold Forge.rebuildFromZero.
  cbn [snd saveMeta store]. repeat split. exact Hst.
Qed.

End Platform.

(** X12 on a run: the click logged after [thirtyFive], imported into
    [thirtyFive]. *)
Lemma import_extends_a_valid_chain_witness :
  let j := mkLogJson (Some [Run.clickRecord]) None None in
  fst (Run.importLog (Some j) Run.thirtyFive) = mkResult true None (Some 1)
  /\ Run.verify (snd (Run.importLog (Some j) Run.thirtyFive)) = mkResult true None None
  /\ events (state (snd (Run.importLog (Some j) Run.thirtyFive))) = 2.
Proof.
  intros j.
  assert (Hsync : StoreInv.inSync Run.sha256Hex Run.finiteToString Run.thirtyFive).
  { apply (AppendFacts.log_inSync Run.sha256Hex Run.finiteToString _ _ _ _ Run.startLocal).
    apply AppendFacts.fresh_inSync. }
  assert (Hlinked : Chain.linked Run.sha256Hex Run.finiteToString
                      (rootHash (state Run.thirtyFive)) [Run.clickRecord] = true)
    by (vm_compute; reflexivity).
  assert (Htakes : StoreInv.takes (store Run.thirtyFive) [Run.clickRecord]).
  { vm_compute. repeat constructor. }
  destruct (import_extends_a_valid_chain Run.sha256Hex Run.finiteToString
              Run.stringToNumber Run.thirtyFive j [Run.clickRecord]
              Hsync eq_refl eq_refl Hlinked Htakes)
    as (Hres & _ & Hver & _ & _ & Hev).
  split; [ exact Hres | split; [ exact Hver | exact Hev ] ].
Defined.

(** X13 on a run: the same click with an amount written into its data. *)
Lemma import_takes_an_unchecked_record_witness :
  let j := mkLogJson (Some [Alter.with_data (Run.amount 1000) Run.clickRecord])
                     None None in
  fst (Run.importLog (Some j) Run.thirtyFive) = mkResult true None (Some 1)
  /\ Run.verify (snd (Run.importLog (Some j) Run.thirtyFive))
     = mkResult false (Some 1) None.
Proof.
  intros j.
  assert (Hsync : StoreInv.inSync Run.sha256Hex Run.finiteToString Run.thirtyFive).
  { apply (AppendFacts.log_inSync Run.sha256Hex Run.finiteToString _ _ _ _ Run.startLocal).
    apply AppendFacts.fresh_inSync. }
  assert (Hhash : Forge.recomputed Run.sha256Hex Run.finiteToString
                    (Alter.with_data (Run.amount 1000) Run.clickRecord)
                  <> Rec.hash (Alter.with_data (Run.amount 1000) Run.clickRecord)).
  { vm_compute. intros H. discriminate H. }
  assert (Htakes : StoreInv.takes (store Run.thirtyFive)
                     [Alter.with_data (Run.amount 1000) Run.clickRecord]).
  { vm_compute. repeat constructor. }
  exact (import_takes_an_unchecked_record Run.sha256Hex Run.finiteToString
           Run.stringToNumber Run.thirtyFive j _ Hsync eq_refl eq_refl eq_refl
           Hhash Htakes).
Defined.

(** X14 on a run: the first stored record of [threeLogs], given back with
    the head for its [prev]. *)
Lemma import_overwrites_a_taken_key_witness :
  let e := Alter.with_prev (rootHash (state Run.threeLogs)) Run.storedFirst in
  let j := mkLogJson (Some [e]) None None in
  fst (Run.importLog (Some j) Run.threeLogs) = mkResult true None (Some 1)
  /\ List.length (Store.getAll (store (snd (Run.importLog (Some j) Run.threeLogs)))) = 3
  /\ ~ In Run.storedFirst (Store.getAll (store (snd (Run.importLog (Some j) Run.threeLogs)))).
Proof.
  intros e j.
  assert (Hwf : StoreInv.wf (store Run.threeLogs)).
  { vm_compute. repeat split; intros H; discriminate H. }
  assert (Hin : In Run.storedFirst (Store.getAll (store Run.threeLogs))).
  { vm_compute. left. reflexivity. }
  destruct (import_overwrites_a_taken_key Run.sha256Hex Run.finiteToString
              Run.stringToNumber Run.threeLogs j e Run.storedFirst 1%N
              eq_refl Hwf Hin eq_refl eq_refl eq_refl eq_refl)
    as (Hres & Hlen & _ & _ & Hgone).
  split; [ exact Hres | split; [ exact Hlen | ] ].
  apply Hgone. intros H. apply (f_equal Rec.prev) in H. vm_compute in H. discriminate H.
Defined.

(** X15 on a run: the import of the click into [thirtyFive]. *)
Lemma import_on_localStorage_appends_witness :
  exists added,
    store (snd (Run.importLog (Some (mkLogJson (Some [Run.clickRecord]) None None))
                              Run.thirtyFive))
    = Store.LS ([Run.recordThirtyFive] ++ added)
    /\ merged (fst (Run.importLog (Some (mkLogJson (Some [Run.clickRecord]) None None))
                                  Run.thirtyFive))
       = Some (List.length added).
Proof.
  assert (Hwf : StoreInv.wf (store Run.thirtyFive)).
  { vm_compute. repeat constructor. }
  destruct (import_on_localStorage_appends Run.sha256Hex Run.finiteToString
              Run.stringToNumber Run.thirtyFive
              (mkLogJson (Some [Run.clickRecord]) None None) [Run.clickRecord]
              [Run.recordThirtyFive] eq_refl Hwf eq_refl)
    as (added & Hs & Hm & _).
  exists added. split; [ exact Hs | exact Hm ].
Defined.

End MergeFacts.

(** ** [init], the metadata slot and what is exported *)

Module InitFacts.
Local Open Scope list_scope.
Import JsString Json Forge Chain.

Lemma loadMeta_keeps (g : Engine) :
  Init.ld_options (Init.loadMeta g) = options g
  /\ Init.ld_store (Init.loadMeta g) = store g
  /\ Init.ld_meta (Init.loadMeta g) = meta g.
Proof.
  unfold Init.loadMeta.
  destruct (Init.readSlot (store g) (meta g)) as [ [lh st] | ]; repeat split.
Qed.

(** The [lastAt] that [loadMeta] leaves: that of the slot as it is read,
    or the one the closure held when there is no slot. *)
Lemma loadMeta_lastAt (g : Engine) :
  Init.r_lastAt (Init.ld_state (Init.loadMeta g))
  = match meta g with
    | None => Some (lastAt (state g))
    | Some m =>
        if Store.indexed (store g) then Some (lastAt (meta_state m))
        else Init.readNumber (lastAt (meta_state m))
    end.
Proof.
  unfold Init.loadMeta, Init.readSlot.
  destruct (meta g) as [ m | ]; [ | reflexivity ].
  destruct (Store.indexed (store g)); reflexivity.
Qed.

Lemma numbered_lastAt (g : Engine) :
  Init.numbered (store g) (meta g) = true ->
  exists l, Init.r_lastAt (Init.ld_state (Init.loadMeta g)) = Some l.
Proof.
  rewrite loadMeta_lastAt. unfold Init.numbered, Init.readNumber.
  destruct (meta g) as [ m | ]; [ | eexists; reflexivity ].
  destruct (Store.indexed (store g)); [ eexists; reflexivity | ].
  cbn [orb]. intros ->. eexists. reflexivity.
Qed.

Section Platform.
Variable sha256Hex : string -> string.
Variable finiteToString : float -> string.
Variable stringToNumber : string -> float.

Local Abbreviation linkOk := (Forge.linkOk sha256Hex finiteToString).
Local Abbreviation linked := (Chain.linked sha256Hex finiteToString).
Local Abbreviation verifyLoop := (Forge.verifyLoop sha256Hex finiteToString).
Local Abbreviation verify := (Forge.verify sha256Hex finiteToString).
Local Abbreviation perform := (Forge.perform sha256Hex finiteToString).
Local Abbreviation session := (Forge.session sha256Hex finiteToString).
Local Abbreviation rebuildFromZero :=
  (Forge.rebuildFromZero sha256Hex finiteToString stringToNumber).
Local Abbreviation init := (Init.init sha256Hex finiteToString stringToNumber).

(** The replay over the closure that [loadMeta] left is the replay over
    an engine with the same options, storage and [lastAt]. *)
Lemma rebuild_loaded (c : Init.Loaded) (l x : float) (n m : nat) (r : string) :
  Init.r_lastAt (Init.ld_state c) = Some l ->
  Init.rebuildFromZero sha256Hex finiteToString stringToNumber c
  = Some (rebuildFromZero
            (mkEngine (Init.ld_options c) (Init.ld_store c) (Init.ld_meta c)
                      (Init.ld_lastHash c) (mkState x n l m r))).
Proof.
  intros Hl. unfold Init.rebuildFromZero. rewrite Hl. reflexivity.
Qed.

(** On an engine the two readings of [rebuildFromZero] are one. *)
Lemma rebuild_ofEngine (g : Engine) :
  Init.rebuildFromZero sha256Hex finiteToString stringToNumber (Init.ofEngine g)
  = Some (rebuildFromZero g).
Proof. destruct g as [o s m l [x n a e r]]. reflexivity. Qed.

(** [init] returns when [lastAt] comes out of the slot as a number, and
    what it returns is the replay of an engine over the storage it
    opened. *)
Lemma init_replays (opts : Init.InitOpts) (s : Store.store) (slot : option Meta)
    (g : Engine) :
  Init.numbered s slot = true ->
  exists g0,
    init opts s slot g = Some (snd (rebuildFromZero g0))
    /\ options g0 = Init.mergeOptions (options g) opts
    /\ store g0 = s.
Proof.
  intros Hnum. unfold Init.init.
  set (g0 := mkEngine (Init.mergeOptions (options g) opts) s slot (lastHash g) (state g)).
  destruct (numbered_lastAt g0 Hnum) as (l & Hl).
  destruct (loadMeta_keeps g0) as (Ho & Hs & Hm).
  rewrite (rebuild_loaded _ l zero 0 0 EmptyString Hl). cbn [option_map].
  eexists. split; [ reflexivity | ]. cbn [options store]. split; assumption.
Qed.

(** X16: what [init] leaves comes from the stored events, not from the
    metadata slot nor from what the closure held.  Whenever [lastAt] comes
    out of the slots as a number (the slot was never written, or the store
    is the indexed one, or the [lastAt] of the slot is finite; the [xp] of
    the slot may be anything, [null] too), two runs of [init] over the
    same events return, and they end with the same [xp], [streak],
    [rootHash], [events] and [lastHash], whatever the slots said.
    [events] is the number of stored events, [rootHash] is [lastHash], the
    slot is rewritten with them, and the options are the old ones
    overridden by the given ones. *)
Theorem init_overrides_the_slot (opts opts' : Init.InitOpts) (s : Store.store)
    (slot slot' : option Meta) (g g' : Engine) :
  Init.numbered s slot = true ->
  Init.numbered s slot' = true ->
  exists g1 g2,
    init opts s slot g = Some g1
    /\ init opts' s slot' g' = Some g2
    /\ derived (state g1) = derived (state g2)
    /\ lastHash g1 = lastHash g2
    /\ store g1 = s
    /\ events (state g1) = List.length (Store.getAll s)
    /\ rootHash (state g1) = lastHash g1
    /\ meta g1 = Some (mkMeta (lastHash g1) (state g1))
    /\ options g1 = Init.mergeOptions (options g) opts.
Proof.
  intros H1 H2.
  destruct (init_replays opts s slot g H1) as (a & Ha & Hoa & Hsa).
  destruct (init_replays opts' s slot' g' H2) as (b & Hb & Hob & Hsb).
  exists (snd (rebuildFromZero a)), (snd (rebuildFromZero b)).
  split; [ exact Ha | split; [ exact Hb | ] ].
  unfold Forge.rebuildFromZero, derived.
  cbn [snd saveMeta store lastHash state options meta xp streak events rootHash].
  rewrite Hsa, Hsb, Hoa. repeat split.
Qed.

(** X17: [init] returns whenever [lastAt] comes out of the slot as a
    number, whatever the stored events are; and when the stored events
    are as [put] leaves them and verify, every session of calls after it
    keeps the chain verifying, with [events] the number of stored events
    and [rootHash] the head of the chain. *)
Theorem init_then_session_stays_in_step (opts : Init.InitOpts) (s : Store.store)
    (slot : option Meta) (g : Engine) :
  Init.numbered s slot = true ->
  exists g1,
    init opts s slot g = Some g1
    /\ (StoreInv.wf s ->
        linked GENESIS (Store.getAll s) = true ->
        forall calls,
          let g' := session calls g1 in
          verify g' = mkResult true None None
          /\ events (state g') = List.length (Store.getAll (store g'))
          /\ rootHash (state g') = chainHead GENESIS (Store.getAll (store g'))
          /\ List.length (Store.getAll (store g'))
             = List.length (Store.getAll s) + List.length (List.filter appends calls)).
Proof.
  intros Hnum.
  destruct (init_replays opts s slot g Hnum) as (a & Ha & _ & Hs).
  exists (snd (rebuildFromZero a)). split; [ exact Ha | ].
  intros Hwf Hlinked calls. cbv zeta.
  set (g' := session calls _).
  assert (Hok : ok (verify a) = true).
  { unfold Forge.verify. rewrite ReplayFacts.verifyLoop_ok_linked, Hs. exact Hlinked. }
  rewrite <- Hs in Hwf.
  destruct (SessionFacts.rebuilt_inSync sha256Hex finiteToString stringToNumber a Hwf Hok)
    as [Hsync Hcnt].
  destruct (SessionFacts.session_counted sha256Hex finiteToString calls _ Hsync Hcnt)
    as [(Hwf' & Hl' & Hhead) [He Hr]].
  destruct (AppendFacts.session_inSync sha256Hex finiteToString calls _ Hsync)
    as [_ Hlen].
  fold g' in Hwf', Hl', Hhead, He, Hr, Hlen.
  split; [ apply ReplayFacts.verifyLoop_linked; exact Hl' | ].
  split; [ exact He | split; [ congruence | ] ].
  rewrite Hlen. unfold Forge.rebuildFromZero. cbn [snd saveMeta store].
  rewrite Hs. reflexivity.
Qed.

(** No call assigns [lastAt], and the slot that a call writes holds the
    [lastAt] of the state. *)
Lemma perform_lastAt (c : Call) (g : Engine) (l : float) :
  lastAt (state g) = l ->
  (forall m, meta g = Some m -> lastAt (meta_state m) = l) ->
  lastAt (state (perform c g)) = l
  /\ (forall m, meta (perform c g) = Some m -> lastAt (meta_state m) = l).
Proof.
  intros Hl Hm.
  destruct c as [ now nonce ty data | visible path now nonce | nonce entry ];
    cbn [Forge.perform].
  - unfold Forge.log, Forge.appendEvent. cbn [snd saveMeta options store meta lastHash state].
    destruct (String.eqb ty "click" || String.eqb ty "quest:complete");
      (split; [ exact Hl | intros m H; injection H as <-; exact Hl ]).
  - unfold Forge.heartbeatTick, Forge.appendEvent. destruct visible.
    + cbn [snd saveMeta options store meta lastHash state lastAt].
      split; [ exact Hl | intros m H; injection H as <-; exact Hl ].
    + split; assumption.
  - unfold Forge.appendEvent. cbn [snd saveMeta options store meta lastHash state lastAt].
    split; [ exact Hl | intros m H; injection H as <-; exact Hl ].
Qed.

Lemma session_lastAt (calls : list Call) :
  forall (g : Engine) (l : float),
    lastAt (state g) = l ->
    (forall m, meta g = Some m -> lastAt (meta_state m) = l) ->
    lastAt (state (session calls g)) = l
    /\ (forall m, meta (session calls g) = Some m -> lastAt (meta_state m) = l).
Proof.
  induction calls as [ | c calls IH ]; intros g l Hl Hm; cbn [Forge.session].
  - split; assumption.
  - destruct (perform_lastAt c g l Hl Hm) as [Hl' Hm']. apply IH; assumption.
Qed.

(** The partiality of [init] does not show on the engine's own storage:
    after an [init] that found [lastAt] a finite number, or found the
    indexed store, whatever is called next leaves storage over which
    [init] returns again. *)
Lemma init_returns_again (opts : Init.InitOpts) (s : Store.store)
    (slot : option Meta) (g g1 : Engine) (calls : list Call) :
  init opts s slot g = Some g1 ->
  Store.indexed s = true \/ is_finite (lastAt (state g1)) = true ->
  Init.numbered (store (session calls g1)) (meta (session calls g1)) = true.
Proof.
  intros Hinit Hfin. unfold Init.init in Hinit.
  destruct (Init.rebuildFromZero _ _ _ _) as [ [r a] | ] eqn:Hre; [ | discriminate Hinit ].
  injection Hinit as <-. unfold Init.rebuildFromZero in Hre.
  destruct (Init.r_lastAt _) as [ l | ]; [ | discriminate Hre ].
  injection Hre as _ <-. cbn [snd] in *.
  destruct (loadMeta_keeps
              (mkEngine (Init.mergeOptions (options g) opts) s slot (lastHash g) (state g)))
    as (_ & Hs & _). cbn [store] in Hs.
  set (g1 := saveMeta _) in *.
  assert (Hstore : Store.indexed (store (session calls g1)) = Store.indexed s).
  { rewrite AppendFacts.session_indexed. unfold g1. cbn [saveMeta store]. rewrite Hs.
    reflexivity. }
  destruct (session_lastAt calls g1 l eq_refl) as [_ Hm].
  { intros m H. unfold g1 in H. cbn [saveMeta meta] in H. injection H as <-. reflexivity. }
  unfold Init.numbered. destruct (meta (session calls g1)) as [ m | ]; [ | reflexivity ].
  rewrite Hstore, (Hm m eq_refl).
  destruct Hfin as [ -> | Hfin ]; [ reflexivity | ].
  unfold g1 in Hfin. cbn [saveMeta state lastAt] in Hfin. rewrite Hfin. apply orb_true_r.
Qed.

(** X18: what [exportLog] hands out hangs together whenever the engine is
    in step with its store, as it is after [init] or a replay and the
    calls that follow: the exported [rootHash] is the head of the exported
    entries, which are linked from the sentinel, and the [entries] of the
    summary is their number and the [events] of the state. *)
Theorem export_hangs_together (g : Engine) (calls : list Call) :
  StoreInv.inSync sha256Hex finiteToString g ->
  StoreInv.counted g ->
  let g' := session calls g in
  exists es sm,
    exportLog g' = mkLogJson (Some es) (Some (chainHead GENESIS es)) (Some sm)
    /\ linked GENESIS es = true
    /\ sum_entries sm = List.length es
    /\ sum_entries sm = events (state g')
    /\ sum_appId sm = appId (options g')
    /\ sum_profileId sm = profileId (options g').
Proof.
  intros Hsync Hcnt g'.
  destruct (SessionFacts.session_counted sha256Hex finiteToString calls _ Hsync Hcnt)
    as [(_ & Hl & Hhead) [He Hr]].
  fold g' in Hl, Hhead, He, Hr.
  unfold exportLog. do 2 eexists. split; [ | split; [ exact Hl | ] ].
  - rewrite Hr, Hhead. reflexivity.
  - cbn [sum_entries sum_appId sum_profileId]. rewrite He. repeat split.
Qed.

(** A walk over the JSON readings of the records is the walk over the
    records. *)
Lemma verifyLoop_reparse (es : list Rec.rec) :
  forall k prev,
    verifyLoop k prev (List.map Rec.reparse es) = verifyLoop k prev es.
Proof.
  induction es as [ | e es IH ]; intros k prev; simpl.
  - reflexivity.
  - rewrite ReplayFacts.linkOk_reparse.
    destruct (linkOk prev e); [ apply IH | reflexivity ].
Qed.

(** X19: the check cannot tell a record from its JSON reading.  Stored
    events that went through [JSON.stringify] and [JSON.parse], where a
    number that is not finite becomes [null] and a negative zero becomes
    [0], get from [verify] the answer the events themselves get, and a
    second passage changes nothing. *)
Theorem verify_ignores_the_passage_through_json (g : Engine) (es : list Rec.rec) :
  verify (Alter.with_events (List.map Rec.reparse es) g)
  = verify (Alter.with_events es g)
  /\ List.map Rec.reparse (List.map Rec.reparse es) = List.map Rec.reparse es
  /\ StoreInv.wf (store (Alter.with_events (List.map Rec.reparse es) g)).
Proof.
  split; [ apply verifyLoop_reparse | ].
  assert (Hst : Forall (fun e => Rec.reparse e = e) (List.map Rec.reparse es)).
  { apply Forall_forall. intros x Hx.
    apply list_elem_of_In, in_map_iff in Hx as (y & <- & _).
    apply JsonFacts.rec_reparse_idempotent. }
  split; [ apply PutFacts.reparsed_stable; exact Hst | exact Hst ].
Qed.

(** A call writes the options, [lastHash] and the state from those it
    finds, and reads no stored event. *)
Lemma perform_reads_no_store (c : Call) (g1 g2 : Engine) :
  options g1 = options g2 -> lastHash g1 = lastHash g2 -> state g1 = state g2 ->
  options (perform c g1) = options (perform c g2)
  /\ lastHash (perform c g1) = lastHash (perform c g2)
  /\ state (perform c g1) = state (perform c g2).
Proof.
  destruct g1 as [o1 s1 m1 l1 st1], g2 as [o2 s2 m2 l2 st2]. simpl.
  intros -> -> ->.
  destruct c as [ now nonce ty data | visible path now nonce | nonce entry ];
    cbn [Forge.perform].
  - unfold Forge.log, Forge.appendEvent. cbn [snd saveMeta options lastHash state].
    repeat split.
  - unfold Forge.heartbeatTick, Forge.appendEvent. destruct visible; repeat split.
  - repeat split.
Qed.

(** X20: the calls that append read no stored event.  Two engines that
    agree on the options, [lastHash] and the state, over whatever stores,
    agree on them after the same calls. *)
Theorem appending_reads_no_store (calls : list Call) (g1 g2 : Engine) :
  options g1 = options g2 ->
  lastHash g1 = lastHash g2 ->
  state g1 = state g2 ->
  options (session calls g1) = options (session calls g2)
  /\ lastHash (session calls g1) = lastHash (session calls g2)
  /\ state (session calls g1) = state (session calls g2).
Proof.
  revert g1 g2. induction calls as [ | c calls IH ]; intros g1 g2 Ho Hl Hs;
    cbn [Forge.session].
  - repeat split; assumption.
  - destruct (perform_reads_no_store c g1 g2 Ho Hl Hs) as (Ho' & Hl' & Hs').
    apply IH; assumption.
Qed.

End Platform.

(** X21: what [saveMeta] wrote, [loadMeta] reads back into the closure,
    whatever its variables held: on the indexed store always, on
    [localStorage] when the numbers of the state are finite and no
    negative zero.  A [lastHash] that is empty comes back as the
    sentinel. *)
Theorem saved_meta_loads_back (g : Engine) (lh : string) (st : State) :
  Store.indexed (store g) = true
  \/ Init.readState (state g) = Init.ofState (state g) ->
  Init.loadMeta (mkEngine (options g) (store g) (meta (saveMeta g)) lh st)
  = Init.ofEngine
      (mkEngine (options g) (store g) (meta (saveMeta g))
                (if String.eqb (lastHash g) EmptyString then GENESIS else lastHash g)
                (state g)).
Proof.
  intros H. unfold Init.loadMeta, Init.readSlot, Init.ofEngine, saveMeta.
  cbn [store meta options lastHash state meta_lastHash meta_state].
  destruct (Store.indexed (store g)) eqn:Hidx.
  - reflexivity.
  - destruct H as [ H | H ]; [ discriminate H | ]. rewrite H. reflexivity.
Qed.

(** X16 on a run: [init] over the events of [threeLocal] in
    [localStorage], once with an empty slot and once with a slot whose
    text says [null] for [xp]. *)
Lemma init_overrides_the_slot_witness :
  exists g1 g2,
    Init.init Run.sha256Hex Run.finiteToString Run.stringToNumber
      (Init.mkInitOpts None None None) (store Run.threeLocal) None Run.startLocal
    = Some g1
    /\ Init.init Run.sha256Hex Run.finiteToString Run.stringToNumber
         (Init.mkInitOpts (Some "shop") None None) (store Run.threeLocal) Run.nanSlot
         Run.oneClick = Some g2
    /\ derived (state g1) = derived (state g2)
    /\ events (state g1) = 3.
Proof.
  destruct (init_overrides_the_slot Run.sha256Hex Run.finiteToString Run.stringToNumber
              (Init.mkInitOpts None None None) (Init.mkInitOpts (Some "shop") None None)
              (store Run.threeLocal) None Run.nanSlot Run.startLocal Run.oneClick
              eq_refl eq_refl) as (g1 & g2 & H1 & H2 & Hd & _ & _ & He & _).
  exists g1, g2. split; [ exact H1 | split; [ exact H2 | split; [ exact Hd | ] ] ].
  rewrite He. vm_compute. reflexivity.
Defined.

(** X17 on a run: [init] over the events of [threeLocal] and a slot whose
    text says [null] for [xp], and one click. *)
Lemma init_then_session_stays_in_step_witness :
  exists g1,
    Init.init Run.sha256Hex Run.finiteToString Run.stringToNumber
      (Init.mkInitOpts None None None) (store Run.threeLocal) Run.nanSlot Run.startLocal
    = Some g1
    /\ Run.verify (snd (Run.log "2025-03-02T10:00:00.000Z" "a1b2c" "click" None g1))
       = mkResult true None None.
Proof.
  assert (Hwf : StoreInv.wf (store Run.threeLocal)).
  { vm_compute. repeat constructor. }
  assert (Hl : Chain.linked Run.sha256Hex Run.finiteToString GENESIS
                 (Store.getAll (store Run.threeLocal)) = true) by (vm_compute; reflexivity).
  destruct (init_then_session_stays_in_step Run.sha256Hex Run.finiteToString
              Run.stringToNumber (Init.mkInitOpts None None None) (store Run.threeLocal)
              Run.nanSlot Run.startLocal eq_refl) as (g1 & Hinit & Hall).
  exists g1. split; [ exact Hinit | ].
  exact (proj1 (Hall Hwf Hl [ CallLog "2025-03-02T10:00:00.000Z" "a1b2c" "click" None ])).
Defined.

(** X21 on a run: the slot of [thirtyFive], on [localStorage]. *)
Lemma saved_meta_loads_back_witness :
  Init.loadMeta (mkEngine (options Run.thirtyFive) (store Run.thirtyFive)
                          (meta (saveMeta Run.thirtyFive)) GENESIS initialState)
  = Init.ofEngine
      (mkEngine (options Run.thirtyFive) (store Run.thirtyFive)
                (meta (saveMeta Run.thirtyFive))
                (if String.eqb (lastHash Run.thirtyFive) EmptyString
                 then GENESIS else lastHash Run.thirtyFive)
                (state Run.thirtyFive)).
Proof.
  assert (H : Store.indexed (store Run.thirtyFive) = true
              \/ Init.readState (state Run.thirtyFive)
                 = Init.ofState (state Run.thirtyFive)).
  { right. vm_compute. reflexivity. }
  exact (saved_meta_loads_back Run.thirtyFive GENESIS initialState H).
Defined.

(** X18 on a run: the export after a click on a fresh profile. *)
Lemma export_hangs_together_witness :
  let g' := snd (Run.log "2025-03-02T10:00:00.000Z" "a1b2c" "click" None Run.start) in
  exists es sm,
    exportLog g' = mkLogJson (Some es) (Some (chainHead GENESIS es)) (Some sm)
    /\ sum_entries sm = 1.
Proof.
  intros g'.
  assert (Hsync : StoreInv.inSync Run.sha256Hex Run.finiteToString Run.start)
    by apply AppendFacts.fresh_inSync.
  assert (Hcnt : StoreInv.counted Run.start) by (split; reflexivity).
  destruct (export_hangs_together Run.sha256Hex Run.finiteToString Run.start
              [ CallLog "2025-03-02T10:00:00.000Z" "a1b2c" "click" None ] Hsync Hcnt)
    as (es & sm & Hexp & _ & _ & Hev & _).
  exists es, sm. split; [ exact Hexp | ].
  rewrite Hev. vm_compute. reflexivity.
Defined.

(** X20 on a run: the same two calls on the indexed store and on
    [localStorage]. *)
Lemma appending_reads_no_store_witness :
  let calls := [ CallLog "2025-03-02T10:00:00.000Z" "a1b2c" "click" None;
                 CallTick true "/" "2025-03-02T10:00:15.000Z" "d3e4f" ] in
  state (Forge.session Run.sha256Hex Run.finiteToString calls Run.start)
  = state (Forge.session Run.sha256Hex Run.finiteToString calls Run.startLocal).
Proof.
  intros calls.
  exact (proj2 (proj2 (appending_reads_no_store Run.sha256Hex Run.finiteToString calls
                         Run.start Run.startLocal eq_refl eq_refl eq_refl))).
Defined.

End InitFacts.
